(** * T2T-C10GX tick-to-trade pipeline: a shallow embedding of the RTL

    The design is synchronous RTL.  Every [always_ff] block is embedded as a
    next-state function over a record of its registers: all right-hand sides
    read the registers as they are before the clock edge (non-blocking
    assignment), and where one block assigns a register twice in a cycle the
    textually last assignment wins.  Combinational [assign]s and
    [always_comb] blocks are plain functions of the registers and inputs.
    A [w]-bit vector is a [Z] with its wrap-around written out. *)

From Stdlib Require Import ZArith List Bool Lia.
Import ListNotations.
Open Scope Z_scope.

(** ** Bit-vector helpers *)

(** Truncation of a value to a [w]-bit vector. *)
Definition trunc (w x : Z) : Z := x mod 2 ^ w.

(** Part select [x[hi:lo]]. *)
Definition bits (hi lo x : Z) : Z := (x / 2 ^ lo) mod 2 ^ (hi - lo + 1).

(** Running a next-state function over a list of per-cycle inputs. *)
Definition run {S I : Type} (step : S -> I -> S) (s : S) (ins : list I) : S :=
  fold_left step ins s.

(** ** t2t_pkg.sv: types and constants *)
Module T2tPkg.

Definition MAX_SYMBOLS : Z := 1024.
Definition SYMBOL_IDX_WIDTH : Z := 10.
Definition DMA_RING_DEPTH : Z := 65536.
Definition DMA_IDX_WIDTH : Z := 16.

(** [itch_msg_type_e] is an 8-bit enum; the decoder casts arbitrary type
    bytes into it, so it is kept as the byte with named constants. *)
Definition itch_msg_type_e := Z.
Definition ITCH_SYSTEM_EVENT : itch_msg_type_e := 0x53.
Definition ITCH_STOCK_DIRECTORY : itch_msg_type_e := 0x52.
Definition ITCH_ADD_ORDER : itch_msg_type_e := 0x41.
Definition ITCH_ADD_ORDER_MPID : itch_msg_type_e := 0x46.
Definition ITCH_ORDER_EXECUTED : itch_msg_type_e := 0x45.
Definition ITCH_ORDER_EXECUTED_PX : itch_msg_type_e := 0x43.
Definition ITCH_ORDER_CANCEL : itch_msg_type_e := 0x58.
Definition ITCH_ORDER_DELETE : itch_msg_type_e := 0x44.
Definition ITCH_ORDER_REPLACE : itch_msg_type_e := 0x55.
Definition ITCH_TRADE : itch_msg_type_e := 0x50.
Definition ITCH_CROSS_TRADE : itch_msg_type_e := 0x51.

Inductive side_e := SIDE_BID | SIDE_ASK.

Definition side_bit (s : side_e) : Z :=
  match s with SIDE_BID => 0 | SIDE_ASK => 1 end.

Inductive risk_reason_e :=
| RISK_ACCEPT | RISK_PRICE_BAND | RISK_TOKEN_BUCKET | RISK_POSITION_LIMIT
| RISK_KILL_SWITCH | RISK_STALE_DATA | RISK_SEQ_GAP | RISK_HALT
| RISK_UNKNOWN_SYMBOL | RISK_RESERVED.

Definition risk_reason_eqb (a b : risk_reason_e) : bool :=
  match a, b with
  | RISK_ACCEPT, RISK_ACCEPT | RISK_PRICE_BAND, RISK_PRICE_BAND
  | RISK_TOKEN_BUCKET, RISK_TOKEN_BUCKET
  | RISK_POSITION_LIMIT, RISK_POSITION_LIMIT
  | RISK_KILL_SWITCH, RISK_KILL_SWITCH | RISK_STALE_DATA, RISK_STALE_DATA
  | RISK_SEQ_GAP, RISK_SEQ_GAP | RISK_HALT, RISK_HALT
  | RISK_UNKNOWN_SYMBOL, RISK_UNKNOWN_SYMBOL
  | RISK_RESERVED, RISK_RESERVED => true
  | _, _ => false
  end.

(** Decoded ITCH message ([itch_msg_t]); fields carry the prefix [m_]. *)
Record itch_msg_t := {
  m_ingress_ts : Z;  m_decode_ts : Z;  m_seq_num : Z;
  m_msg_type : itch_msg_type_e;
  m_symbol_key : Z;  m_symbol_idx : Z;  m_symbol_valid : bool;
  m_side : side_e;  m_price : Z;  m_qty : Z;  m_order_id : Z;
  m_is_book_update : bool;  m_stale : bool;  m_error_flags : Z }.

(** Top-of-book entry ([tob_entry_t]); fields carry the prefix [tob_]. *)
Record tob_entry_t := {
  tob_bid_px : Z;  tob_bid_qty : Z;  tob_ask_px : Z;  tob_ask_qty : Z;
  tob_last_update_ts : Z;  tob_valid : bool }.

(** Book update event ([book_event_t]); fields carry the prefix [ev_]. *)
Record book_event_t := {
  ev_ingress_ts : Z;  ev_book_ts : Z;  ev_symbol_idx : Z;
  ev_tob : tob_entry_t;
  ev_last_trade_px : Z;  ev_last_trade_qty : Z;
  ev_tob_changed : bool;  ev_trade_occurred : bool;  ev_stale : bool;
  ev_trigger_msg_type : itch_msg_type_e }.

(** Risk gate output ([risk_output_t]); fields carry the prefix [ro_]. *)
Record risk_output_t := {
  ro_accept : bool;  ro_reason : risk_reason_e;
  ro_decision_ts : Z;  ro_book_event : book_event_t }.

(** DMA record ([dma_record_t], 64 bytes). *)
Record dma_record_t := {
  reserved_hi : Z;  pad : Z;  payload_crc16 : Z;
  feature2 : Z;  feature1 : Z;  feature0 : Z;
  ref_px : Z;  price : Z;  qty : Z;  flags : Z;  side : Z;  sym_idx : Z;
  ts_dec : Z;  ts_ing : Z;  reserved_lo : Z;  seq : Z }.

(** The all-zero values that ['0] assigns on reset. *)
Definition tob_zero : tob_entry_t := Build_tob_entry_t 0 0 0 0 0 false.
Definition book_event_zero : book_event_t :=
  Build_book_event_t 0 0 0 tob_zero 0 0 false false false 0.
Definition risk_output_zero : risk_output_t :=
  Build_risk_output_t false RISK_ACCEPT 0 book_event_zero.
Definition dma_record_zero : dma_record_t :=
  Build_dma_record_t 0 0 0 0 0 0 0 0 0 0 0 0 0 0 0 0.
Definition itch_msg_zero : itch_msg_t :=
  Build_itch_msg_t 0 0 0 0 0 0 false SIDE_BID 0 0 0 false false 0.

(** [crc16_ccitt]: the package's CRC-16 (CCITT) "for DMA record
    integrity": initial value 0xFFFF, polynomial 0x1021, most significant
    bit first, no final xor. *)
Definition crc16_bit (crc : Z) : Z :=
  if Z.testbit crc 15
  then Z.lxor (trunc 16 (Z.shiftl crc 1)) 0x1021
  else trunc 16 (Z.shiftl crc 1).

Definition crc16_byte (crc b : Z) : Z :=
  let c := Z.lxor crc (trunc 16 (Z.shiftl b 8)) in
  crc16_bit (crc16_bit (crc16_bit (crc16_bit
    (crc16_bit (crc16_bit (crc16_bit (crc16_bit c))))))).

Definition crc16_ccitt (data : list Z) : Z := fold_left crc16_byte data 0xFFFF.

(** [is_book_affecting]. *)
Definition is_book_affecting (t : itch_msg_type_e) : bool :=
  (t =? ITCH_ADD_ORDER) || (t =? ITCH_ADD_ORDER_MPID)
  || (t =? ITCH_ORDER_EXECUTED) || (t =? ITCH_ORDER_EXECUTED_PX)
  || (t =? ITCH_ORDER_CANCEL) || (t =? ITCH_ORDER_DELETE)
  || (t =? ITCH_ORDER_REPLACE) || (t =? ITCH_TRADE).

End T2tPkg.
Import T2tPkg.

(** ** risk_gate.sv *)
Module RiskGate.

(** Token bucket replenish interval (cycles at 300 MHz for 1 ms). *)
Definition TOKEN_REPLENISH_CYCLES : Z := 300000.

Inductive risk_state_e := RISK_IDLE | RISK_CHECK | RISK_DECIDE.

(** Module inputs sampled in one clock cycle. *)
Record inputs := {
  event_in : book_event_t;  event_valid : bool;  decision_ready : bool;
  timestamp_cnt : Z;
  cfg_enable : bool;
  cfg_price_band_bps : Z;  cfg_token_rate : Z;  cfg_token_max : Z;
  cfg_position_limit : Z;  cfg_stale_usec : Z;  cfg_seq_gap_thr : Z;
  cfg_kill : bool;
  ref_price_data : Z;  ref_price_valid : bool }.

(** The registers of the module. *)
Record regs := {
  state : risk_state_e;
  event_reg : book_event_t;
  decision_ts : Z;
  accept : bool;
  reject_reason : risk_reason_e;
  token_bucket : Z;
  token_replenish_cnt : Z;
  ref_price_reg : Z;
  decision_reg : risk_output_t;
  decision_pending : bool;
  stat_accepts : Z;
  stat_rejects : Z }.

(** Reset values.  [accept] and [reject_reason] have no reset assignment
    in the source; their power-up values are parameters. *)
Definition reset (accept0 : bool) (reason0 : risk_reason_e) : regs :=
  {| state := RISK_IDLE;  event_reg := book_event_zero;  decision_ts := 0;
     accept := accept0;  reject_reason := reason0;
     token_bucket := 0;  token_replenish_cnt := 0;  ref_price_reg := 0;
     decision_reg := risk_output_zero;  decision_pending := false;
     stat_accepts := 0;  stat_rejects := 0 |}.

(** *** Combinational checks *)

Definition check_token_ok (r : regs) : bool := 0 <? token_bucket r.

(** [current_price = (bid_px + ask_px) >> 1]: both operands and the target
    are 32 bits wide and the shift amount does not widen the expression, so
    the sum is formed in 32 bits and its carry is lost before the shift. *)
Definition current_price (r : regs) : Z :=
  Z.shiftr (trunc 32 (tob_bid_px (ev_tob (event_reg r))
                      + tob_ask_px (ev_tob (event_reg r)))) 1.

Definition price_diff_abs (r : regs) : Z :=
  if ref_price_reg r <=? current_price r
  then trunc 64 (current_price r - ref_price_reg r)
  else trunc 64 (ref_price_reg r - current_price r).

Definition band_threshold (r : regs) (i : inputs) : Z :=
  trunc 64 (ref_price_reg r * cfg_price_band_bps i).

Definition check_price_band_ok (r : regs) (i : inputs) : bool :=
  (trunc 64 (price_diff_abs r * 10000) <=? band_threshold r i)
  || (ref_price_reg r =? 0) || (cfg_price_band_bps i =? 0).

Definition check_position_ok (r : regs) (i : inputs) : bool :=
  (tob_bid_qty (ev_tob (event_reg r)) <=? bits 30 0 (cfg_position_limit i))
  && (tob_ask_qty (ev_tob (event_reg r)) <=? bits 30 0 (cfg_position_limit i)).

Definition data_age_cycles (r : regs) (i : inputs) : Z :=
  trunc 64 (timestamp_cnt i - ev_book_ts (event_reg r)).

Definition stale_threshold_cycles (i : inputs) : Z :=
  trunc 64 (cfg_stale_usec i * 300).

Definition check_not_stale (r : regs) (i : inputs) : bool :=
  (data_age_cycles r i <=? stale_threshold_cycles i)
  || negb (ev_stale (event_reg r)).

Definition check_not_killed (i : inputs) : bool := negb (cfg_kill i).
Definition check_no_seq_gap (r : regs) : bool := negb (ev_stale (event_reg r)).

Definition is_idle (r : regs) : bool :=
  match state r with RISK_IDLE => true | _ => false end.
Definition is_decide (r : regs) : bool :=
  match state r with RISK_DECIDE => true | _ => false end.

Definition decision_valid (r : regs) : bool :=
  decision_pending r && (is_decide r || is_idle r).
Definition event_ready (r : regs) (i : inputs) : bool :=
  is_idle r && cfg_enable i.
Definition decision_out (r : regs) : risk_output_t := decision_reg r.

(** *** The verdict of RISK_DECIDE: next values of [accept] and
    [reject_reason]. *)
Definition all_checks_ok (r : regs) (i : inputs) : bool :=
  check_not_killed i && check_not_stale r i && check_no_seq_gap r
  && check_price_band_ok r i && check_token_ok r && check_position_ok r i.

Definition decide_reason (r : regs) (i : inputs) : risk_reason_e :=
  if all_checks_ok r i then RISK_ACCEPT
  else if negb (check_not_killed i) then RISK_KILL_SWITCH
  else if negb (check_not_stale r i) then RISK_STALE_DATA
  else if negb (check_no_seq_gap r) then RISK_SEQ_GAP
  else if negb (check_price_band_ok r i) then RISK_PRICE_BAND
  else if negb (check_token_ok r) then RISK_TOKEN_BUCKET
  else RISK_POSITION_LIMIT.

(** *** Token bucket block *)

Definition replenish_tick (r : regs) : bool :=
  TOKEN_REPLENISH_CYCLES - 1 <=? token_replenish_cnt r.

Definition token_consume (r : regs) (i : inputs) : bool :=
  decision_valid r && decision_ready i && ro_accept (decision_reg r).

Definition next_token_replenish_cnt (r : regs) : Z :=
  if replenish_tick r then 0 else trunc 32 (token_replenish_cnt r + 1).

Definition next_token_bucket (r : regs) (i : inputs) : Z :=
  let replenished :=
    if replenish_tick r && (token_bucket r <? cfg_token_max i)
    then if cfg_token_max i <? trunc 32 (token_bucket r + cfg_token_rate i)
         then cfg_token_max i
         else trunc 32 (token_bucket r + cfg_token_rate i)
    else token_bucket r in
  if token_consume r i && (0 <? token_bucket r)
  then trunc 32 (token_bucket r - 1)
  else replenished.

(** *** One clock cycle *)
Definition step (r : regs) (i : inputs) : regs :=
  let take := event_valid i && event_ready r i && cfg_enable i in
  let hs := decision_valid r && decision_ready i in
  {| state :=
       match state r with
       | RISK_IDLE => if take then RISK_CHECK else RISK_IDLE
       | RISK_CHECK => RISK_DECIDE
       | RISK_DECIDE =>
           if decision_ready i || negb (decision_pending r)
           then RISK_IDLE else RISK_DECIDE
       end;
     event_reg :=
       match state r with
       | RISK_IDLE => if take then event_in i else event_reg r
       | _ => event_reg r
       end;
     decision_ts :=
       match state r with
       | RISK_IDLE => if take then timestamp_cnt i else decision_ts r
       | _ => decision_ts r
       end;
     accept :=
       match state r with
       | RISK_DECIDE => all_checks_ok r i
       | _ => accept r
       end;
     reject_reason :=
       match state r with
       | RISK_DECIDE => decide_reason r i
       | _ => reject_reason r
       end;
     token_bucket := next_token_bucket r i;
     token_replenish_cnt := next_token_replenish_cnt r;
     ref_price_reg :=
       if ref_price_valid i then ref_price_data i else ref_price_reg r;
     decision_reg :=
       match state r with
       | RISK_DECIDE =>
           {| ro_accept := accept r;  ro_reason := reject_reason r;
              ro_decision_ts := decision_ts r;
              ro_book_event := event_reg r |}
       | _ => decision_reg r
       end;
     decision_pending :=
       match state r with
       | RISK_IDLE => false
       | RISK_CHECK => decision_pending r
       | RISK_DECIDE => true
       end;
     stat_accepts :=
       if hs && ro_accept (decision_reg r)
       then trunc 32 (stat_accepts r + 1) else stat_accepts r;
     stat_rejects :=
       if hs && negb (ro_accept (decision_reg r))
       then trunc 32 (stat_rejects r + 1) else stat_rejects r |}.

End RiskGate.

(** ** itch_splitter.sv

    The whole module: input registration, the framing state machine with
    the message buffer, the sequence tracker and the statistics counters.

    SPLIT_BODY collects bytes in a [while] loop whose body makes
    non-blocking assignments only.  The loop is embedded as it is written,
    with a fuel bound on its passes: its condition reads the registers as
    they are before the clock edge, and a pass changes the pending next
    values, not the registers.  A clock edge on which the loop does not
    come to an end has no next state: [step] returns [None]. *)
Module ItchSplitter.

Definition KEEP_WIDTH : Z := 8.
Definition MAX_MSG_BYTES : Z := 64.
Definition MSG_BUF_DEPTH : Z := 128.

Inductive split_state_e :=
| SPLIT_IDLE | SPLIT_HEADER | SPLIT_BODY | SPLIT_EMIT | SPLIT_WAIT.

(** [get_msg_length]: ITCH message length by type byte, 0 when unknown. *)
Definition get_msg_length (msg_type : Z) : Z :=
  if msg_type =? 0x53 then 12 else if msg_type =? 0x52 then 39
  else if msg_type =? 0x48 then 25 else if msg_type =? 0x59 then 20
  else if msg_type =? 0x4C then 26 else if msg_type =? 0x56 then 35
  else if msg_type =? 0x57 then 12 else if msg_type =? 0x4B then 28
  else if msg_type =? 0x41 then 36 else if msg_type =? 0x46 then 40
  else if msg_type =? 0x45 then 31 else if msg_type =? 0x43 then 36
  else if msg_type =? 0x58 then 23 else if msg_type =? 0x44 then 19
  else if msg_type =? 0x55 then 35 else if msg_type =? 0x50 then 44
  else if msg_type =? 0x51 then 40 else if msg_type =? 0x42 then 19
  else if msg_type =? 0x49 then 50 else if msg_type =? 0x4E then 20
  else 0.

(** Module inputs sampled in one clock cycle. *)
Record inputs := {
  s_axis_tdata : Z;  s_axis_tkeep : Z;  s_axis_tlast : bool;
  s_axis_tuser : Z;  s_axis_tvalid : bool;
  m_axis_tready : bool;
  cfg_expected_seq : Z;
  cfg_seq_check_en : bool }.

(** The registers of the module.  [buf_rd_ptr] is declared in the source
    and never used. *)
Record regs := {
  tdata_reg : Z;  tkeep_reg : Z;  tlast_reg : bool;
  tuser_reg : Z;  tvalid_reg : bool;
  state : split_state_e;
  msg_buffer : Z -> Z;
  buf_wr_ptr : Z;
  msg_bytes_collected : Z;
  cur_msg_type : Z;
  cur_msg_len : Z;
  cur_seq : Z;
  cur_ingress_ts : Z;
  expected_seq : Z;
  seq_gap_detected : bool;
  seq_dupe_detected : bool;
  byte_idx : Z;
  stale_latch : bool;
  stat_messages : Z;
  stat_seq_gaps : Z;
  stat_seq_dupes : Z }.

(** Reset values.  [msg_buffer] has no reset assignment; its power-up
    content is a parameter. *)
Definition reset (buf0 : Z -> Z) : regs :=
  {| tdata_reg := 0;  tkeep_reg := 0;  tlast_reg := false;
     tuser_reg := 0;  tvalid_reg := false;
     state := SPLIT_IDLE;
     msg_buffer := buf0;
     buf_wr_ptr := 0;  msg_bytes_collected := 0;
     cur_msg_type := 0;  cur_msg_len := 0;  cur_seq := 0;
     cur_ingress_ts := 0;
     expected_seq := 0;
     seq_gap_detected := false;  seq_dupe_detected := false;
     byte_idx := 0;
     stale_latch := false;
     stat_messages := 0;  stat_seq_gaps := 0;  stat_seq_dupes := 0 |}.

(** *** Combinational signals *)

(** [input_bytes[k] = tdata_reg[k*8 +: 8]].  Every read is guarded by
    [k < valid_byte_count], so [k] is below [KEEP_WIDTH]. *)
Definition input_bytes (r : regs) (k : Z) : Z :=
  bits (k * 8 + 7) (k * 8) (tdata_reg r).

(** The number of set bits among the [KEEP_WIDTH] bits of a keep word. *)
Definition count_keep (keep : Z) : Z :=
  fold_left (fun n k => if Z.testbit keep k then n + 1 else n)
            [0; 1; 2; 3; 4; 5; 6; 7] 0.

Definition valid_byte_count (r : regs) : Z := count_keep (tkeep_reg r).

Definition state_eqb (a b : split_state_e) : bool :=
  match a, b with
  | SPLIT_IDLE, SPLIT_IDLE | SPLIT_HEADER, SPLIT_HEADER
  | SPLIT_BODY, SPLIT_BODY | SPLIT_EMIT, SPLIT_EMIT
  | SPLIT_WAIT, SPLIT_WAIT => true
  | _, _ => false
  end.

(** [msg_ready = (state == SPLIT_EMIT)] and the outputs. *)
Definition msg_ready (r : regs) : bool := state_eqb (state r) SPLIT_EMIT.
Definition m_axis_tvalid (r : regs) : bool := msg_ready r.
Definition m_axis_tkeep (r : regs) : Z := msg_bytes_collected r.
Definition status_stale (r : regs) : bool := stale_latch r.

(** [(state != SPLIT_EMIT) && (buf_wr_ptr < MSG_BUF_DEPTH - KEEP_WIDTH)]. *)
Definition s_axis_tready (r : regs) : bool :=
  negb (state_eqb (state r) SPLIT_EMIT)
  && (buf_wr_ptr r <? MSG_BUF_DEPTH - KEEP_WIDTH).

(** [{msg_buffer[1], msg_buffer[2], msg_buffer[3], msg_buffer[4]}]. *)
Definition msg_seq (r : regs) : Z :=
  trunc 8 (msg_buffer r 1) * 2 ^ 24 + trunc 8 (msg_buffer r 2) * 2 ^ 16
  + trunc 8 (msg_buffer r 3) * 2 ^ 8 + trunc 8 (msg_buffer r 4).

(** A message is handed downstream in the cycle of the AXI handshake. *)
Definition forwarded (r : regs) (i : inputs) : bool :=
  m_axis_tvalid r && m_axis_tready i.

Definition buf_write (f : Z -> Z) (k v : Z) : Z -> Z :=
  fun a => if a =? k then v else f a.

(** *** The loop of SPLIT_BODY *)

(** The registers the loop body assigns, as pending next values. *)
Record body_regs := {
  b_msg_buffer : Z -> Z;
  b_buf_wr_ptr : Z;
  b_msg_bytes_collected : Z;
  b_byte_idx : Z }.

(** No assignment pending: the registers keep their values. *)
Definition held (r : regs) : body_regs :=
  {| b_msg_buffer := msg_buffer r;
     b_buf_wr_ptr := buf_wr_ptr r;
     b_msg_bytes_collected := msg_bytes_collected r;
     b_byte_idx := byte_idx r |}.

(** [byte_idx < valid_byte_count && msg_bytes_collected < cur_msg_len]. *)
Definition body_cond (r : regs) : bool :=
  (byte_idx r <? valid_byte_count r)
  && (msg_bytes_collected r <? cur_msg_len r).

(** One pass through the loop body: four non-blocking assignments, their
    right-hand sides read from the registers [r]. *)
Definition body_pass (r : regs) (p : body_regs) : body_regs :=
  {| b_msg_buffer :=
       buf_write (b_msg_buffer p) (buf_wr_ptr r) (input_bytes r (byte_idx r));
     b_buf_wr_ptr := trunc 7 (buf_wr_ptr r + 1);
     b_msg_bytes_collected := trunc 8 (msg_bytes_collected r + 1);
     b_byte_idx := trunc 4 (byte_idx r + 1) |}.

(** [while (cond) body], with at most [fuel] passes. *)
Fixpoint body_loop (fuel : nat) (r : regs) (p : body_regs) : option body_regs :=
  if body_cond r then
    match fuel with
    | O => None
    | S f => body_loop f r (body_pass r p)
    end
  else Some p.

(** The pending values when the case statement is left: the loop runs in
    SPLIT_BODY under [tvalid_reg]. *)
Definition pending (fuel : nat) (r : regs) : option body_regs :=
  match state r with
  | SPLIT_BODY => if tvalid_reg r then body_loop fuel r (held r)
                  else Some (held r)
  | _ => Some (held r)
  end.

(** *** One clock cycle *)

(** Guards of the state machine's branches. *)
Definition idle_take (r : regs) : bool :=
  tvalid_reg r && Z.testbit (tuser_reg r) 0.
Definition header_take (r : regs) : bool :=
  tvalid_reg r && (byte_idx r <? valid_byte_count r).
Definition body_done (r : regs) : bool :=
  cur_msg_len r <=? msg_bytes_collected r.
Definition body_dry (r : regs) : bool :=
  valid_byte_count r <=? byte_idx r.
Definition emit_fire (r : regs) (i : inputs) : bool :=
  m_axis_tready i || negb (m_axis_tvalid r).
Definition emit_more (r : regs) : bool :=
  (byte_idx r <? valid_byte_count r) && negb (tlast_reg r).

(** The registers after the edge, given the pending values [p] the case
    statement leaves for the registers of the loop. *)
Definition next (r : regs) (i : inputs) (p : body_regs) : regs :=
  let hdr := input_bytes r (byte_idx r) in
  let fire := state_eqb (state r) SPLIT_EMIT && emit_fire r i in
  let chk := fire && cfg_seq_check_en i in
  let gap := expected_seq r <? msg_seq r in
  let dupe := negb gap && (msg_seq r <? expected_seq r) in
  {| tdata_reg := if s_axis_tready r then s_axis_tdata i else tdata_reg r;
     tkeep_reg := if s_axis_tready r then s_axis_tkeep i else tkeep_reg r;
     tlast_reg := if s_axis_tready r then s_axis_tlast i else tlast_reg r;
     tuser_reg := if s_axis_tready r then s_axis_tuser i else tuser_reg r;
     tvalid_reg := if s_axis_tready r then s_axis_tvalid i else tvalid_reg r;
     state :=
       match state r with
       | SPLIT_IDLE => if idle_take r then SPLIT_HEADER else SPLIT_IDLE
       | SPLIT_HEADER =>
           if header_take r
           then (if get_msg_length hdr =? 0 then SPLIT_IDLE else SPLIT_BODY)
           else if tlast_reg r then SPLIT_IDLE else SPLIT_HEADER
       | SPLIT_BODY =>
           if tvalid_reg r
           then (if body_done r then SPLIT_EMIT
                 else if body_dry r && tlast_reg r then SPLIT_IDLE
                 else SPLIT_BODY)
           else SPLIT_BODY
       | SPLIT_EMIT =>
           if emit_fire r i
           then (if emit_more r then SPLIT_HEADER else SPLIT_WAIT)
           else SPLIT_EMIT
       | SPLIT_WAIT =>
           if tlast_reg r then SPLIT_IDLE
           else if tvalid_reg r then SPLIT_HEADER else SPLIT_WAIT
       end;
     msg_buffer :=
       match state r with
       | SPLIT_HEADER =>
           if header_take r
           then buf_write (msg_buffer r) (buf_wr_ptr r) hdr
           else msg_buffer r
       | SPLIT_BODY => b_msg_buffer p
       | _ => msg_buffer r
       end;
     buf_wr_ptr :=
       match state r with
       | SPLIT_IDLE => 0
       | SPLIT_HEADER =>
           if header_take r then trunc 7 (buf_wr_ptr r + 1) else buf_wr_ptr r
       | SPLIT_BODY => b_buf_wr_ptr p
       | SPLIT_EMIT =>
           if emit_fire r i && emit_more r then 0 else buf_wr_ptr r
       | SPLIT_WAIT => 0
       end;
     msg_bytes_collected :=
       match state r with
       | SPLIT_IDLE => 0
       | SPLIT_HEADER =>
           if header_take r then 1 else msg_bytes_collected r
       | SPLIT_BODY => b_msg_bytes_collected p
       | SPLIT_EMIT =>
           if emit_fire r i && emit_more r then 0 else msg_bytes_collected r
       | SPLIT_WAIT => 0
       end;
     cur_msg_type :=
       match state r with
       | SPLIT_HEADER => if header_take r then hdr else cur_msg_type r
       | _ => cur_msg_type r
       end;
     cur_msg_len :=
       match state r with
       | SPLIT_HEADER =>
           if header_take r then get_msg_length hdr else cur_msg_len r
       | _ => cur_msg_len r
       end;
     cur_seq := if fire then msg_seq r else cur_seq r;
     cur_ingress_ts :=
       match state r with
       | SPLIT_IDLE =>
           if idle_take r then bits 71 8 (tuser_reg r) else cur_ingress_ts r
       | _ => cur_ingress_ts r
       end;
     expected_seq :=
       if state_eqb (state r) SPLIT_IDLE && cfg_seq_check_en i
          && (expected_seq r =? 0)
       then cfg_expected_seq i
       else if chk then trunc 32 (msg_seq r + 1) else expected_seq r;
     seq_gap_detected := chk && gap;
     seq_dupe_detected := chk && dupe;
     byte_idx :=
       match state r with
       | SPLIT_IDLE => 0
       | SPLIT_HEADER =>
           if header_take r then trunc 4 (byte_idx r + 1) else byte_idx r
       | SPLIT_BODY =>
           if tvalid_reg r && negb (body_done r) && body_dry r then 0
           else b_byte_idx p
       | SPLIT_EMIT => byte_idx r
       | SPLIT_WAIT => 0
       end;
     stale_latch := if chk && gap then true else stale_latch r;
     stat_messages :=
       if forwarded r i then trunc 32 (stat_messages r + 1)
       else stat_messages r;
     stat_seq_gaps :=
       if seq_gap_detected r then trunc 32 (stat_seq_gaps r + 1)
       else stat_seq_gaps r;
     stat_seq_dupes :=
       if seq_dupe_detected r then trunc 32 (stat_seq_dupes r + 1)
       else stat_seq_dupes r |}.

(** One clock edge: no next state when the loop does not end. *)
Definition step (fuel : nat) (r : regs) (i : inputs) : option regs :=
  match pending fuel r with
  | Some p => Some (next r i p)
  | None => None
  end.

(** The module over a list of per-cycle inputs. *)
Fixpoint cycles (fuel : nat) (r : regs) (ins : list inputs) : option regs :=
  match ins with
  | [] => Some r
  | i :: ins' =>
      match step fuel r i with
      | Some r' => cycles fuel r' ins'
      | None => None
      end
  end.

(** The loop is entered on the coming edge. *)
Definition stops (r : regs) : bool :=
  state_eqb (state r) SPLIT_BODY && tvalid_reg r && body_cond r.

(** What holds of the registers in every cycle after reset: the machine is
    not in SPLIT_EMIT, in SPLIT_BODY one byte of a known message type is
    collected, and the sequence tracker and the counters are as reset left
    them. *)
Definition framing_inv (r : regs) : Prop :=
  state r <> SPLIT_EMIT /\
  (state r = SPLIT_BODY ->
   msg_bytes_collected r = 1 /\ 12 <= cur_msg_len r) /\
  stale_latch r = false /\
  seq_gap_detected r = false /\ seq_dupe_detected r = false /\
  cur_seq r = 0 /\
  stat_messages r = 0 /\ stat_seq_gaps r = 0 /\ stat_seq_dupes r = 0.

End ItchSplitter.

(** ** itch_decoder.sv: field extraction in DEC_PARSE *)
Module ItchDecoder.

(** [get_byte], [get_be32], [get_be64] on the registered message. *)
Definition get_byte (msg_data idx : Z) : Z := bits (idx * 8 + 7) (idx * 8) msg_data.

Definition get_be32 (msg_data idx : Z) : Z :=
  get_byte msg_data idx * 2 ^ 24 + get_byte msg_data (idx + 1) * 2 ^ 16
  + get_byte msg_data (idx + 2) * 2 ^ 8 + get_byte msg_data (idx + 3).

Definition get_be64 (msg_data idx : Z) : Z :=
  get_be32 msg_data idx * 2 ^ 32 + get_be32 msg_data (idx + 4).

Definition side_of (c : Z) : side_e := if c =? 0x42 then SIDE_BID else SIDE_ASK.

(** Next value of [decoded_reg] in DEC_PARSE.  Fields that a branch does
    not assign keep their previous value (for 'E', 'C', 'X', 'D', 'U':
    side and symbol index of the message decoded before). *)
Definition dec_parse (msg_data msg_type msg_seq msg_flags ingress_ts : Z)
    (d : itch_msg_t) : itch_msg_t :=
  let hdr :=
    {| m_ingress_ts := ingress_ts;  m_decode_ts := 0;  m_seq_num := msg_seq;
       m_msg_type := msg_type;
       m_symbol_key := m_symbol_key d;  m_symbol_idx := m_symbol_idx d;
       m_symbol_valid := m_symbol_valid d;
       m_side := m_side d;  m_price := m_price d;  m_qty := m_qty d;
       m_order_id := m_order_id d;
       m_is_book_update := m_is_book_update d;
       m_stale := Z.testbit msg_flags 7;
       m_error_flags := bits 3 0 msg_flags |} in
  let with_order (oid : Z) (sd : side_e) (q key px : Z) (book : bool) :=
    {| m_ingress_ts := m_ingress_ts hdr;  m_decode_ts := m_decode_ts hdr;
       m_seq_num := m_seq_num hdr;  m_msg_type := m_msg_type hdr;
       m_symbol_key := key;  m_symbol_idx := m_symbol_idx hdr;
       m_symbol_valid := m_symbol_valid hdr;
       m_side := sd;  m_price := px;  m_qty := q;  m_order_id := oid;
       m_is_book_update := book;
       m_stale := m_stale hdr;  m_error_flags := m_error_flags hdr |} in
  if (msg_type =? 0x41) || (msg_type =? 0x46) || (msg_type =? 0x50) then
    with_order (get_be64 msg_data 11) (side_of (get_byte msg_data 19))
      (get_be32 msg_data 20) (get_be64 msg_data 24) (get_be32 msg_data 32) true
  else if msg_type =? 0x45 then
    with_order (get_be64 msg_data 11) (m_side d) (get_be32 msg_data 19)
      (m_symbol_key d) (m_price d) true
  else if msg_type =? 0x43 then
    with_order (get_be64 msg_data 11) (m_side d) (get_be32 msg_data 19)
      (m_symbol_key d) (get_be32 msg_data 32) true
  else if msg_type =? 0x58 then
    with_order (get_be64 msg_data 11) (m_side d) (get_be32 msg_data 19)
      (m_symbol_key d) (m_price d) true
  else if msg_type =? 0x44 then
    with_order (get_be64 msg_data 11) (m_side d) 0
      (m_symbol_key d) (m_price d) true
  else if msg_type =? 0x55 then
    with_order (get_be64 msg_data 19) (m_side d) (get_be32 msg_data 27)
      (m_symbol_key d) (get_be32 msg_data 31) true
  else if msg_type =? 0x53 then
    with_order (m_order_id d) (m_side d) (m_qty d)
      (m_symbol_key d) (m_price d) false
  else if msg_type =? 0x52 then
    with_order (m_order_id d) (m_side d) (m_qty d)
      (get_be64 msg_data 11) (m_price d) false
  else
    {| m_ingress_ts := m_ingress_ts hdr;  m_decode_ts := m_decode_ts hdr;
       m_seq_num := m_seq_num hdr;  m_msg_type := m_msg_type hdr;
       m_symbol_key := m_symbol_key hdr;  m_symbol_idx := m_symbol_idx hdr;
       m_symbol_valid := m_symbol_valid hdr;
       m_side := m_side hdr;  m_price := m_price hdr;  m_qty := m_qty hdr;
       m_order_id := m_order_id hdr;
       m_is_book_update := false;
       m_stale := m_stale hdr;  m_error_flags := 0xF |}.

(** A message buffer from its bytes, byte 0 in bits 7..0. *)
Fixpoint pack_bytes (bs : list Z) : Z :=
  match bs with
  | [] => 0
  | b :: bs' => trunc 8 b + 2 ^ 8 * pack_bytes bs'
  end.

End ItchDecoder.

(** ** book_tob.sv: the update of BOOK_PROCESS and the event of BOOK_EMIT *)
Module BookTob.

(** Book entry stored in BRAM ([book_entry_t]). *)
Record book_entry_t := {
  bid_px : Z;  bid_qty : Z;  ask_px : Z;  ask_qty : Z;
  last_update_ts : Z;  last_trade_px : Z;  last_trade_qty : Z;
  valid : bool }.

Definition book_entry_zero : book_entry_t :=
  Build_book_entry_t 0 0 0 0 0 0 0 false.

Definition set_bid (e : book_entry_t) (px q : Z) : book_entry_t :=
  {| bid_px := px;  bid_qty := q;  ask_px := ask_px e;  ask_qty := ask_qty e;
     last_update_ts := last_update_ts e;
     last_trade_px := last_trade_px e;  last_trade_qty := last_trade_qty e;
     valid := valid e |}.

Definition set_ask (e : book_entry_t) (px q : Z) : book_entry_t :=
  {| bid_px := bid_px e;  bid_qty := bid_qty e;  ask_px := px;  ask_qty := q;
     last_update_ts := last_update_ts e;
     last_trade_px := last_trade_px e;  last_trade_qty := last_trade_qty e;
     valid := valid e |}.

Definition set_last_trade (e : book_entry_t) (px q : Z) : book_entry_t :=
  {| bid_px := bid_px e;  bid_qty := bid_qty e;
     ask_px := ask_px e;  ask_qty := ask_qty e;
     last_update_ts := last_update_ts e;
     last_trade_px := px;  last_trade_qty := q;
     valid := valid e |}.

(** Quantity reduction of the execute and cancel branches:
    [cur - q] when [cur > q], else zero. *)
Definition reduce_qty (cur q : Z) : Z := if q <? cur then trunc 32 (cur - q) else 0.

(** Next value of [updated_entry] in BOOK_PROCESS, from [current_entry]
    and the registered message. *)
Definition book_process (current_entry : book_entry_t) (msg_reg : itch_msg_t)
    : book_entry_t :=
  let base :=
    {| bid_px := bid_px current_entry;  bid_qty := bid_qty current_entry;
       ask_px := ask_px current_entry;  ask_qty := ask_qty current_entry;
       last_update_ts := m_decode_ts msg_reg;
       last_trade_px := last_trade_px current_entry;
       last_trade_qty := last_trade_qty current_entry;
       valid := true |} in
  let t := m_msg_type msg_reg in
  if (t =? ITCH_ADD_ORDER) || (t =? ITCH_ADD_ORDER_MPID) then
    match m_side msg_reg with
    | SIDE_BID =>
        if negb (valid current_entry)
           || (bid_px current_entry <? m_price msg_reg)
           || (bid_qty current_entry =? 0)
        then set_bid base (m_price msg_reg) (m_qty msg_reg) else base
    | SIDE_ASK =>
        if negb (valid current_entry)
           || (m_price msg_reg <? ask_px current_entry)
           || (ask_qty current_entry =? 0)
        then set_ask base (m_price msg_reg) (m_qty msg_reg) else base
    end
  else if (t =? ITCH_ORDER_EXECUTED) || (t =? ITCH_ORDER_EXECUTED_PX) then
    match m_side msg_reg with
    | SIDE_BID =>
        set_bid base (bid_px base)
          (reduce_qty (bid_qty current_entry) (m_qty msg_reg))
    | SIDE_ASK =>
        set_ask base (ask_px base)
          (reduce_qty (ask_qty current_entry) (m_qty msg_reg))
    end
  else if t =? ITCH_ORDER_CANCEL then
    match m_side msg_reg with
    | SIDE_BID =>
        set_bid base (bid_px base)
          (reduce_qty (bid_qty current_entry) (m_qty msg_reg))
    | SIDE_ASK =>
        set_ask base (ask_px base)
          (reduce_qty (ask_qty current_entry) (m_qty msg_reg))
    end
  else if t =? ITCH_ORDER_DELETE then
    match m_side msg_reg with
    | SIDE_BID => set_bid base (bid_px base) 0
    | SIDE_ASK => set_ask base (ask_px base) 0
    end
  else if t =? ITCH_ORDER_REPLACE then
    match m_side msg_reg with
    | SIDE_BID => set_bid base (m_price msg_reg) (m_qty msg_reg)
    | SIDE_ASK => set_ask base (m_price msg_reg) (m_qty msg_reg)
    end
  else if t =? ITCH_TRADE then
    set_last_trade base (m_price msg_reg) (m_qty msg_reg)
  else base.

(** The event built in BOOK_EMIT from the registered message and
    [updated_entry]. *)
Definition book_emit (msg_reg : itch_msg_t) (updated_entry : book_entry_t)
    : book_event_t :=
  {| ev_ingress_ts := m_ingress_ts msg_reg;
     ev_book_ts := m_decode_ts msg_reg;
     ev_symbol_idx := m_symbol_idx msg_reg;
     ev_tob :=
       {| tob_bid_px := bid_px updated_entry;
          tob_bid_qty := bid_qty updated_entry;
          tob_ask_px := ask_px updated_entry;
          tob_ask_qty := ask_qty updated_entry;
          tob_last_update_ts := last_update_ts updated_entry;
          tob_valid := valid updated_entry |};
     ev_last_trade_px := last_trade_px updated_entry;
     ev_last_trade_qty := last_trade_qty updated_entry;
     ev_tob_changed := true;
     ev_trade_occurred := m_msg_type msg_reg =? ITCH_TRADE;
     ev_stale := m_stale msg_reg;
     ev_trigger_msg_type := m_msg_type msg_reg |}.

End BookTob.

(** ** DMA record layout shared by the two DMA blocks *)
Module DmaRecord.

Definition b2z (b : bool) : Z := if b then 1 else 0.

(** [{2'b0, reason == KILL, reason == POSITION, reason == TOKEN,
     reason == PRICE_BAND, stale, accept}]. *)
Definition flags_of (o : risk_output_t) : Z :=
  b2z (ro_accept o)
  + 2 * b2z (ev_stale (ro_book_event o))
  + 4 * b2z (risk_reason_eqb (ro_reason o) RISK_PRICE_BAND)
  + 8 * b2z (risk_reason_eqb (ro_reason o) RISK_TOKEN_BUCKET)
  + 16 * b2z (risk_reason_eqb (ro_reason o) RISK_POSITION_LIMIT)
  + 32 * b2z (risk_reason_eqb (ro_reason o) RISK_KILL_SWITCH).

(** The 512-bit vector of a record: [seq] in bytes 0..3, ...,
    [payload_crc16] in bytes 52..53, [reserved_hi] in bytes 56..63. *)
Definition pack (r : dma_record_t) : Z :=
  trunc 32 (seq r)
  + 2 ^ 32 * trunc 32 (reserved_lo r)
  + 2 ^ 64 * trunc 64 (ts_ing r)
  + 2 ^ 128 * trunc 64 (ts_dec r)
  + 2 ^ 192 * trunc 16 (sym_idx r)
  + 2 ^ 208 * trunc 8 (side r)
  + 2 ^ 216 * trunc 8 (flags r)
  + 2 ^ 224 * trunc 32 (qty r)
  + 2 ^ 256 * trunc 32 (price r)
  + 2 ^ 288 * trunc 32 (ref_px r)
  + 2 ^ 320 * trunc 32 (feature0 r)
  + 2 ^ 352 * trunc 32 (feature1 r)
  + 2 ^ 384 * trunc 32 (feature2 r)
  + 2 ^ 416 * trunc 16 (payload_crc16 r)
  + 2 ^ 432 * trunc 16 (pad r)
  + 2 ^ 448 * trunc 64 (reserved_hi r).

(** Bytes [0 .. n-1] of a packed record, as the host reads them. *)
Definition record_bytes (packed : Z) (n : nat) : list Z :=
  map (fun k => bits (8 * Z.of_nat k + 7) (8 * Z.of_nat k) packed) (List.seq 0 n).

(** The payload CRC field (bytes 52..53) of a packed record. *)
Definition packed_crc (packed : Z) : Z := bits 431 416 packed.

(** The sequence field (bytes 0..3) of a packed record. *)
Definition packed_seq (packed : Z) : Z := bits 31 0 packed.

End DmaRecord.
Import DmaRecord.

(** ** dma_pcie_ep.sv, module dma_pcie_ep *)
Module DmaPcieEp.

Definition IDX_WIDTH : Z := 16.
Definition WATERMARK : Z := 64.

Inductive dma_state_e := DMA_IDLE | DMA_BUILD | DMA_WRITE | DMA_WAIT.

Record inputs := {
  record_in : risk_output_t;  record_valid : bool;
  ring_length : Z;  cons_idx_shadow : Z;
  avm_waitrequest : bool }.

Record regs := {
  state : dma_state_e;
  prod_idx_reg : Z;
  record_build : dma_record_t;
  ring_overflow : bool;
  cons_idx_sync1 : Z;  cons_idx_sync2 : Z;  cons_idx_sync : Z;
  stat_dma_writes : Z;
  stat_ring_overflows : Z }.

Definition reset : regs :=
  {| state := DMA_IDLE;  prod_idx_reg := 0;  record_build := dma_record_zero;
     ring_overflow := false;
     cons_idx_sync1 := 0;  cons_idx_sync2 := 0;  cons_idx_sync := 0;
     stat_dma_writes := 0;  stat_ring_overflows := 0 |}.

(** Free slots, with one slot held back. *)
Definition free_slots (r : regs) (i : inputs) : Z :=
  let fs :=
    if prod_idx_reg r <=? cons_idx_sync r
    then trunc 17 (cons_idx_sync r - prod_idx_reg r)
    else trunc 17 (trunc IDX_WIDTH (ring_length i)
                   - trunc 17 (prod_idx_reg r - cons_idx_sync r)) in
  if 0 <? fs then trunc 17 (fs - 1) else fs.

Definition ring_full (r : regs) (i : inputs) : bool := free_slots r i <? WATERMARK.

Definition is_idle (r : regs) : bool :=
  match state r with DMA_IDLE => true | _ => false end.
Definition is_write (r : regs) : bool :=
  match state r with DMA_WRITE => true | _ => false end.

Definition record_ready (r : regs) (i : inputs) : bool :=
  is_idle r && negb (ring_full r i).

(** [calc_crc16]: the loop over the 448 data bits. *)
Fixpoint crc_loop (n : nat) (i data crc : Z) : Z :=
  match n with
  | O => crc
  | S n' =>
      crc_loop n' (i + 1) data
        (Z.lxor (trunc 16 (Z.shiftl crc 1))
                (if Z.testbit data i then 0x1021 else 0))
  end.

Definition calc_crc16 (data : Z) : Z := crc_loop 448 0 data 0xFFFF.

Definition record_packed (r : regs) : Z := pack (record_build r).

(** The record fields assigned in DMA_IDLE; [payload_crc16] is not
    assigned there and keeps its value. *)
Definition build_record (o : risk_output_t) (old : dma_record_t) : dma_record_t :=
  let e := ro_book_event o in
  {| reserved_hi := 0;  pad := 0;
     payload_crc16 := payload_crc16 old;
     feature2 := ev_last_trade_px e;
     feature1 := trunc 32 (tob_bid_qty (ev_tob e) - tob_ask_qty (ev_tob e));
     feature0 := trunc 32 (tob_ask_px (ev_tob e) - tob_bid_px (ev_tob e));
     ref_px := tob_ask_px (ev_tob e);
     price := tob_bid_px (ev_tob e);
     qty := tob_bid_qty (ev_tob e);
     flags := flags_of o;
     side :=
       if ev_trigger_msg_type e =? ITCH_ADD_ORDER
       then (if 0 <? tob_bid_qty (ev_tob e) then 0 else 1) else 0;
     sym_idx := trunc 16 (ev_symbol_idx e);
     ts_dec := ro_decision_ts o;
     ts_ing := ev_ingress_ts e;
     reserved_lo := 0;
     seq := bits 31 0 (ev_ingress_ts e) |}.

Definition with_crc (r : dma_record_t) (c : Z) : dma_record_t :=
  {| reserved_hi := reserved_hi r;  pad := pad r;  payload_crc16 := c;
     feature2 := feature2 r;  feature1 := feature1 r;  feature0 := feature0 r;
     ref_px := ref_px r;  price := price r;  qty := qty r;
     flags := flags r;  side := side r;  sym_idx := sym_idx r;
     ts_dec := ts_dec r;  ts_ing := ts_ing r;
     reserved_lo := reserved_lo r;  seq := seq r |}.

Definition step (r : regs) (i : inputs) : regs :=
  let take := record_valid i && record_ready r i in
  let wr := is_write r && negb (avm_waitrequest i) in
  {| state :=
       match state r with
       | DMA_IDLE => if take then DMA_BUILD else DMA_IDLE
       | DMA_BUILD => DMA_WRITE
       | DMA_WRITE => if avm_waitrequest i then DMA_WRITE else DMA_WAIT
       | DMA_WAIT => DMA_IDLE
       end;
     prod_idx_reg :=
       if wr
       then if trunc 32 (trunc IDX_WIDTH (ring_length i) - 1) <=? prod_idx_reg r
            then 0 else trunc IDX_WIDTH (prod_idx_reg r + 1)
       else prod_idx_reg r;
     record_build :=
       match state r with
       | DMA_IDLE =>
           if take then build_record (record_in i) (record_build r)
           else record_build r
       | DMA_BUILD =>
           with_crc (record_build r)
             (calc_crc16 (bits 511 64 (record_packed r)))
       | _ => record_build r
       end;
     ring_overflow :=
       if record_valid i && negb (record_ready r i) then true
       else ring_overflow r;
     cons_idx_sync1 := trunc IDX_WIDTH (cons_idx_shadow i);
     cons_idx_sync2 := cons_idx_sync1 r;
     cons_idx_sync := cons_idx_sync2 r;
     stat_dma_writes :=
       if wr then trunc 32 (stat_dma_writes r + 1) else stat_dma_writes r;
     stat_ring_overflows :=
       if record_valid i && negb (record_ready r i)
       then trunc 32 (stat_ring_overflows r + 1) else stat_ring_overflows r |}.

(** The write presented to the PCIe bridge. *)
Definition avm_write (r : regs) : bool := is_write r.
Definition avm_writedata (r : regs) : Z := record_packed r.

End DmaPcieEp.

(** ** dma_pcie_ep.sv, module pcie_dma (the block the top level instantiates) *)
Module PcieDma.

Definition IDX_WIDTH : Z := 16.
Definition RECORD_BYTES : Z := 64.

Inductive dma_state_e :=
| DMA_IDLE | DMA_BUILD | DMA_WRITE_0 | DMA_WRITE_1 | DMA_WAIT | DMA_UPDATE_IDX.

Record inputs := {
  record_in : risk_output_t;  record_valid : bool;
  pcie_waitrequest : bool;
  cfg_ring_base : Z;  cfg_ring_size : Z;  cfg_enable : bool;
  status_cons_idx : Z }.

Record regs := {
  state : dma_state_e;
  prod_idx : Z;
  cons_idx_sync : Z;
  input_fifo : Z -> risk_output_t;
  fifo_wr_ptr : Z;  fifo_rd_ptr : Z;
  fifo_pop : bool;
  pcie_write : bool;  pcie_address : Z;  pcie_writedata : Z;
  stat_records_dma : Z;
  stat_drops : Z }.

(** Reset values; the FIFO memory has no reset and starts as [mem0]. *)
Definition reset (mem0 : Z -> risk_output_t) : regs :=
  {| state := DMA_IDLE;  prod_idx := 0;  cons_idx_sync := 0;
     input_fifo := mem0;  fifo_wr_ptr := 0;  fifo_rd_ptr := 0;
     fifo_pop := false;
     pcie_write := false;  pcie_address := 0;  pcie_writedata := 0;
     stat_records_dma := 0;  stat_drops := 0 |}.

Definition fifo_data_out (r : regs) : risk_output_t := input_fifo r (fifo_rd_ptr r).
Definition fifo_empty (r : regs) : bool := fifo_wr_ptr r =? fifo_rd_ptr r.
Definition fifo_full (r : regs) : bool :=
  trunc 32 (fifo_wr_ptr r + 1) =? fifo_rd_ptr r.
Definition fifo_push (r : regs) (i : inputs) : bool :=
  record_valid i && negb (fifo_full r) && cfg_enable i.
Definition record_ready (r : regs) (i : inputs) : bool :=
  negb (fifo_full r) && cfg_enable i.

(** [next_prod_idx = (prod_idx + 1) & (cfg_ring_size - 1)]. *)
Definition next_prod_idx (r : regs) (i : inputs) : Z :=
  trunc IDX_WIDTH
    (Z.land (trunc 32 (prod_idx r + 1))
            (trunc 32 (trunc IDX_WIDTH (cfg_ring_size i) - 1))).

Definition ring_full (r : regs) (i : inputs) : bool :=
  next_prod_idx r i =? cons_idx_sync r.
Definition ring_empty (r : regs) : bool := prod_idx r =? cons_idx_sync r.
Definition ring_level (r : regs) : Z := trunc 17 (prod_idx r - cons_idx_sync r).

Definition dma_addr (r : regs) (i : inputs) : Z :=
  trunc 64 (cfg_ring_base i + prod_idx r * RECORD_BYTES).

(** [record_buf]: built combinationally from the FIFO head; fields not
    assigned stay at ['0] ([payload_crc16] among them). *)
Definition record_buf_of (o : risk_output_t) : dma_record_t :=
  let e := ro_book_event o in
  {| reserved_hi := 0;  pad := 0;  payload_crc16 := 0;
     feature2 := ev_last_trade_px e;
     feature1 := trunc 32 (tob_bid_qty (ev_tob e) - tob_ask_qty (ev_tob e));
     feature0 := trunc 32 (tob_ask_px (ev_tob e) - tob_bid_px (ev_tob e));
     ref_px := tob_ask_px (ev_tob e);
     price := tob_bid_px (ev_tob e);
     qty := tob_bid_qty (ev_tob e);
     flags := flags_of o;
     side := b2z (tob_valid (ev_tob e));
     sym_idx := trunc 16 (ev_symbol_idx e);
     ts_dec := ro_decision_ts o;
     ts_ing := ev_ingress_ts e;
     reserved_lo := 0;
     seq := trunc 32 (ev_symbol_idx e) |}.

Definition record_buf (r : regs) : dma_record_t := record_buf_of (fifo_data_out r).
Definition record_packed (r : regs) : Z := pack (record_buf r).

Definition is_idle (r : regs) : bool :=
  match state r with DMA_IDLE => true | _ => false end.
Definition is_update (r : regs) : bool :=
  match state r with DMA_UPDATE_IDX => true | _ => false end.

(** Guard of the IDLE -> BUILD transition: a record enters the ring. *)
Definition ring_accept (r : regs) (i : inputs) : bool :=
  is_idle r && negb (fifo_empty r) && negb (ring_full r i) && cfg_enable i.

Definition step (r : regs) (i : inputs) : regs :=
  let push := fifo_push r i && negb (fifo_full r) in
  let pop := fifo_pop r && negb (fifo_empty r) in
  {| state :=
       match state r with
       | DMA_IDLE => if ring_accept r i then DMA_BUILD else DMA_IDLE
       | DMA_BUILD => DMA_WRITE_0
       | DMA_WRITE_0 => if pcie_waitrequest i then DMA_WRITE_0 else DMA_WRITE_1
       | DMA_WRITE_1 => if pcie_waitrequest i then DMA_WRITE_1 else DMA_UPDATE_IDX
       | DMA_UPDATE_IDX => DMA_IDLE
       | DMA_WAIT => DMA_IDLE
       end;
     prod_idx := if is_update r then next_prod_idx r i else prod_idx r;
     cons_idx_sync := trunc IDX_WIDTH (status_cons_idx i);
     input_fifo :=
       if push
       then fun a => if a =? fifo_wr_ptr r then record_in i else input_fifo r a
       else input_fifo r;
     fifo_wr_ptr := if push then trunc 5 (fifo_wr_ptr r + 1) else fifo_wr_ptr r;
     fifo_rd_ptr := if pop then trunc 5 (fifo_rd_ptr r + 1) else fifo_rd_ptr r;
     fifo_pop :=
       match state r with
       | DMA_WRITE_1 => negb (pcie_waitrequest i)
       | _ => false
       end;
     pcie_write :=
       match state r with
       | DMA_WRITE_0 | DMA_WRITE_1 => true
       | _ => false
       end;
     pcie_address :=
       match state r with
       | DMA_WRITE_0 => dma_addr r i
       | DMA_WRITE_1 => trunc 64 (dma_addr r i + 32)
       | _ => pcie_address r
       end;
     pcie_writedata :=
       match state r with
       | DMA_WRITE_0 => bits 255 0 (record_packed r)
       | DMA_WRITE_1 => bits 511 256 (record_packed r)
       | _ => pcie_writedata r
       end;
     stat_records_dma :=
       if is_update r then trunc 32 (stat_records_dma r + 1)
       else stat_records_dma r;
     stat_drops :=
       if record_valid i && ring_full r i then trunc 32 (stat_drops r + 1)
       else stat_drops r |}.

(** *** Published and consumed counts

    The two indices are kept modulo the ring size.  [ring_run N r P C]
    relates a reachable register state to the number [P] of records
    published so far (passes through DMA_UPDATE_IDX) and to the number
    [C] of records the host had consumed when it last wrote the consumer
    index that [cons_idx_sync] now holds.  The ring size stays [N]; the
    host only moves its count forward, never past the records published,
    and the index it writes is that count modulo [N] in its low IDX_WIDTH
    bits.  All other inputs are free in every cycle. *)
Inductive ring_run (N : Z) (mem0 : Z -> risk_output_t) : regs -> Z -> Z -> Prop :=
| ring_run_reset : ring_run N mem0 (reset mem0) 0 0
| ring_run_step r P C i C' :
    ring_run N mem0 r P C ->
    cfg_ring_size i = trunc IDX_WIDTH N ->
    C <= C' <= P ->
    trunc IDX_WIDTH (status_cons_idx i) = C' mod N ->
    ring_run N mem0 (step r i) (if is_update r then P + 1 else P) C'.

(** A record is between the ring-full test of DMA_IDLE and the index
    update. *)
Definition in_flight (r : regs) : bool :=
  match state r with
  | DMA_BUILD | DMA_WRITE_0 | DMA_WRITE_1 | DMA_UPDATE_IDX => true
  | _ => false
  end.

(** The invariant that ties the wrapped indices to the two counts. *)
Definition ring_inv (N : Z) (r : regs) (P C : Z) : Prop :=
  prod_idx r = P mod N /\ cons_idx_sync r = C mod N /\
  0 <= C <= P /\ P - C <= N - 1 /\
  (in_flight r = true -> P - C <= N - 2).

End PcieDma.

(** ** The path of a message from the book to a DMA record *)
Module Pipeline.

(** The risk gate's output register for the event a message triggers:
    the book event is passed through unchanged. *)
Definition decision_for (msg : itch_msg_t) (entry : BookTob.book_entry_t)
    (acc : bool) (reason : risk_reason_e) (dts : Z) : risk_output_t :=
  {| ro_accept := acc;  ro_reason := reason;  ro_decision_ts := dts;
     ro_book_event := BookTob.book_emit msg (BookTob.book_process entry msg) |}.

(** The same message under another ITCH sequence number. *)
Definition with_seq_num (m : itch_msg_t) (n : Z) : itch_msg_t :=
  {| m_ingress_ts := m_ingress_ts m;  m_decode_ts := m_decode_ts m;
     m_seq_num := n;  m_msg_type := m_msg_type m;
     m_symbol_key := m_symbol_key m;  m_symbol_idx := m_symbol_idx m;
     m_symbol_valid := m_symbol_valid m;
     m_side := m_side m;  m_price := m_price m;  m_qty := m_qty m;
     m_order_id := m_order_id m;
     m_is_book_update := m_is_book_update m;
     m_stale := m_stale m;  m_error_flags := m_error_flags m |}.

End Pipeline.

(** ** Concrete inputs used by the examples below *)
Module Examples.

(** *** Risk gate *)

(** A cycle with no event offered; downstream always ready; token rate 1
    per interval, bucket maximum 1; price band disabled; staleness
    threshold 1 us (300 cycles). *)
Definition gate_in (ev : book_event_t) (valid : bool) (now : Z) : RiskGate.inputs :=
  {| RiskGate.event_in := ev;  RiskGate.event_valid := valid;
     RiskGate.decision_ready := true;  RiskGate.timestamp_cnt := now;
     RiskGate.cfg_enable := true;  RiskGate.cfg_price_band_bps := 0;
     RiskGate.cfg_token_rate := 1;  RiskGate.cfg_token_max := 1;
     RiskGate.cfg_position_limit := 1000000;  RiskGate.cfg_stale_usec := 1;
     RiskGate.cfg_seq_gap_thr := 100;  RiskGate.cfg_kill := false;
     RiskGate.ref_price_data := 0;  RiskGate.ref_price_valid := false |}.

Definition quiet : RiskGate.inputs := gate_in book_event_zero false 0.
Definition offer : RiskGate.inputs := gate_in book_event_zero true 0.
Definition late : RiskGate.inputs := gate_in book_event_zero false 1000000.


(** The gate one replenish interval after reset. *)
Definition warm_trace : list RiskGate.inputs := repeat quiet (Z.to_nat 300000).
Definition warm : RiskGate.regs :=
  Eval vm_compute in run RiskGate.step (RiskGate.reset false RISK_ACCEPT) warm_trace.

(** An event whose bid and ask are both 2^31, and the cycles that offer it
    with reference price 2^31 and a band of 1 bp. *)
Definition big_event : book_event_t :=
  {| ev_ingress_ts := 0;  ev_book_ts := 0;  ev_symbol_idx := 0;
     ev_tob := {| tob_bid_px := 2147483648;  tob_bid_qty := 1;
                  tob_ask_px := 2147483648;  tob_ask_qty := 1;
                  tob_last_update_ts := 0;  tob_valid := true |};
     ev_last_trade_px := 0;  ev_last_trade_qty := 0;
     ev_tob_changed := true;  ev_trade_occurred := false;
     ev_stale := false;  ev_trigger_msg_type := ITCH_ADD_ORDER |}.

Definition band_in (valid : bool) : RiskGate.inputs :=
  {| RiskGate.event_in := big_event;  RiskGate.event_valid := valid;
     RiskGate.decision_ready := true;  RiskGate.timestamp_cnt := 0;
     RiskGate.cfg_enable := true;  RiskGate.cfg_price_band_bps := 1;
     RiskGate.cfg_token_rate := 1;  RiskGate.cfg_token_max := 1;
     RiskGate.cfg_position_limit := 1000000;  RiskGate.cfg_stale_usec := 1;
     RiskGate.cfg_seq_gap_thr := 100;  RiskGate.cfg_kill := false;
     RiskGate.ref_price_data := 2147483648;  RiskGate.ref_price_valid := true |}.

(** *** Book and decoder *)

(** An Order-Executed-with-Price message: type 'C', executed shares 30
    (bytes 19..22), execution price 1 500 000 (bytes 32..35). *)
Definition exec_px_bytes : list Z :=
  [0x43; 0;0; 0;0; 0;0;0;0;0;0; 0;0;0;0;0;0;0;1; 0;0;0;30;
   0;0;0;0;0;0;0;9; 0x59; 0x00;0x16;0xE3;0x60].

Definition bid_side_msg : itch_msg_t :=
  {| m_ingress_ts := 0;  m_decode_ts := 0;  m_seq_num := 0;
     m_msg_type := ITCH_ADD_ORDER;
     m_symbol_key := 0;  m_symbol_idx := 3;  m_symbol_valid := true;
     m_side := SIDE_BID;  m_price := 1490000;  m_qty := 100;  m_order_id := 1;
     m_is_book_update := true;  m_stale := false;  m_error_flags := 0 |}.

Definition exec_px_msg : itch_msg_t :=
  Eval vm_compute in
    ItchDecoder.dec_parse (ItchDecoder.pack_bytes exec_px_bytes) 0x43 42 0 7
      bid_side_msg.

Definition some_entry : BookTob.book_entry_t :=
  {| BookTob.bid_px := 1490000;  BookTob.bid_qty := 100;
     BookTob.ask_px := 1510000;  BookTob.ask_qty := 50;
     BookTob.last_update_ts := 0;
     BookTob.last_trade_px := 1480000;  BookTob.last_trade_qty := 5;
     BookTob.valid := true |}.

(** *** DMA blocks *)

(** The decision for the message above: ITCH sequence number 42, ingress
    timestamp 7, symbol index 3. *)
Definition some_decision : risk_output_t :=
  Eval vm_compute in Pipeline.decision_for exec_px_msg some_entry true RISK_ACCEPT 9.

(** dma_pcie_ep with a 1024-entry ring, the host's consumer index at 100,
    a record offered every cycle. *)
Definition ep_in : DmaPcieEp.inputs :=
  {| DmaPcieEp.record_in := some_decision;  DmaPcieEp.record_valid := true;
     DmaPcieEp.ring_length := 1024;  DmaPcieEp.cons_idx_shadow := 100;
     DmaPcieEp.avm_waitrequest := false |}.

(** The endpoint in DMA_WRITE with its first record. *)
Definition ep_writing : DmaPcieEp.regs :=
  Eval vm_compute in run DmaPcieEp.step DmaPcieEp.reset (repeat ep_in 5).

(** pcie_dma with a ring of 4 entries. *)
Definition dma_in (valid : bool) (cons : Z) : PcieDma.inputs :=
  {| PcieDma.record_in := some_decision;  PcieDma.record_valid := valid;
     PcieDma.pcie_waitrequest := false;
     PcieDma.cfg_ring_base := 0;  PcieDma.cfg_ring_size := 4;
     PcieDma.cfg_enable := true;  PcieDma.status_cons_idx := cons |}.

Definition mem0 : Z -> risk_output_t := fun _ => risk_output_zero.

(** Records offered for 20 cycles while the host consumes nothing. *)
Definition fill_trace : list PcieDma.inputs := repeat (dma_in true 0) 20.
(** ... then the host consumes the three records published. *)
Definition drain_trace : list PcieDma.inputs :=
  fill_trace ++ repeat (dma_in false 3) 12.

End Examples.

(** ** symtab_cam.sv: the symbol table the decoder looks symbols up in *)
Module SymtabCam.

Definition NUM_ENTRIES : Z := 1024.
Definition HASH_SIZE : Z := 1024.
Definition MAX_PROBES : nat := 8.

(** One of the two CAM buffers: [cam_keys_n], [cam_values_n],
    [cam_valid_n]. *)
Record cam_table := {
  cam_keys : Z -> Z;
  cam_values : Z -> Z;
  cam_valid : Z -> bool }.

(** [hash_func]: XOR fold of the 64-bit key to 32 bits, two more folds, low
    10 bits. *)
Definition hash_func (key : Z) : Z :=
  let h0 := Z.lxor (bits 63 32 key) (bits 31 0 key) in
  let h1 := Z.lxor h0 (Z.shiftr h0 16) in
  let h2 := Z.lxor h1 (Z.shiftr h1 8) in
  bits 9 0 h2.

(** [(addr + 1) % HASH_SIZE]. *)
Definition next_addr (addr : Z) : Z := (addr + 1) mod HASH_SIZE.

Inductive lkp_state_e := LKP_IDLE | LKP_PROBE | LKP_DONE.

Record inputs := {
  lookup_key : Z;  lookup_valid : bool;
  load_key : Z;  load_idx : Z;  load_valid : bool;
  commit : bool }.

Record regs := {
  cam_0 : cam_table;
  cam_1 : cam_table;
  active_buffer : bool;
  lkp_state : lkp_state_e;
  lkp_key_reg : Z;
  lkp_hash_base : Z;
  lkp_probe_cnt : Z;
  lkp_probe_addr : Z;
  lkp_found : bool;
  lkp_result_idx : Z;
  load_count : Z;
  loading : bool }.

Definition table_clear (t : cam_table) : cam_table :=
  {| cam_keys := cam_keys t;  cam_values := cam_values t;
     cam_valid := fun _ => false |}.

(** Reset clears the valid bits of both buffers; keys and values have no
    reset and start as in [t0], [t1]. *)
Definition reset (t0 t1 : cam_table) : regs :=
  {| cam_0 := table_clear t0;  cam_1 := table_clear t1;
     active_buffer := false;
     lkp_state := LKP_IDLE;  lkp_key_reg := 0;  lkp_hash_base := 0;
     lkp_probe_cnt := 0;  lkp_probe_addr := 0;
     lkp_found := false;  lkp_result_idx := 0;
     load_count := 0;  loading := false |}.

(** The buffer lookups read, and the buffer loads write. *)
Definition active_table (r : regs) : cam_table :=
  if active_buffer r then cam_1 r else cam_0 r.
Definition shadow_table (r : regs) : cam_table :=
  if active_buffer r then cam_0 r else cam_1 r.

Definition lookup_idx (r : regs) : Z := lkp_result_idx r.
Definition lookup_hit (r : regs) : bool := lkp_found r.
Definition lookup_ready (r : regs) : bool :=
  match lkp_state r with LKP_DONE => true | _ => false end.
Definition load_ready (r : regs) (i : inputs) : bool :=
  negb (commit i) && (load_count r <? NUM_ENTRIES).
Definition num_entries_loaded (r : regs) : Z := load_count r.
Definition table_full (r : regs) : bool := NUM_ENTRIES <=? load_count r.

(** The load loop: the first slot without a valid bit among at most
    [probes] slots from [addr] on. *)
Fixpoint find_slot (valid : Z -> bool) (addr : Z) (probes : nat) : option Z :=
  match probes with
  | O => None
  | S p =>
      if negb (valid addr) then Some addr
      else find_slot valid (next_addr addr) p
  end.

Definition table_write (t : cam_table) (addr key idx : Z) : cam_table :=
  {| cam_keys := fun a => if a =? addr then key else cam_keys t a;
     cam_values := fun a => if a =? addr then idx else cam_values t a;
     cam_valid := fun a => if a =? addr then true else cam_valid t a |}.

(** A load into a buffer: written at the slot the loop finds, dropped when
    it finds none. *)
Definition table_insert (t : cam_table) (key idx : Z) : cam_table :=
  match find_slot (cam_valid t) (hash_func key) MAX_PROBES with
  | Some addr => table_write t addr key idx
  | None => t
  end.

Definition insert_found (t : cam_table) (key : Z) : bool :=
  match find_slot (cam_valid t) (hash_func key) MAX_PROBES with
  | Some _ => true
  | None => false
  end.

(** The slot under [lkp_probe_addr] holds the key looked up. *)
Definition probe_match (r : regs) : bool :=
  cam_valid (active_table r) (lkp_probe_addr r)
  && (cam_keys (active_table r) (lkp_probe_addr r) =? lkp_key_reg r).

(** The probe ends without a match: empty slot, or last probe. *)
Definition probe_stop (r : regs) : bool :=
  negb (cam_valid (active_table r) (lkp_probe_addr r))
  || (Z.of_nat MAX_PROBES - 1 <=? lkp_probe_cnt r).

Definition step (r : regs) (i : inputs) : regs :=
  let do_load := load_valid i && load_ready r i in
  let loaded := table_insert (shadow_table r) (load_key i) (load_idx i) in
  {| cam_0 :=
       if active_buffer r
       then (if do_load then loaded else cam_0 r)
       else (if commit i then table_clear (cam_0 r) else cam_0 r);
     cam_1 :=
       if active_buffer r
       then (if commit i then table_clear (cam_1 r) else cam_1 r)
       else (if do_load then loaded else cam_1 r);
     active_buffer :=
       if commit i then negb (active_buffer r) else active_buffer r;
     lkp_state :=
       match lkp_state r with
       | LKP_IDLE => if lookup_valid i then LKP_PROBE else LKP_IDLE
       | LKP_PROBE =>
           if probe_match r || probe_stop r then LKP_DONE else LKP_PROBE
       | LKP_DONE => LKP_IDLE
       end;
     lkp_key_reg :=
       match lkp_state r with
       | LKP_IDLE => if lookup_valid i then lookup_key i else lkp_key_reg r
       | _ => lkp_key_reg r
       end;
     lkp_hash_base :=
       match lkp_state r with
       | LKP_IDLE =>
           if lookup_valid i then hash_func (lookup_key i) else lkp_hash_base r
       | _ => lkp_hash_base r
       end;
     lkp_probe_cnt :=
       match lkp_state r with
       | LKP_IDLE => if lookup_valid i then 0 else lkp_probe_cnt r
       | LKP_PROBE =>
           if probe_match r || probe_stop r then lkp_probe_cnt r
           else trunc 3 (lkp_probe_cnt r + 1)
       | LKP_DONE => lkp_probe_cnt r
       end;
     lkp_probe_addr :=
       match lkp_state r with
       | LKP_IDLE =>
           if lookup_valid i then hash_func (lookup_key i) else lkp_probe_addr r
       | LKP_PROBE =>
           if probe_match r || probe_stop r then lkp_probe_addr r
           else next_addr (lkp_probe_addr r)
       | LKP_DONE => lkp_probe_addr r
       end;
     lkp_found :=
       match lkp_state r with
       | LKP_IDLE => false
       | LKP_PROBE =>
           if probe_match r then true
           else if probe_stop r then false else lkp_found r
       | LKP_DONE => lkp_found r
       end;
     lkp_result_idx :=
       match lkp_state r with
       | LKP_PROBE =>
           if probe_match r
           then cam_values (active_table r) (lkp_probe_addr r)
           else lkp_result_idx r
       | _ => lkp_result_idx r
       end;
     load_count :=
       if commit i then 0
       else if do_load && insert_found (shadow_table r) (load_key i)
            then trunc 11 (load_count r + 1)
            else load_count r;
     loading :=
       if commit i then false else if do_load then true else loading r |}.

(** The lookup machine's probing, slot by slot: the result it ends with
    ([Some] value on a match, [None] on a miss) and the number of
    LKP_PROBE cycles it spends, with [probes] probes left from [addr]. *)
Fixpoint probe (t : cam_table) (key addr : Z) (probes : nat) : option Z * nat :=
  match probes with
  | O => (None, O)
  | S p =>
      if cam_valid t addr && (cam_keys t addr =? key)
      then (Some (cam_values t addr), 1%nat)
      else if negb (cam_valid t addr) then (None, 1%nat)
      else match p with
           | O => (None, 1%nat)
           | S _ =>
               let (res, n) := probe t key (next_addr addr) p in (res, S n)
           end
  end.

(** An input cycle that only loads: no commit, no lookup request. *)
Definition load_cycle (key idx : Z) : inputs :=
  {| lookup_key := 0;  lookup_valid := false;
     load_key := key;  load_idx := idx;  load_valid := true;
     commit := false |}.

Definition commit_cycle : inputs :=
  {| lookup_key := 0;  lookup_valid := false;
     load_key := 0;  load_idx := 0;  load_valid := false;
     commit := true |}.

Definition lookup_cycle (key : Z) : inputs :=
  {| lookup_key := key;  lookup_valid := true;
     load_key := 0;  load_idx := 0;  load_valid := false;
     commit := false |}.

(** The [j]-th slot of the probe sequence that starts at [h]. *)
Definition addr_at (h : Z) (j : nat) : Z := Nat.iter j next_addr h.

(** The first [j] slots of the probe sequence from [h] are occupied. *)
Definition chain (valid : Z -> bool) (h : Z) (j : nat) : Prop :=
  forall j', (j' < j)%nat -> valid (addr_at h j') = true.

(** A buffer filled by loads of [pairs] only: every occupied slot holds one
    of the pairs and sits on its key's probe sequence, behind occupied
    slots. *)
Definition table_inv (pairs : list (Z * Z)) (t : cam_table) : Prop :=
  forall a, cam_valid t a = true ->
    In (cam_keys t a, cam_values t a) pairs /\
    exists j, (j < MAX_PROBES)%nat /\
      a = addr_at (hash_func (cam_keys t a)) j /\
      chain (cam_valid t) (hash_func (cam_keys t a)) j.

(** A key is held by some occupied slot. *)
Definition key_present (t : cam_table) (key : Z) : Prop :=
  exists a, cam_valid t a = true /\ cam_keys t a = key.

Definition no_commit (i : inputs) : Prop := commit i = false.

(** The input cycles that load [pairs], one (key, index) pair per cycle. *)
Definition load_all (pairs : list (Z * Z)) : list inputs :=
  map (fun p => load_cycle (fst p) (snd p)) pairs.

Definition table_empty (t : cam_table) : Prop :=
  forall a, cam_valid t a = false.

(** Example inputs: nine keys that all hash to slot 0, and idle cycles. *)
Definition blank : cam_table :=
  {| cam_keys := fun _ => 0;  cam_values := fun _ => 0;
     cam_valid := fun _ => false |}.
Definition idle_cycle : inputs :=
  {| lookup_key := 0;  lookup_valid := false;
     load_key := 0;  load_idx := 0;  load_valid := false;
     commit := false |}.
Definition clash_key (j : Z) : Z := j * 2 ^ 32 + j.
Definition clash_pairs : list (Z * Z) :=
  map (fun j => (clash_key j, 100 + j)) [1; 2; 3; 4; 5; 6; 7; 8].
Definition clash_loaded : regs :=
  run step (reset blank blank) (load_all clash_pairs).

Definition hit_of (res : option Z) : bool :=
  match res with Some _ => true | None => false end.

End SymtabCam.

(** ** t2t_pkg.sv: the package's message length table *)
Module T2tPkgLengths.

Definition ITCH_NOII : itch_msg_type_e := 0x49.

(** [itch_msg_length]: 0 for a type the table does not list. *)
Definition itch_msg_length (msg_type : itch_msg_type_e) : Z :=
  if msg_type =? ITCH_SYSTEM_EVENT then 12
  else if msg_type =? ITCH_STOCK_DIRECTORY then 39
  else if msg_type =? ITCH_ADD_ORDER then 36
  else if msg_type =? ITCH_ADD_ORDER_MPID then 40
  else if msg_type =? ITCH_ORDER_EXECUTED then 31
  else if msg_type =? ITCH_ORDER_EXECUTED_PX then 36
  else if msg_type =? ITCH_ORDER_CANCEL then 23
  else if msg_type =? ITCH_ORDER_DELETE then 19
  else if msg_type =? ITCH_ORDER_REPLACE then 35
  else if msg_type =? ITCH_TRADE then 44
  else if msg_type =? ITCH_CROSS_TRADE then 40
  else if msg_type =? ITCH_NOII then 50
  else 0.

End T2tPkgLengths.

(** ** itch_decoder.sv: the decoder's state machine around [dec_parse],
    and the [m_axis_tuser] word the splitter feeds it

    The scratch registers of DEC_PARSE ([stock_locate], [order_ref],
    [shares], ...) are written and never read; they are left out. *)
Module ItchDecoderFsm.
Import ItchDecoder.

Inductive dec_state_e := DEC_IDLE | DEC_PARSE | DEC_LOOKUP | DEC_EMIT.

Record inputs := {
  s_axis_tdata : Z;
  s_axis_tkeep : Z;
  s_axis_tuser : Z;
  s_axis_tvalid : bool;
  decoded_ready : bool;
  sym_lookup_idx : Z;
  sym_lookup_hit : bool;
  sym_lookup_ready : bool }.

Record regs := {
  state : dec_state_e;
  msg_data : Z;
  msg_len : Z;
  msg_seq : Z;
  msg_type : Z;
  msg_flags : Z;
  ingress_ts : Z;
  decoded_reg : itch_msg_t;
  decode_valid : bool;
  stat_add_orders : Z;
  stat_executes : Z;
  stat_cancels : Z;
  stat_deletes : Z;
  stat_replaces : Z;
  stat_trades : Z;
  stat_unknown : Z }.

Definition reset : regs :=
  {| state := DEC_IDLE;  msg_data := 0;  msg_len := 0;  msg_seq := 0;
     msg_type := 0;  msg_flags := 0;  ingress_ts := 0;
     decoded_reg := itch_msg_zero;  decode_valid := false;
     stat_add_orders := 0;  stat_executes := 0;  stat_cancels := 0;
     stat_deletes := 0;  stat_replaces := 0;  stat_trades := 0;
     stat_unknown := 0 |}.

Definition is_state (r : regs) (s : dec_state_e) : bool :=
  match state r, s with
  | DEC_IDLE, DEC_IDLE | DEC_PARSE, DEC_PARSE
  | DEC_LOOKUP, DEC_LOOKUP | DEC_EMIT, DEC_EMIT => true
  | _, _ => false
  end.

Definition decoded_msg (r : regs) : itch_msg_t := decoded_reg r.
Definition decoded_valid (r : regs) : bool :=
  decode_valid r && is_state r DEC_EMIT.
Definition s_axis_tready (r : regs) : bool := is_state r DEC_IDLE.
Definition sym_lookup_key (r : regs) : Z := m_symbol_key (decoded_reg r).
Definition sym_lookup_valid (r : regs) : bool := is_state r DEC_LOOKUP.

(** The message is handed to the book in this cycle. *)
Definition decoded_fire (r : regs) (i : inputs) : bool :=
  decoded_valid r && decoded_ready i.

(** The types DEC_PARSE sends to the symbol lookup. *)
Definition needs_lookup (ty : Z) : bool :=
  (ty =? 0x41) || (ty =? 0x46) || (ty =? 0x50) || (ty =? 0x52).

Definition with_symbol (d : itch_msg_t) (idx : Z) (hit : bool) : itch_msg_t :=
  {| m_ingress_ts := m_ingress_ts d;  m_decode_ts := m_decode_ts d;
     m_seq_num := m_seq_num d;  m_msg_type := m_msg_type d;
     m_symbol_key := m_symbol_key d;  m_symbol_idx := idx;
     m_symbol_valid := hit;
     m_side := m_side d;  m_price := m_price d;  m_qty := m_qty d;
     m_order_id := m_order_id d;
     m_is_book_update := m_is_book_update d;
     m_stale := m_stale d;  m_error_flags := m_error_flags d |}.

Definition bump (c : Z) : Z := trunc 32 (c + 1).

Definition step (r : regs) (i : inputs) : regs :=
  let capture :=
    is_state r DEC_IDLE && s_axis_tvalid i && s_axis_tready r in
  let ty := m_msg_type (decoded_reg r) in
  let fire := decoded_fire r i in
  let is_add := (ty =? ITCH_ADD_ORDER) || (ty =? ITCH_ADD_ORDER_MPID) in
  let is_exec := (ty =? ITCH_ORDER_EXECUTED) || (ty =? ITCH_ORDER_EXECUTED_PX) in
  let is_cancel := ty =? ITCH_ORDER_CANCEL in
  let is_delete := ty =? ITCH_ORDER_DELETE in
  let is_replace := ty =? ITCH_ORDER_REPLACE in
  let is_trade := ty =? ITCH_TRADE in
  {| state :=
       match state r with
       | DEC_IDLE => if capture then DEC_PARSE else DEC_IDLE
       | DEC_PARSE =>
           if needs_lookup (msg_type r) then DEC_LOOKUP else DEC_EMIT
       | DEC_LOOKUP => if sym_lookup_ready i then DEC_EMIT else DEC_LOOKUP
       | DEC_EMIT =>
           if (decoded_ready i || negb (decode_valid r)) && decoded_ready i
           then DEC_IDLE else DEC_EMIT
       end;
     msg_data := if capture then s_axis_tdata i else msg_data r;
     msg_len := if capture then s_axis_tkeep i else msg_len r;
     msg_seq := if capture then bits 95 64 (s_axis_tuser i) else msg_seq r;
     msg_type := if capture then bits 63 56 (s_axis_tuser i) else msg_type r;
     msg_flags := if capture then bits 55 48 (s_axis_tuser i) else msg_flags r;
     ingress_ts := if capture then bits 47 0 (s_axis_tuser i) else ingress_ts r;
     decoded_reg :=
       match state r with
       | DEC_PARSE =>
           dec_parse (msg_data r) (msg_type r) (msg_seq r) (msg_flags r)
             (ingress_ts r) (decoded_reg r)
       | DEC_LOOKUP =>
           if sym_lookup_ready i
           then with_symbol (decoded_reg r) (sym_lookup_idx i) (sym_lookup_hit i)
           else decoded_reg r
       | _ => decoded_reg r
       end;
     decode_valid :=
       match state r with
       | DEC_IDLE => false
       | DEC_EMIT =>
           if decoded_ready i || negb (decode_valid r) then true
           else decode_valid r
       | _ => decode_valid r
       end;
     stat_add_orders :=
       if fire && is_add then bump (stat_add_orders r) else stat_add_orders r;
     stat_executes :=
       if fire && negb is_add && is_exec
       then bump (stat_executes r) else stat_executes r;
     stat_cancels :=
       if fire && negb is_add && negb is_exec && is_cancel
       then bump (stat_cancels r) else stat_cancels r;
     stat_deletes :=
       if fire && negb is_add && negb is_exec && negb is_cancel && is_delete
       then bump (stat_deletes r) else stat_deletes r;
     stat_replaces :=
       if fire && negb is_add && negb is_exec && negb is_cancel
          && negb is_delete && is_replace
       then bump (stat_replaces r) else stat_replaces r;
     stat_trades :=
       if fire && negb is_add && negb is_exec && negb is_cancel
          && negb is_delete && negb is_replace && is_trade
       then bump (stat_trades r) else stat_trades r;
     stat_unknown :=
       if fire && negb is_add && negb is_exec && negb is_cancel
          && negb is_delete && negb is_replace && negb is_trade
       then bump (stat_unknown r) else stat_unknown r |}.

(** All seven message counters together. *)
Definition stat_total (r : regs) : Z :=
  stat_add_orders r + stat_executes r + stat_cancels r + stat_deletes r
  + stat_replaces r + stat_trades r + stat_unknown r.

(** [m_axis_tuser] of itch_splitter.sv: the 120-bit concatenation
    [{cur_seq, cur_msg_type, cur_msg_len, stale_latch, seq_gap_detected,
    seq_dupe_detected, 5'b0, cur_ingress_ts}] assigned to the 96-bit port,
    which keeps its low 96 bits. *)
Definition tuser_flags (stale gap dupe : bool) : Z :=
  Z.b2z stale * 2 ^ 7 + Z.b2z gap * 2 ^ 6 + Z.b2z dupe * 2 ^ 5.

Definition m_axis_tuser (cur_seq cur_msg_type cur_msg_len : Z)
    (stale gap dupe : bool) (cur_ingress_ts : Z) : Z :=
  trunc 96
    (cur_seq * 2 ^ 88 + cur_msg_type * 2 ^ 80 + cur_msg_len * 2 ^ 72
     + tuser_flags stale gap dupe * 2 ^ 64 + cur_ingress_ts).

(** The cycle in which the decoder takes a message from the splitter. *)
Definition from_splitter (tdata tkeep : Z)
    (cur_seq cur_msg_type cur_msg_len : Z) (stale gap dupe : bool)
    (cur_ingress_ts : Z) (ready : bool) : inputs :=
  {| s_axis_tdata := tdata;  s_axis_tkeep := tkeep;
     s_axis_tuser :=
       m_axis_tuser cur_seq cur_msg_type cur_msg_len stale gap dupe
         cur_ingress_ts;
     s_axis_tvalid := true;
     decoded_ready := ready;
     sym_lookup_idx := 0;  sym_lookup_hit := false;
     sym_lookup_ready := false |}.

(** The decoder is fed nothing and asked nothing more than [ready]. *)
Definition quiet (ready : bool) : inputs :=
  {| s_axis_tdata := 0;  s_axis_tkeep := 0;  s_axis_tuser := 0;
     s_axis_tvalid := false;
     decoded_ready := ready;
     sym_lookup_idx := 0;  sym_lookup_hit := false;
     sym_lookup_ready := false |}.

(** Example inputs: an Add Order for symbol "AAPL    ", taken with a tuser
    word laid out as the decoder reads it, and a lookup answer. *)
Definition add_order_bytes : list Z :=
  [0x41; 0; 1; 0; 2; 0; 0; 0; 0; 0; 9;
   0; 0; 0; 0; 0; 0; 0; 77;
   0x42;
   0; 0; 1; 0x2C;
   0x41; 0x41; 0x50; 0x4C; 0x20; 0x20; 0x20; 0x20;
   0; 0x0F; 0x42; 0x40].

Definition feed (tdata tuser : Z) : inputs :=
  {| s_axis_tdata := tdata;  s_axis_tkeep := 0;  s_axis_tuser := tuser;
     s_axis_tvalid := true;
     decoded_ready := false;
     sym_lookup_idx := 0;  sym_lookup_hit := false;
     sym_lookup_ready := false |}.

Definition lookup_answer (idx : Z) (hit : bool) : inputs :=
  {| s_axis_tdata := 0;  s_axis_tkeep := 0;  s_axis_tuser := 0;
     s_axis_tvalid := false;
     decoded_ready := false;
     sym_lookup_idx := idx;  sym_lookup_hit := hit;
     sym_lookup_ready := true |}.

(** The same message in a buffer that still holds bytes of an earlier,
    longer message behind it. *)
Definition add_order_dirty : Z :=
  pack_bytes (add_order_bytes ++ [0xDE; 0xAD; 0xBE; 0xEF]).

Definition add_order_in : inputs :=
  feed (pack_bytes add_order_bytes) (5 * 2 ^ 64 + 0x41 * 2 ^ 56 + 1000).

End ItchDecoderFsm.

(** ** book_tob.sv: the book builder's state machine, its banked BRAM and
    its conflict FIFO, around [book_process] and [book_emit]

    The BRAM words are kept as [book_entry_t] values (the RTL stores their
    packed bits and casts them back).  Registers the reset branch does not
    assign ([bram_addr], [bram_wr_data], [bram_rd_data], the FIFO memory,
    [conflict_fifo_push], [conflict_fifo_pop]) keep in [reset] the value
    they have in its argument; the BRAM starts all-zero, as its [initial]
    block sets it. *)
Module BookTobFsm.
Import BookTob.

Inductive book_state_e :=
| BOOK_IDLE | BOOK_READ | BOOK_PROCESS | BOOK_WRITE | BOOK_EMIT.

Record inputs := {
  msg_in : itch_msg_t;
  msg_valid : bool;
  event_ready : bool;
  cfg_enable : bool }.

Record regs := {
  state : book_state_e;
  msg_reg : itch_msg_t;
  msg_pending : bool;
  last_bank : Z;
  current_entry : book_entry_t;
  updated_entry : book_entry_t;
  event_reg : book_event_t;
  event_pending : bool;
  bram_en : Z -> bool;
  bram_we : Z -> bool;
  bram_addr : Z -> Z;
  bram_wr_data : Z -> book_entry_t;
  bram_rd_data : Z -> book_entry_t;
  bram_mem : Z -> Z -> book_entry_t;
  conflict_fifo_push : bool;
  conflict_fifo_pop : bool;
  fifo_wr_ptr : Z;
  fifo_rd_ptr : Z;
  fifo_mem : Z -> itch_msg_t;
  stat_updates : Z;
  stat_bank_conflicts : Z;
  stat_invalid_symbols : Z }.

Definition reset (u : regs) : regs :=
  {| state := BOOK_IDLE;  msg_reg := itch_msg_zero;  msg_pending := false;
     last_bank := 0;
     current_entry := book_entry_zero;  updated_entry := book_entry_zero;
     event_reg := book_event_zero;  event_pending := false;
     bram_en := fun _ => false;  bram_we := fun _ => false;
     bram_addr := bram_addr u;
     bram_wr_data := bram_wr_data u;
     bram_rd_data := bram_rd_data u;
     bram_mem := fun _ _ => book_entry_zero;
     conflict_fifo_push := conflict_fifo_push u;
     conflict_fifo_pop := conflict_fifo_pop u;
     fifo_wr_ptr := 0;  fifo_rd_ptr := 0;
     fifo_mem := fifo_mem u;
     stat_updates := 0;  stat_bank_conflicts := 0;
     stat_invalid_symbols := 0 |}.

Definition upd {A : Type} (f : Z -> A) (k : Z) (v : A) : Z -> A :=
  fun x => if x =? k then v else f x.

Definition state_eqb (a b : book_state_e) : bool :=
  match a, b with
  | BOOK_IDLE, BOOK_IDLE | BOOK_READ, BOOK_READ
  | BOOK_PROCESS, BOOK_PROCESS | BOOK_WRITE, BOOK_WRITE
  | BOOK_EMIT, BOOK_EMIT => true
  | _, _ => false
  end.

(** Bank = symbol_idx[1:0], address = symbol_idx[9:2]. *)
Definition bank_of (m : itch_msg_t) : Z := bits 1 0 (m_symbol_idx m).
Definition addr_of (m : itch_msg_t) : Z := bits 9 2 (m_symbol_idx m).
Definition current_bank (r : regs) : Z := bank_of (msg_reg r).
Definition current_addr (r : regs) : Z := addr_of (msg_reg r).

Definition bank_conflict (r : regs) : bool :=
  (state_eqb (state r) BOOK_READ || state_eqb (state r) BOOK_PROCESS
   || state_eqb (state r) BOOK_WRITE)
  && (current_bank r =? last_bank r).

(** The test of the BOOK_READ branch that pushes to the conflict FIFO. *)
Definition read_conflict (r : regs) : bool :=
  bank_conflict r && negb (state_eqb (state r) BOOK_READ).

Definition conflict_fifo_data (r : regs) : itch_msg_t :=
  fifo_mem r (fifo_rd_ptr r).
Definition conflict_fifo_empty (r : regs) : bool :=
  fifo_wr_ptr r =? fifo_rd_ptr r.
(** [fifo_wr_ptr + 1 == fifo_rd_ptr]: the sum is not cut to 4 bits. *)
Definition conflict_fifo_full (r : regs) : bool :=
  fifo_wr_ptr r + 1 =? fifo_rd_ptr r.
Definition conflict_fifo_level (r : regs) : Z :=
  trunc 4 (fifo_wr_ptr r - fifo_rd_ptr r).

Definition event_out (r : regs) : book_event_t := event_reg r.
Definition event_valid (r : regs) : bool :=
  event_pending r
  && (state_eqb (state r) BOOK_EMIT || state_eqb (state r) BOOK_IDLE).
Definition msg_ready (r : regs) (i : inputs) : bool :=
  state_eqb (state r) BOOK_IDLE && negb (msg_pending r)
  && negb (conflict_fifo_full r) && cfg_enable i.

(** BOOK_IDLE takes the message on [msg_in]. *)
Definition idle_accept (r : regs) (i : inputs) : bool :=
  cfg_enable i && msg_valid i && negb (msg_pending r).
(** BOOK_IDLE takes a message back from the conflict FIFO. *)
Definition idle_refill (r : regs) (i : inputs) : bool :=
  negb (idle_accept r i) && negb (conflict_fifo_empty r).

Definition step (r : regs) (i : inputs) : regs :=
  let do_push := conflict_fifo_push r && negb (conflict_fifo_full r) in
  let do_pop := conflict_fifo_pop r && negb (conflict_fifo_empty r) in
  {| state :=
       match state r with
       | BOOK_IDLE =>
           if idle_accept r i then
             if m_symbol_valid (msg_in i) && m_is_book_update (msg_in i)
             then BOOK_READ else BOOK_EMIT
           else if idle_refill r i then BOOK_READ else BOOK_IDLE
       | BOOK_READ => if read_conflict r then BOOK_IDLE else BOOK_PROCESS
       | BOOK_PROCESS => BOOK_WRITE
       | BOOK_WRITE => BOOK_EMIT
       | BOOK_EMIT =>
           if event_ready i || negb (event_pending r)
           then BOOK_IDLE else BOOK_EMIT
       end;
     msg_reg :=
       match state r with
       | BOOK_IDLE =>
           if idle_accept r i then msg_in i
           else if idle_refill r i then conflict_fifo_data r else msg_reg r
       | _ => msg_reg r
       end;
     msg_pending :=
       match state r with
       | BOOK_IDLE =>
           if idle_accept r i || idle_refill r i then true else msg_pending r
       | BOOK_READ => if read_conflict r then false else msg_pending r
       | BOOK_EMIT => false
       | _ => msg_pending r
       end;
     last_bank :=
       match state r with
       | BOOK_READ => if read_conflict r then last_bank r else current_bank r
       | _ => last_bank r
       end;
     current_entry :=
       match state r with
       | BOOK_PROCESS => bram_rd_data r (last_bank r)
       | _ => current_entry r
       end;
     updated_entry :=
       match state r with
       | BOOK_PROCESS => book_process (current_entry r) (msg_reg r)
       | _ => updated_entry r
       end;
     event_reg :=
       match state r with
       | BOOK_EMIT => book_emit (msg_reg r) (updated_entry r)
       | _ => event_reg r
       end;
     event_pending :=
       match state r with
       | BOOK_IDLE => false
       | BOOK_EMIT => true
       | _ => event_pending r
       end;
     bram_en :=
       match state r with
       | BOOK_READ =>
           if read_conflict r then fun _ => false
           else upd (fun _ => false) (current_bank r) true
       | BOOK_WRITE => upd (fun _ => false) (last_bank r) true
       | _ => fun _ => false
       end;
     bram_we :=
       match state r with
       | BOOK_WRITE => upd (fun _ => false) (last_bank r) true
       | _ => fun _ => false
       end;
     bram_addr :=
       match state r with
       | BOOK_READ =>
           if read_conflict r then bram_addr r
           else upd (bram_addr r) (current_bank r) (current_addr r)
       | BOOK_WRITE => upd (bram_addr r) (last_bank r) (current_addr r)
       | _ => bram_addr r
       end;
     bram_wr_data :=
       match state r with
       | BOOK_WRITE => upd (bram_wr_data r) (last_bank r) (updated_entry r)
       | _ => bram_wr_data r
       end;
     bram_rd_data := fun b =>
       if bram_en r b then bram_mem r b (bram_addr r b) else bram_rd_data r b;
     bram_mem := fun b a =>
       if bram_en r b && bram_we r b && (a =? bram_addr r b)
       then bram_wr_data r b else bram_mem r b a;
     conflict_fifo_push :=
       match state r with
       | BOOK_READ => read_conflict r
       | _ => false
       end;
     conflict_fifo_pop :=
       match state r with
       | BOOK_IDLE => idle_refill r i
       | _ => false
       end;
     fifo_wr_ptr :=
       if do_push then trunc 4 (fifo_wr_ptr r + 1) else fifo_wr_ptr r;
     fifo_rd_ptr :=
       if do_pop then trunc 4 (fifo_rd_ptr r + 1) else fifo_rd_ptr r;
     fifo_mem :=
       if do_push then upd (fifo_mem r) (fifo_wr_ptr r) (msg_reg r)
       else fifo_mem r;
     stat_updates :=
       if event_valid r && event_ready i
       then trunc 32 (stat_updates r + 1) else stat_updates r;
     stat_bank_conflicts :=
       if conflict_fifo_push r
       then trunc 32 (stat_bank_conflicts r + 1) else stat_bank_conflicts r;
     stat_invalid_symbols :=
       if msg_valid i && msg_ready r i && negb (m_symbol_valid (msg_in i))
       then trunc 32 (stat_invalid_symbols r + 1)
       else stat_invalid_symbols r |}.

(** The symbol's entry in the banked BRAM. *)
Definition book_entry (r : regs) (m : itch_msg_t) : book_entry_t :=
  bram_mem r (bank_of m) (addr_of m).

(** An idle builder with nothing in flight: no message pending, the BRAM
    ports disabled, the conflict FIFO empty and not being pushed. *)
Definition idle_clean (r : regs) : Prop :=
  state r = BOOK_IDLE /\ msg_pending r = false /\
  (forall b, bram_en r b = false) /\
  conflict_fifo_empty r = true /\ conflict_fifo_push r = false.

(** A cycle that offers message [m] with the builder enabled. *)
Definition offer (m : itch_msg_t) (ready : bool) : inputs :=
  {| msg_in := m;  msg_valid := true;  event_ready := ready;
     cfg_enable := true |}.

(** A cycle that offers nothing. *)
Definition hold (ready : bool) : inputs :=
  {| msg_in := itch_msg_zero;  msg_valid := false;  event_ready := ready;
     cfg_enable := true |}.

(** The cycles one book-affecting message takes: taken from [offer], then
    BOOK_READ, BOOK_PROCESS, BOOK_WRITE and BOOK_EMIT. *)
Definition book_cycles (m : itch_msg_t) : list inputs :=
  [offer m true; hold true; hold true; hold true; hold true].

(** A book-affecting message for the symbol with index [s]. *)
Definition book_msg_for (s : Z) (m : itch_msg_t) : Prop :=
  m_symbol_valid m = true /\ m_is_book_update m = true /\ m_symbol_idx m = s.

(** What one book-affecting message [m] does to an idle builder, from the
    state [r] that takes it to the state [r'] that shows its event. *)
Definition msg_effect (r r' : regs) (m : itch_msg_t) : Prop :=
  idle_clean r' /\
  event_valid r' = true /\
  event_out r' = book_emit m (book_process (current_entry r) m) /\
  book_entry r' m = book_process (current_entry r) m /\
  current_entry r' = bram_rd_data r (bank_of m) /\
  bram_rd_data r' (bank_of m) = book_entry r m.

(** Example messages for symbol 5: bids added at rising prices. *)
Definition add_bid (px q : Z) : itch_msg_t :=
  {| m_ingress_ts := 0;  m_decode_ts := 0;  m_seq_num := 0;
     m_msg_type := ITCH_ADD_ORDER;
     m_symbol_key := 0;  m_symbol_idx := 5;  m_symbol_valid := true;
     m_side := SIDE_BID;  m_price := px;  m_qty := q;  m_order_id := 0;
     m_is_book_update := true;  m_stale := false;  m_error_flags := 0 |}.

(** A System Event as the decoder hands it on: no symbol, no book update. *)
Definition system_event : itch_msg_t :=
  {| m_ingress_ts := 0;  m_decode_ts := 0;  m_seq_num := 0;
     m_msg_type := ITCH_SYSTEM_EVENT;
     m_symbol_key := 0;  m_symbol_idx := 0;  m_symbol_valid := false;
     m_side := SIDE_BID;  m_price := 0;  m_qty := 0;  m_order_id := 0;
     m_is_book_update := false;  m_stale := false;  m_error_flags := 0 |}.

(** Some power-up contents for the registers without a reset. *)
Definition power_up : regs :=
  {| state := BOOK_IDLE;  msg_reg := itch_msg_zero;  msg_pending := false;
     last_bank := 0;
     current_entry := book_entry_zero;  updated_entry := book_entry_zero;
     event_reg := book_event_zero;  event_pending := false;
     bram_en := fun _ => false;  bram_we := fun _ => false;
     bram_addr := fun _ => 0;
     bram_wr_data := fun _ => book_entry_zero;
     bram_rd_data := fun _ => book_entry_zero;
     bram_mem := fun _ _ => book_entry_zero;
     conflict_fifo_push := false;  conflict_fifo_pop := false;
     fifo_wr_ptr := 0;  fifo_rd_ptr := 0;
     fifo_mem := fun _ => itch_msg_zero;
     stat_updates := 0;  stat_bank_conflicts := 0;
     stat_invalid_symbols := 0 |}.

End BookTobFsm.

(** ** risk_gate.sv: the GPIO pulse generator *)
Module RiskGatePulse.

(** GPIO pulse width (cycles at 300 MHz for ~30 ns). *)
Definition GPIO_PULSE_WIDTH : Z := 10.

Record regs := { gpio_pulse_cnt : Z;  gpio_pulse : bool }.

Definition reset : regs := {| gpio_pulse_cnt := 0;  gpio_pulse := false |}.

(** [gpio_trigger], from the gate's registers and inputs. *)
Definition gpio_trigger (r : RiskGate.regs) (i : RiskGate.inputs)
    (cfg_gpio_enable : bool) : bool :=
  RiskGate.decision_valid r && RiskGate.decision_ready i
  && ro_accept (RiskGate.decision_reg r) && cfg_gpio_enable.

(** One clock edge of the pulse generator, [trigger] being
    [gpio_trigger] of that cycle. *)
Definition step (g : regs) (trigger : bool) : regs :=
  if trigger then
    {| gpio_pulse_cnt := trunc 4 GPIO_PULSE_WIDTH;  gpio_pulse := true |}
  else if 0 <? gpio_pulse_cnt g then
    {| gpio_pulse_cnt := trunc 4 (gpio_pulse_cnt g - 1);
       gpio_pulse := if gpio_pulse_cnt g =? 1 then false else gpio_pulse g |}
  else g.

End RiskGatePulse.

(** ** Example inputs of the risk gate *)
Module RiskExamples.

(** An event with a set stale flag, offered and decided at time 0. *)
Definition stale_event : book_event_t :=
  {| ev_ingress_ts := 0;  ev_book_ts := 0;  ev_symbol_idx := 0;
     ev_tob := tob_zero;
     ev_last_trade_px := 0;  ev_last_trade_qty := 0;
     ev_tob_changed := true;  ev_trade_occurred := false;
     ev_stale := true;  ev_trigger_msg_type := ITCH_ADD_ORDER |}.

Definition offer_stale : RiskGate.inputs := Examples.gate_in stale_event true 0.

(** The gate in RISK_DECIDE over the stale event, one replenish interval
    after reset. *)
Definition deciding_stale : RiskGate.regs :=
  Eval vm_compute in
    run RiskGate.step Examples.warm [offer_stale; Examples.quiet].

(** A position limit of -1 as the 32-bit port carries it. *)
Definition limit_minus_one : RiskGate.inputs :=
  {| RiskGate.event_in := book_event_zero;  RiskGate.event_valid := false;
     RiskGate.decision_ready := true;  RiskGate.timestamp_cnt := 0;
     RiskGate.cfg_enable := true;  RiskGate.cfg_price_band_bps := 0;
     RiskGate.cfg_token_rate := 1;  RiskGate.cfg_token_max := 1;
     RiskGate.cfg_position_limit := 2 ^ 32 - 1;  RiskGate.cfg_stale_usec := 1;
     RiskGate.cfg_seq_gap_thr := 100;  RiskGate.cfg_kill := false;
     RiskGate.ref_price_data := 0;  RiskGate.ref_price_valid := false |}.

End RiskExamples.

(** ** pcie_dma and dma_pcie_ep: what reaches the bridge

    On the Avalon-MM master interface a write is taken by the bridge in a
    cycle in which the write signal is high and [waitrequest] is low. *)
Module PcieDmaFlow.
Import DmaRecord PcieDma.

(** The (address, data) writes the bridge takes from [pcie_dma] while it
    runs from [r] over [ins]. *)
Fixpoint transfers (r : regs) (ins : list inputs) : list (Z * Z) :=
  match ins with
  | [] => []
  | i :: ins' =>
      (if pcie_write r && negb (pcie_waitrequest i)
       then [(pcie_address r, pcie_writedata r)] else [])
      ++ transfers (step r i) ins'
  end.

(** A cycle with configuration [base], [size], the engine enabled, no new
    record offered. *)
Definition cycle (base size cons : Z) (wait : bool) : inputs :=
  {| record_in := risk_output_zero;  record_valid := false;
     pcie_waitrequest := wait;
     cfg_ring_base := base;  cfg_ring_size := size;  cfg_enable := true;
     status_cons_idx := cons |}.

(** A cycle that offers record [o]. *)
Definition offer (o : risk_output_t) (base size cons : Z) (wait : bool)
    : inputs :=
  {| record_in := o;  record_valid := true;
     pcie_waitrequest := wait;
     cfg_ring_base := base;  cfg_ring_size := size;  cfg_enable := true;
     status_cons_idx := cons |}.

(** The first and the second 32 bytes of the record at the FIFO head. *)
Definition half_lo (r : regs) : Z := bits 255 0 (record_packed r).
Definition half_hi (r : regs) : Z := bits 511 256 (record_packed r).

(** The engine idle with a record waiting at the FIFO head. *)
Definition record_waiting (r : regs) (i : inputs) : Prop :=
  state r = DMA_IDLE /\ pcie_write r = false /\ fifo_pop r = false /\
  fifo_empty r = false /\ ring_full r i = false /\ cfg_enable i = true.

(** Example: one decision queued after reset, ring of 1024 records at
    address 4096. *)
Definition some_output : risk_output_t :=
  {| ro_accept := true;  ro_reason := RISK_ACCEPT;  ro_decision_ts := 77;
     ro_book_event :=
       {| ev_ingress_ts := 55;  ev_book_ts := 0;  ev_symbol_idx := 5;
          ev_tob := {| tob_bid_px := 1000;  tob_bid_qty := 10;
                       tob_ask_px := 1010;  tob_ask_qty := 20;
                       tob_last_update_ts := 0;  tob_valid := true |};
          ev_last_trade_px := 1005;  ev_last_trade_qty := 1;
          ev_tob_changed := true;  ev_trade_occurred := false;
          ev_stale := false;  ev_trigger_msg_type := ITCH_ADD_ORDER |} |}.

Definition queued : regs :=
  step (reset (fun _ => risk_output_zero)) (offer some_output 4096 1024 0 false).

(** The engine stalled in DMA_WRITE_0 by the bridge while records keep
    arriving: after the first record and 30 more, 31 are queued. *)
Definition stalled_trace : list inputs :=
  repeat (offer some_output 4096 1024 0 true) 31.
Definition stalled : regs :=
  run step (reset (fun _ => risk_output_zero)) stalled_trace.

End PcieDmaFlow.

Module DmaPcieEpFlow.
Import DmaRecord DmaPcieEp.

(** [avm_address = ring_base_addr + ({48'b0, prod_idx_reg} << 6)]. *)
Definition avm_address (r : regs) (ring_base_addr : Z) : Z :=
  trunc 64 (ring_base_addr + trunc 64 (prod_idx_reg r * 2 ^ 6)).

(** Next producer index of DMA_WRITE. *)
Definition next_prod_idx (r : regs) (i : inputs) : Z :=
  if trunc 32 (trunc IDX_WIDTH (ring_length i) - 1) <=? prod_idx_reg r
  then 0 else trunc IDX_WIDTH (prod_idx_reg r + 1).

(** A cycle in which the host's consumer index reads [cons]. *)
Definition ep_cycle (o : risk_output_t) (valid : bool) (len cons : Z)
    (wait : bool) : inputs :=
  {| record_in := o;  record_valid := valid;
     ring_length := len;  cons_idx_shadow := cons;
     avm_waitrequest := wait |}.

(** The number of cycles of [ins] that offer a record. *)
Definition offered (ins : list inputs) : Z :=
  Z.of_nat (length (filter record_valid ins)).

End DmaPcieEpFlow.

(** ** t2t_record.h and t2t_pcie_consumer.cpp: the host's view of a record

    [T2TRecord] is a packed struct read in place from the ring memory of a
    little-endian host: a field at byte offset [k] of width [w] bytes is
    bits [8k+8w-1 .. 8k] of the 64-byte record the engine wrote, byte 0
    being bits 7..0 of the record vector. *)
Module T2TRecordHost.

Record T2TRecord := {
  seq : Z;           (* bytes 0-3 *)
  reserved0 : Z;     (* bytes 4-7 *)
  ts_ingress : Z;    (* bytes 8-15 *)
  ts_decode : Z;     (* bytes 16-23 *)
  symbol_idx : Z;    (* bytes 24-25 *)
  side : Z;          (* byte 26 *)
  flags : Z;         (* byte 27 *)
  reserved1 : Z;     (* bytes 28-31 *)
  quantity : Z;      (* bytes 32-35 *)
  price : Z;         (* bytes 36-39 *)
  ref_price : Z;     (* bytes 40-43 *)
  feature0 : Z;      (* bytes 44-47 *)
  feature1 : Z;      (* bytes 48-51 *)
  feature2 : Z;      (* bytes 52-55 *)
  payload_crc : Z;   (* bytes 56-57 *)
  reserved : Z       (* bytes 58-63 *) }.

(** The struct over a 64-byte ring slot holding [packed]. *)
Definition read_record (packed : Z) : T2TRecord :=
  {| seq := bits 31 0 packed;
     reserved0 := bits 63 32 packed;
     ts_ingress := bits 127 64 packed;
     ts_decode := bits 191 128 packed;
     symbol_idx := bits 207 192 packed;
     side := bits 215 208 packed;
     flags := bits 223 216 packed;
     reserved1 := bits 255 224 packed;
     quantity := bits 287 256 packed;
     price := bits 319 288 packed;
     ref_price := bits 351 320 packed;
     feature0 := bits 383 352 packed;
     feature1 := bits 415 384 packed;
     feature2 := bits 447 416 packed;
     payload_crc := bits 463 448 packed;
     reserved := bits 511 464 packed |}.

(** Helper methods of the struct. *)
Definition is_stale (rec : T2TRecord) : bool :=
  negb (Z.land (flags rec) 0x01 =? 0).
Definition is_accepted (rec : T2TRecord) : bool :=
  negb (Z.land (flags rec) 0x02 =? 0).
Definition risk_reason (rec : T2TRecord) : Z :=
  Z.land (Z.shiftr (flags rec) 2) 0x07.
Definition spread_bps (rec : T2TRecord) : Z := feature0 rec.
Definition latency_ns (rec : T2TRecord) : Z :=
  if ts_ingress rec <? ts_decode rec
  then ts_decode rec - ts_ingress rec else 0.

(** [enum class RiskReason]. *)
Definition NONE : Z := 0.
Definition PRICE_BAND : Z := 1.
Definition RATE_LIMIT : Z := 2.
Definition POSITION : Z := 3.
Definition KILL_SWITCH : Z := 4.

(** [process_record]: the record is skipped when stale, and reported as a
    signal when accepted with a tight spread and a low latency. *)
Definition is_signal (rec : T2TRecord) : bool :=
  negb (is_stale rec)
  && (is_accepted rec && (spread_bps rec <? 5) && (latency_ns rec <? 500)).

(** The record vector in nested form, field by field from byte 0. *)
Definition pack_nested (r : dma_record_t) : Z :=
  trunc 32 (T2tPkg.seq r) + 2 ^ 32 * (
  trunc 32 (reserved_lo r) + 2 ^ 32 * (
  trunc 64 (ts_ing r) + 2 ^ 64 * (
  trunc 64 (ts_dec r) + 2 ^ 64 * (
  trunc 16 (sym_idx r) + 2 ^ 16 * (
  trunc 8 (T2tPkg.side r) + 2 ^ 8 * (
  trunc 8 (T2tPkg.flags r) + 2 ^ 8 * (
  trunc 32 (qty r) + 2 ^ 32 * (
  trunc 32 (T2tPkg.price r) + 2 ^ 32 * (
  trunc 32 (ref_px r) + 2 ^ 32 * (
  trunc 32 (T2tPkg.feature0 r) + 2 ^ 32 * (
  trunc 32 (T2tPkg.feature1 r) + 2 ^ 32 * (
  trunc 32 (T2tPkg.feature2 r) + 2 ^ 32 * (
  (trunc 16 (payload_crc16 r) + 2 ^ 16 * trunc 16 (pad r)) + 2 ^ 32 * (
  trunc 64 (reserved_hi r))))))))))))))).

(** Example: a decision rejected for its stale flag, with a tight book. *)
Definition stale_reject : risk_output_t :=
  {| ro_accept := false;  ro_reason := RISK_SEQ_GAP;  ro_decision_ts := 100;
     ro_book_event :=
       {| ev_ingress_ts := 50;  ev_book_ts := 0;  ev_symbol_idx := 5;
          ev_tob := {| tob_bid_px := 1000;  tob_bid_qty := 10;
                       tob_ask_px := 1001;  tob_ask_qty := 8;
                       tob_last_update_ts := 0;  tob_valid := true |};
          ev_last_trade_px := 1000;  ev_last_trade_qty := 1;
          ev_tob_changed := true;  ev_trade_occurred := false;
          ev_stale := true;  ev_trigger_msg_type := ITCH_ADD_ORDER |} |}.

End T2TRecordHost.

(** ** top_c10gx.sv: the decoder and the book builder as the top level
    wires them

    [decoded_msg], [decoded_valid] and [decoded_ready] connect
    [u_decoder] to [u_book]; [cfg_enable] is tied to 1.  The splitter, the
    symbol table and the risk gate stay outside: what they drive is an
    input here. *)
Module TopDecodeBook.

(** [assign cfg_enable = 1'b1]. *)
Definition cfg_enable : bool := true.

Record inputs := {
  splitter_axis_tdata : Z;
  splitter_axis_tkeep : Z;
  splitter_axis_tuser : Z;
  splitter_axis_tvalid : bool;
  sym_lookup_idx : Z;
  sym_lookup_hit : bool;
  sym_lookup_ready : bool;
  book_event_ready : bool }.

Record regs := {
  u_decoder : ItchDecoderFsm.regs;
  u_book : BookTobFsm.regs }.

Definition reset (u : BookTobFsm.regs) : regs :=
  {| u_decoder := ItchDecoderFsm.reset;  u_book := BookTobFsm.reset u |}.

(** The book's inputs: the decoder's outputs and [book_event_ready]. *)
Definition book_inputs (r : regs) (i : inputs) : BookTobFsm.inputs :=
  {| BookTobFsm.msg_in := ItchDecoderFsm.decoded_msg (u_decoder r);
     BookTobFsm.msg_valid := ItchDecoderFsm.decoded_valid (u_decoder r);
     BookTobFsm.event_ready := book_event_ready i;
     BookTobFsm.cfg_enable := cfg_enable |}.

(** [decoded_ready] is the book's [msg_ready]. *)
Definition decoded_ready (r : regs) (i : inputs) : bool :=
  BookTobFsm.msg_ready (u_book r) (book_inputs r i).

Definition decoder_inputs (r : regs) (i : inputs) : ItchDecoderFsm.inputs :=
  {| ItchDecoderFsm.s_axis_tdata := splitter_axis_tdata i;
     ItchDecoderFsm.s_axis_tkeep := splitter_axis_tkeep i;
     ItchDecoderFsm.s_axis_tuser := splitter_axis_tuser i;
     ItchDecoderFsm.s_axis_tvalid := splitter_axis_tvalid i;
     ItchDecoderFsm.decoded_ready := decoded_ready r i;
     ItchDecoderFsm.sym_lookup_idx := sym_lookup_idx i;
     ItchDecoderFsm.sym_lookup_hit := sym_lookup_hit i;
     ItchDecoderFsm.sym_lookup_ready := sym_lookup_ready i |}.

Definition step (r : regs) (i : inputs) : regs :=
  {| u_decoder := ItchDecoderFsm.step (u_decoder r) (decoder_inputs r i);
     u_book := BookTobFsm.step (u_book r) (book_inputs r i) |}.

Definition book_event_valid (r : regs) : bool :=
  BookTobFsm.event_valid (u_book r).

(** The book idle, empty-handed and ready, the decoder with nothing to
    show, and nothing counted yet. *)
Definition never_met (r : regs) : Prop :=
  BookTobFsm.state (u_book r) = BookTobFsm.BOOK_IDLE /\
  BookTobFsm.msg_pending (u_book r) = false /\
  BookTobFsm.event_pending (u_book r) = false /\
  BookTobFsm.fifo_wr_ptr (u_book r) = 0 /\
  BookTobFsm.fifo_rd_ptr (u_book r) = 0 /\
  BookTobFsm.conflict_fifo_push (u_book r) = false /\
  BookTobFsm.stat_updates (u_book r) = 0 /\
  (ItchDecoderFsm.state (u_decoder r) <> ItchDecoderFsm.DEC_IDLE ->
   ItchDecoderFsm.decode_valid (u_decoder r) = false) /\
  ItchDecoderFsm.stat_total (u_decoder r) = 0.

(** A cycle in which the splitter hands over an Add Order. *)
Definition add_order_cycle : inputs :=
  {| splitter_axis_tdata := ItchDecoder.pack_bytes ItchDecoderFsm.add_order_bytes;
     splitter_axis_tkeep := 36;
     splitter_axis_tuser := 5 * 2 ^ 64 + 0x41 * 2 ^ 56 + 1000;
     splitter_axis_tvalid := true;
     sym_lookup_idx := 3;  sym_lookup_hit := true;  sym_lookup_ready := true;
     book_event_ready := true |}.

End TopDecodeBook.

(** ** risk_gate.sv: cycles in which no event arrives *)
Module RiskGateQuiet.
Import RiskGate.

(** A cycle without an event, under token rate [rate] and bucket maximum
    [max]. *)
Definition quiet_cycle (rate max : Z) (i : inputs) : Prop :=
  event_valid i = false /\ cfg_token_rate i = rate /\ cfg_token_max i = max.

End RiskGateQuiet.

(** ** itch_splitter.sv: example streams *)
Module SplitterExamples.
Import ItchSplitter.

(** A beat of a valid packet, with the configuration top_c10gx ties off:
    sequence checking on, expected sequence 1; the consumer is ready. *)
Definition beat (data keep : Z) (last : bool) : inputs :=
  {| s_axis_tdata := data;  s_axis_tkeep := keep;  s_axis_tlast := last;
     s_axis_tuser := 1;  s_axis_tvalid := true;
     m_axis_tready := true;
     cfg_expected_seq := 1;  cfg_seq_check_en := true |}.

(** A cycle without a beat. *)
Definition no_beat : inputs :=
  {| s_axis_tdata := 0;  s_axis_tkeep := 0;  s_axis_tlast := false;
     s_axis_tuser := 0;  s_axis_tvalid := false;
     m_axis_tready := true;
     cfg_expected_seq := 1;  cfg_seq_check_en := true |}.

(** The first eight bytes of a System Event message (type 'S', 12 bytes)
    whose bytes 1..4 carry the sequence number [n] < 256: byte 0 is 0x53,
    byte 4 is [n]. *)
Definition sys_event_head (n : Z) : Z := 0x53 + n * 2 ^ 32.

(** A packet of three beats: a leading beat, then the message in a full
    beat and a last beat of four bytes. *)
Definition message_stream (n : Z) : list inputs :=
  [beat 0 0xFF false; beat (sys_event_head n) 0xFF false; beat 0 0x0F true].

(** Sequence number 5 where 1 is expected (a gap), 0 (a duplicate), and 1
    (in order). *)
Definition gap_stream : list inputs := message_stream 5.
Definition dupe_stream : list inputs := message_stream 0.
Definition in_order_stream : list inputs := message_stream 1.

Definition blank_buf : Z -> Z := fun _ => 0.

(** The registers after a stream, from reset over a blank buffer; the
    reset state when the stream has no end state. *)
Definition after (ins : list inputs) : regs :=
  match cycles 0 (reset blank_buf) ins with
  | Some r => r
  | None => reset blank_buf
  end.

End SplitterExamples.

(** ** The specification's wording, for comparison with the code *)
Module SpecWords.

(** Price band as the specification words it: with
    [mid = (bid_px + ask_px) / 2], the check passes iff [ref_price = 0],
    or [price_band_bps = 0], or
    [|mid - ref_price| * 10000 <= ref_price * price_band_bps]. *)
Definition price_band_passes (bid_px ask_px ref_price price_band_bps : Z) : bool :=
  let mid := (bid_px + ask_px) / 2 in
  (ref_price =? 0) || (price_band_bps =? 0)
  || (Z.abs (mid - ref_price) * 10000 <=? ref_price * price_band_bps).

(** Staleness as the specification words it: reject iff the stale flag is
    set or the age exceeds the threshold. *)
Definition stale_rejects (stale_flag : bool) (age threshold : Z) : bool :=
  stale_flag || (threshold <? age).

End SpecWords.

(** * Theorems *)

(** ** Bit-vector facts *)

Lemma trunc_small (w x : Z) : 0 <= x < 2 ^ w -> trunc w x = x.
Proof. intros H. unfold trunc. now apply Z.mod_small. Qed.

Lemma trunc_range (w x : Z) : 0 <= w -> 0 <= trunc w x < 2 ^ w.
Proof.
  intros Hw. unfold trunc. apply Z.mod_pos_bound.
  now apply Z.pow_pos_nonneg.
Qed.


Lemma run_app {S I : Type} (step : S -> I -> S) (s : S) (xs ys : list I) :
  run step s (xs ++ ys) = run step (run step s xs) ys.
Proof. unfold run. apply fold_left_app. Qed.

Lemma run_cons {S I : Type} (step : S -> I -> S) (s : S) (x : I) (xs : list I) :
  run step s (x :: xs) = run step (step s x) xs.
Proof. reflexivity. Qed.

(** ** Risk gate *)
Section RiskGateFacts.
Import RiskGate.

(** The warmed-up state of the examples is the gate 300000 cycles after
    reset. *)
Lemma warm_is_reached :
  Examples.warm = run step (reset false RISK_ACCEPT) Examples.warm_trace.
Proof. vm_compute. reflexivity. Qed.

(** *** Staleness *)

(** With the stale flag clear the staleness check passes whatever the age
    of the event. *)
Lemma check_not_stale_flag_clear (r : regs) (i : inputs) :
  ev_stale (event_reg r) = false -> check_not_stale r i = true.
Proof.
  intros H. unfold check_not_stale. rewrite H. apply orb_true_r.
Qed.

(** The verdict of RISK_DECIDE is an accept exactly when the six checks
    pass. *)
Lemma decide_accept (r : regs) (i : inputs) :
  state r = RISK_DECIDE -> accept (step r i) = all_checks_ok r i.
Proof. intros H. unfold step. simpl. now rewrite H. Qed.

Lemma decide_reject_reason (r : regs) (i : inputs) :
  state r = RISK_DECIDE -> reject_reason (step r i) = decide_reason r i.
Proof. intros H. unfold step. simpl. now rewrite H. Qed.

(** C3 (code evaluated at the failing input): one replenish interval after
    reset an event with a clear stale flag and book timestamp 0 is decided
    at time 1 000 000 cycles under a staleness threshold of 300 cycles.
    Its age exceeds the threshold, the specification's rule rejects it,
    and the gate's verdict is an accept. *)
Theorem stale_age_alone_is_accepted :
  let r := run step Examples.warm [Examples.offer; Examples.quiet] in
  state r = RISK_DECIDE /\
  ev_stale (event_reg r) = false /\
  stale_threshold_cycles Examples.late < data_age_cycles r Examples.late /\
  SpecWords.stale_rejects (ev_stale (event_reg r))
    (data_age_cycles r Examples.late)
    (stale_threshold_cycles Examples.late) = true /\
  check_not_stale r Examples.late = true /\
  accept (step r Examples.late) = true /\
  reject_reason (step r Examples.late) = RISK_ACCEPT.
Proof. vm_compute. repeat split; reflexivity. Qed.

(** *** Price band *)

(** With no reference price the price-band check passes. *)
Lemma price_band_no_reference (r : regs) (i : inputs) :
  ref_price_reg r = 0 -> check_price_band_ok r i = true.
Proof.
  intros H. unfold check_price_band_ok. rewrite H. simpl.
  now rewrite orb_true_r.
Qed.

(** When bid + ask fits 32 bits the check is the specification's. *)
Lemma price_band_matches_without_carry (r : regs) (i : inputs) :
  let bid := tob_bid_px (ev_tob (event_reg r)) in
  let ask := tob_ask_px (ev_tob (event_reg r)) in
  0 <= bid -> 0 <= ask -> bid + ask < 2 ^ 32 ->
  0 <= ref_price_reg r < 2 ^ 32 ->
  0 <= cfg_price_band_bps i < 2 ^ 16 ->
  check_price_band_ok r i
  = SpecWords.price_band_passes bid ask (ref_price_reg r) (cfg_price_band_bps i).
Proof.
  intros bid ask Hb Ha Hs Hr Hc.
  unfold check_price_band_ok, SpecWords.price_band_passes, band_threshold,
    price_diff_abs, current_price.
  fold bid ask.
  rewrite (trunc_small 32 (bid + ask)) by lia.
  rewrite Z.shiftr_div_pow2 by lia. change (2 ^ 1) with 2.
  set (mid := (bid + ask) / 2).
  assert (Hm : 0 <= mid < 2 ^ 32).
  { subst mid. split.
    - apply Z.div_pos; lia.
    - apply Z.div_lt_upper_bound; lia. }
  assert (H32 : 2 ^ 32 = 4294967296) by reflexivity.
  assert (H16 : 2 ^ 16 = 65536) by reflexivity.
  assert (H64 : 2 ^ 64 = 18446744073709551616) by reflexivity.
  rewrite (trunc_small 64 (ref_price_reg r * cfg_price_band_bps i)) by nia.
  destruct (ref_price_reg r <=? mid) eqn:E.
  - apply Z.leb_le in E.
    rewrite (trunc_small 64 (mid - ref_price_reg r)) by lia.
    rewrite (trunc_small 64 ((mid - ref_price_reg r) * 10000)) by nia.
    rewrite Z.abs_eq by lia.
    destruct (ref_price_reg r =? 0), (cfg_price_band_bps i =? 0),
      ((mid - ref_price_reg r) * 10000
       <=? ref_price_reg r * cfg_price_band_bps i); reflexivity.
  - apply Z.leb_gt in E.
    rewrite (trunc_small 64 (ref_price_reg r - mid)) by lia.
    rewrite (trunc_small 64 ((ref_price_reg r - mid) * 10000)) by nia.
    rewrite Z.abs_neq by lia.
    replace (- (mid - ref_price_reg r)) with (ref_price_reg r - mid) by lia.
    destruct (ref_price_reg r =? 0), (cfg_price_band_bps i =? 0),
      ((ref_price_reg r - mid) * 10000
       <=? ref_price_reg r * cfg_price_band_bps i); reflexivity.
Qed.

(** C4 (code evaluated at the failing input): bid = ask = 2^31, reference
    price 2^31, band 1 bp.  The mid price is 2^31, equal to the reference,
    so the specification's check passes; the gate forms bid + ask in 32
    bits, gets mid 0, fails the check and rejects with the price-band
    reason. *)
Theorem price_band_mid_loses_carry :
  let i := Examples.band_in false in
  let r := run step (reset false RISK_ACCEPT) [Examples.band_in true; i] in
  state r = RISK_DECIDE /\
  event_reg r = Examples.big_event /\
  ref_price_reg r = 2147483648 /\
  SpecWords.price_band_passes
    (tob_bid_px (ev_tob (event_reg r))) (tob_ask_px (ev_tob (event_reg r)))
    (ref_price_reg r) (cfg_price_band_bps i) = true /\
  current_price r = 0 /\
  check_price_band_ok r i = false /\
  accept (step r i) = false /\
  reject_reason (step r i) = RISK_PRICE_BAND.
Proof. vm_compute. repeat split; reflexivity. Qed.

End RiskGateFacts.

Section RiskGateTokenFacts.
Import RiskGate.

(** *** Token bucket *)



(** The bucket is empty, and the replenish counter counts the cycles, until
    the first replenish interval has elapsed. *)
Lemma early_run_empty (ins : list inputs) :
  forall r, token_bucket r = 0 -> 0 <= token_replenish_cnt r ->
    token_replenish_cnt r + Z.of_nat (length ins) < TOKEN_REPLENISH_CYCLES ->
    token_bucket (run step r ins) = 0 /\
    token_replenish_cnt (run step r ins)
    = token_replenish_cnt r + Z.of_nat (length ins).
Proof.
  unfold TOKEN_REPLENISH_CYCLES.
  induction ins as [|i ins IH]; intros r Hb Hc Hlen.
  - simpl. split; [assumption | lia].
  - rewrite run_cons. cbn [length] in Hlen. rewrite Nat2Z.inj_succ in Hlen.
    assert (Htick : replenish_tick r = false).
    { unfold replenish_tick, TOKEN_REPLENISH_CYCLES. apply Z.leb_gt. lia. }
    assert (Hb' : token_bucket (step r i) = 0).
    { unfold step. simpl. unfold next_token_bucket.
      rewrite Hb, Htick. simpl. now rewrite andb_false_r. }
    assert (Hc' : token_replenish_cnt (step r i) = token_replenish_cnt r + 1).
    { unfold step. simpl. unfold next_token_replenish_cnt. rewrite Htick.
      apply trunc_small. change (2 ^ 32) with 4294967296. lia. }
    destruct (IH (step r i)) as [IH1 IH2]; try lia.
    split; [assumption|]. rewrite IH2, Hc'. cbn [length].
    rewrite Nat2Z.inj_succ. lia.
Qed.

(** With an empty bucket the verdict is a reject. *)
Lemma empty_bucket_rejects (r : regs) (i : inputs) :
  token_bucket r = 0 -> all_checks_ok r i = false.
Proof.
  intros H. unfold all_checks_ok, check_token_ok. rewrite H. simpl.
  now rewrite andb_false_r.
Qed.

(** Until the first replenish neither the accept register nor the accept
    bit of the output register is ever set, once both are clear. *)
Lemma early_run_no_accept (ins : list inputs) :
  forall r, token_bucket r = 0 -> 0 <= token_replenish_cnt r ->
    token_replenish_cnt r + Z.of_nat (length ins) < TOKEN_REPLENISH_CYCLES ->
    accept r = false -> ro_accept (decision_reg r) = false ->
    accept (run step r ins) = false /\
    ro_accept (decision_reg (run step r ins)) = false.
Proof.
  induction ins as [|i ins IH]; intros r Hb Hc Hlen Ha Hd.
  - split; assumption.
  - rewrite run_cons. cbn [length] in Hlen. rewrite Nat2Z.inj_succ in Hlen.
    destruct (early_run_empty [i] r Hb Hc) as [Hb' Hc'];
      [cbn [length]; change (Z.of_nat 1) with 1; lia|].
    change (run step r [i]) with (step r i) in Hb', Hc'.
    cbn [length] in Hc'. change (Z.of_nat 1) with 1 in Hc'.
    apply IH; try assumption; try lia.
    + unfold step. simpl. destruct (state r); try assumption.
      now apply empty_bucket_rejects.
    + unfold step. simpl. destruct (state r); assumption.
Qed.

(** The verdict registers until the first replenish.  After reset the
    bucket is empty, and it stays empty in every one of the first
    TOKEN_REPLENISH_CYCLES cycles, whatever the inputs.  So the verdict
    RISK_DECIDE registers in any of these cycles is a reject, and its
    reason is the token bucket whenever the checks of higher priority
    (kill switch, staleness, sequence gap, price band) pass.  The accept
    bit of the decision on offer is clear in these cycles when the accept
    register, which has no reset value, powers up clear. *)
Lemma early_verdicts_are_rejects
    (accept0 : bool) (reason0 : risk_reason_e) (ins : list inputs) (i : inputs) :
  Z.of_nat (length ins) < TOKEN_REPLENISH_CYCLES ->
  let r := run step (reset accept0 reason0) ins in
  token_bucket (reset accept0 reason0) = 0 /\
  token_bucket r = 0 /\
  check_token_ok r = false /\
  (state r = RISK_DECIDE ->
   accept (step r i) = false /\
   (check_not_killed i = true -> check_not_stale r i = true ->
    check_no_seq_gap r = true -> check_price_band_ok r i = true ->
    reject_reason (step r i) = RISK_TOKEN_BUCKET)) /\
  (accept0 = false -> ro_accept (decision_out r) = false).
Proof.
  intros Hlen r.
  destruct (early_run_empty ins (reset accept0 reason0)) as [Hb _];
    [reflexivity | simpl; lia | simpl; lia |].
  fold r in Hb.
  assert (Ht : check_token_ok r = false).
  { unfold check_token_ok. now rewrite Hb. }
  split; [reflexivity|]. split; [exact Hb|]. split; [exact Ht|]. split.
  - intros Hs. split.
    + rewrite decide_accept by assumption. now apply empty_bucket_rejects.
    + intros Hk Hst Hg Hp. rewrite decide_reject_reason by assumption.
      unfold decide_reason, all_checks_ok.
      rewrite Hk, Hst, Hg, Hp, Ht. reflexivity.
  - intros ->. unfold decision_out, r.
    apply (early_run_no_accept ins (reset false reason0));
      try reflexivity; simpl; lia.
Qed.

(** C10 (failing input): the decision on offer carries the verdict of the
    event before.  Within the first replenish interval an event with its
    stale flag set goes through the gate, then a clean one.  The verdict
    registers are right both times (reject; sequence gap, then token
    bucket).  The first decision on offer carries the power-up values of
    the un-reset verdict registers, and is counted as an accept when
    [accept] powers up set; the second, for the clean event, is a reject
    for a sequence gap. *)
Theorem early_decision_publishes_old_verdict
    (accept0 : bool) (reason0 : risk_reason_e) :
  let first := run step (reset accept0 reason0)
                 [RiskExamples.offer_stale; Examples.quiet; Examples.quiet] in
  let second := run step first
                  [Examples.offer; Examples.quiet; Examples.quiet] in
  token_bucket first = 0 /\ token_bucket second = 0 /\
  decision_valid first = true /\
  ro_book_event (decision_out first) = RiskExamples.stale_event /\
  ro_accept (decision_out first) = accept0 /\
  ro_reason (decision_out first) = reason0 /\
  accept first = false /\ reject_reason first = RISK_SEQ_GAP /\
  stat_accepts (step first Examples.offer) = (if accept0 then 1 else 0) /\
  decision_valid second = true /\
  ro_book_event (decision_out second) = book_event_zero /\
  ro_accept (decision_out second) = false /\
  ro_reason (decision_out second) = RISK_SEQ_GAP /\
  accept second = false /\ reject_reason second = RISK_TOKEN_BUCKET.
Proof.
  destruct accept0, reason0; vm_compute; repeat split; reflexivity.
Qed.




End RiskGateTokenFacts.

(** ** Splitter *)
Section ItchSplitterFacts.
Import ItchSplitter SplitterExamples.

(** The loop of SPLIT_BODY ends only when it is not entered: its condition
    reads registers, and a pass assigns pending values only. *)
Lemma body_loop_spec (fuel : nat) (r : regs) :
  forall p, body_loop fuel r p = if body_cond r then None else Some p.
Proof.
  induction fuel as [|f IH]; intros p; cbn [body_loop].
  - reflexivity.
  - destruct (body_cond r) eqn:E; [|reflexivity].
    apply IH.
Qed.

(** A clock edge has a next state exactly when the loop is not entered,
    whatever the bound on its passes. *)
Lemma step_spec (fuel : nat) (r : regs) (i : inputs) :
  step fuel r i = if stops r then None else Some (next r i (held r)).
Proof.
  unfold step, pending, stops.
  destruct (state r); cbn [state_eqb andb]; try reflexivity.
  destruct (tvalid_reg r); cbn [andb]; [|reflexivity].
  rewrite body_loop_spec. destruct (body_cond r); reflexivity.
Qed.

Lemma cycles_app (fuel : nat) (ins1 ins2 : list inputs) :
  forall r, cycles fuel r (ins1 ++ ins2) =
    match cycles fuel r ins1 with
    | Some r' => cycles fuel r' ins2
    | None => None
    end.
Proof.
  induction ins1 as [|i ins1 IH]; intros r; cbn [cycles app].
  - reflexivity.
  - destruct (step fuel r i); [apply IH | reflexivity].
Qed.

(** A known message type is at least 12 bytes long. *)
Lemma get_msg_length_range (b : Z) :
  get_msg_length b = 0 \/ 12 <= get_msg_length b <= 50.
Proof.
  unfold get_msg_length.
  repeat match goal with
         | |- context [if ?c then _ else _] => destruct c; [right; lia|]
         end.
  left. reflexivity.
Qed.

Lemma framing_inv_reset (buf0 : Z -> Z) : framing_inv (reset buf0).
Proof.
  unfold framing_inv, reset. cbn.
  repeat split; try reflexivity; try discriminate.
Qed.

(** SPLIT_EMIT is entered from SPLIT_BODY only, when the bytes collected
    reach the message length; SPLIT_BODY holds one byte of a message of 12
    or more, and no edge with a next state adds to it. *)
Lemma framing_inv_step (fuel : nat) (r r' : regs) (i : inputs) :
  framing_inv r -> step fuel r i = Some r' -> framing_inv r'.
Proof.
  intros (Hs & Hb & Hl & Hg & Hd & Hc & Hm & Hsg & Hsd) H.
  rewrite step_spec in H. destruct (stops r) eqn:Est; [discriminate|].
  injection H as <-.
  assert (He : state_eqb (state r) SPLIT_EMIT = false)
    by (destruct (state r); try reflexivity; contradiction).
  unfold framing_inv, next, forwarded, m_axis_tvalid, msg_ready.
  cbn [state msg_bytes_collected cur_msg_len stale_latch seq_gap_detected
       seq_dupe_detected cur_seq stat_messages stat_seq_gaps stat_seq_dupes
       held b_msg_bytes_collected].
  rewrite He, Hg, Hd. cbn [andb].
  split; [|split; [|repeat split; assumption]].
  - destruct (state r) eqn:E; try contradiction.
    + destruct (idle_take r); discriminate.
    + destruct (header_take r);
        [destruct (get_msg_length _ =? 0) | destruct (tlast_reg r)];
        discriminate.
    + destruct (Hb eq_refl) as [Hb1 Hb2].
      unfold body_done. rewrite Hb1.
      replace (cur_msg_len r <=? 1) with false
        by (symmetry; apply Z.leb_gt; lia).
      destruct (tvalid_reg r); [|discriminate].
      destruct (body_dry r && tlast_reg r); discriminate.
    + destruct (tlast_reg r); [discriminate|].
      destruct (tvalid_reg r); discriminate.
  - destruct (state r) eqn:E; try contradiction.
    + destruct (idle_take r); discriminate.
    + destruct (header_take r); [|destruct (tlast_reg r); discriminate].
      destruct (get_msg_length (input_bytes r (byte_idx r)) =? 0) eqn:E0;
        [discriminate|]. intros _.
      apply Z.eqb_neq in E0.
      destruct (get_msg_length_range (input_bytes r (byte_idx r)));
        [contradiction|]. split; [reflexivity | lia].
    + intros _. apply (Hb eq_refl).
    + destruct (tlast_reg r); [discriminate|].
      destruct (tvalid_reg r); discriminate.
Qed.

Lemma framing_inv_cycles (fuel : nat) (ins : list inputs) :
  forall r r', framing_inv r -> cycles fuel r ins = Some r' -> framing_inv r'.
Proof.
  induction ins as [|i ins IH]; intros r r' Hr H; cbn [cycles] in H.
  - injection H as <-. exact Hr.
  - destruct (step fuel r i) as [r1|] eqn:E; [|discriminate].
    apply (IH r1); [|exact H]. now apply (framing_inv_step fuel r r1 i).
Qed.

(** [expected_seq] is set from the configuration only. *)
Lemma expected_seq_cycles (fuel : nat) (c : Z) (ins : list inputs) :
  forall r r', framing_inv r ->
    Forall (fun i => cfg_expected_seq i = c) ins ->
    expected_seq r = 0 \/ expected_seq r = c ->
    cycles fuel r ins = Some r' ->
    expected_seq r' = 0 \/ expected_seq r' = c.
Proof.
  induction ins as [|i ins IH]; intros r r' Hr Hall He H; cbn [cycles] in H.
  - injection H as <-. exact He.
  - destruct (step fuel r i) as [r1|] eqn:E; [|discriminate].
    inversion Hall as [|? ? Hi Hall']; subst.
    apply (IH r1); try assumption.
    + now apply (framing_inv_step fuel r r1 i).
    + rewrite step_spec in E. destruct (stops r); [discriminate|].
      injection E as <-.
      destruct Hr as (Hs & _).
      assert (Hemit : state_eqb (state r) SPLIT_EMIT = false)
        by (destruct (state r); try reflexivity; contradiction).
      unfold next. cbn [expected_seq]. rewrite Hemit. cbn [andb].
      destruct (state_eqb (state r) SPLIT_IDLE && cfg_seq_check_en i
                && (expected_seq r =? 0)); [now right | exact He].
Qed.

(** Three beats of a valid packet take the machine from reset into
    SPLIT_BODY: the first is registered and starts the packet, byte 0 of
    the second is taken as the message type, and the third is in the input
    registers when the body is to be collected. *)
Lemma body_entry (fuel : nat) (buf0 : Z -> Z) (a b c : inputs) :
  s_axis_tvalid a = true -> Z.testbit (s_axis_tuser a) 0 = true ->
  s_axis_tvalid b = true -> 0 < count_keep (s_axis_tkeep b) ->
  get_msg_length (bits 7 0 (s_axis_tdata b)) <> 0 ->
  exists r3,
    cycles fuel (reset buf0) [a; b; c] = Some r3 /\
    state r3 = SPLIT_BODY /\
    byte_idx r3 = 1 /\ msg_bytes_collected r3 = 1 /\
    cur_msg_type r3 = bits 7 0 (s_axis_tdata b) /\
    cur_msg_len r3 = get_msg_length (bits 7 0 (s_axis_tdata b)) /\
    tvalid_reg r3 = s_axis_tvalid c /\ tkeep_reg r3 = s_axis_tkeep c /\
    tlast_reg r3 = s_axis_tlast c.
Proof.
  intros Hva Hua Hvb Hkb Hlen.
  apply Z.eqb_neq in Hlen. apply Z.ltb_lt in Hkb.
  cbn [cycles]. rewrite step_spec.
  change (stops (reset buf0)) with false. cbv iota.
  set (r1 := next (reset buf0) a (held (reset buf0))).
  assert (S1 : state r1 = SPLIT_IDLE) by reflexivity.
  assert (V1 : tvalid_reg r1 = true) by (cbn; exact Hva).
  assert (U1 : tuser_reg r1 = s_axis_tuser a) by reflexivity.
  assert (W1 : buf_wr_ptr r1 = 0) by reflexivity.
  rewrite step_spec.
  assert (T1 : stops r1 = false) by (unfold stops; rewrite S1; reflexivity).
  rewrite T1.
  set (r2 := next r1 b (held r1)).
  assert (I1 : idle_take r1 = true)
    by (unfold idle_take; rewrite V1, U1, Hua; reflexivity).
  assert (R1 : s_axis_tready r1 = true)
    by (unfold s_axis_tready; rewrite S1, W1; reflexivity).
  assert (S2 : state r2 = SPLIT_HEADER)
    by (unfold r2, next; cbn [state]; rewrite S1, I1; reflexivity).
  assert (V2 : tvalid_reg r2 = true)
    by (unfold r2, next; cbn [tvalid_reg]; rewrite R1; exact Hvb).
  assert (D2 : tdata_reg r2 = s_axis_tdata b)
    by (unfold r2, next; cbn [tdata_reg]; rewrite R1; reflexivity).
  assert (K2 : tkeep_reg r2 = s_axis_tkeep b)
    by (unfold r2, next; cbn [tkeep_reg]; rewrite R1; reflexivity).
  assert (B2 : byte_idx r2 = 0)
    by (unfold r2, next; cbn [byte_idx]; rewrite S1; reflexivity).
  assert (W2 : buf_wr_ptr r2 = 0)
    by (unfold r2, next; cbn [buf_wr_ptr]; rewrite S1; reflexivity).
  rewrite step_spec.
  assert (T2 : stops r2 = false) by (unfold stops; rewrite S2; reflexivity).
  rewrite T2.
  assert (H2 : header_take r2 = true).
  { unfold header_take, valid_byte_count. rewrite V2, B2, K2, Hkb.
    reflexivity. }
  assert (Y2 : input_bytes r2 (byte_idx r2) = bits 7 0 (s_axis_tdata b)).
  { unfold input_bytes. rewrite B2, D2. reflexivity. }
  assert (R2 : s_axis_tready r2 = true)
    by (unfold s_axis_tready; rewrite S2, W2; reflexivity).
  exists (next r2 c (held r2)).
  split; [reflexivity|].
  unfold next at 1 2 3 4 5 6 7 8.
  cbn [state byte_idx msg_bytes_collected cur_msg_type cur_msg_len
       tvalid_reg tkeep_reg tlast_reg].
  rewrite S2, H2, Y2, Hlen, R2, B2.
  repeat split; reflexivity.
Qed.

(** The packet that carries a message stops the splitter: after its three
    beats the machine is in SPLIT_BODY with bytes to collect, and the
    following edge has no next state. *)
Lemma message_stream_stops (fuel : nat) (buf0 : Z -> Z) (n : Z) (i : inputs) :
  0 <= n < 256 ->
  cycles fuel (reset buf0) (message_stream n ++ [i]) = None.
Proof.
  intros Hn.
  assert (Hb : bits 7 0 (sys_event_head n) = 0x53).
  { unfold bits, sys_event_head.
    change (2 ^ 0) with 1. change (2 ^ (7 - 0 + 1)) with 256.
    change (2 ^ 32) with 4294967296.
    replace (83 + n * 4294967296) with (83 + (n * 16777216) * 256) by lia.
    rewrite Z.div_1_r, Z.mod_add by lia. reflexivity. }
  rewrite cycles_app. unfold message_stream.
  destruct (body_entry fuel buf0 (beat 0 0xFF false)
              (beat (sys_event_head n) 0xFF false) (beat 0 0x0F true))
    as (r3 & Hr & S3 & B3 & M3 & _ & L3 & V3 & K3 & _);
    try reflexivity.
  { cbn [s_axis_tdata beat]. rewrite Hb. discriminate. }
  rewrite Hr. cbn [cycles]. rewrite step_spec.
  cbn [s_axis_tdata s_axis_tvalid s_axis_tkeep beat] in L3, V3, K3.
  rewrite Hb in L3.
  assert (T3 : stops r3 = true).
  { unfold stops, body_cond, valid_byte_count.
    rewrite S3, V3, B3, M3, L3, K3. reflexivity. }
  rewrite T3. reflexivity.
Qed.

Lemma gap_stream_stops (fuel : nat) (buf0 : Z -> Z) (i : inputs) :
  cycles fuel (reset buf0) (gap_stream ++ [i]) = None.
Proof. apply message_stream_stops. lia. Qed.

Lemma dupe_stream_stops (fuel : nat) (buf0 : Z -> Z) (i : inputs) :
  cycles fuel (reset buf0) (dupe_stream ++ [i]) = None.
Proof. apply message_stream_stops. lia. Qed.

Lemma in_order_stream_stops (fuel : nat) (buf0 : Z -> Z) (i : inputs) :
  cycles fuel (reset buf0) (in_order_stream ++ [i]) = None.
Proof. apply message_stream_stops. lia. Qed.

(** C6: no sequence gap ever sets the stale flag.  [stale_latch] is set in
    SPLIT_EMIT only, and the machine never gets there: from reset, for
    every input stream and every power-up content of the buffer, in every
    cycle the stream reaches the latch and [status_stale] are clear, no gap
    is flagged or counted and no frame is on offer.  (A stream that brings
    a message body makes the loop of SPLIT_BODY run without end:
    [gap_stream_stops].) *)
Theorem gap_never_sets_stale_latch
    (fuel : nat) (buf0 : Z -> Z) (ins : list inputs) (r : regs) :
  cycles fuel (reset buf0) ins = Some r ->
  stale_latch r = false /\ status_stale r = false /\
  seq_gap_detected r = false /\ stat_seq_gaps r = 0 /\
  m_axis_tvalid r = false.
Proof.
  intros H.
  destruct (framing_inv_cycles fuel ins (reset buf0) r
              (framing_inv_reset buf0) H)
    as (Hs & _ & Hl & Hg & _ & _ & _ & Hsg & _).
  unfold status_stale, m_axis_tvalid, msg_ready.
  repeat split; try assumption.
  destruct (state r); try reflexivity. contradiction.
Qed.

Lemma gap_never_sets_stale_latch_witness :
  cycles 0 (reset blank_buf) gap_stream = Some (after gap_stream) /\
  state (after gap_stream) = SPLIT_BODY /\
  stale_latch (after gap_stream) = false /\
  status_stale (after gap_stream) = false /\
  seq_gap_detected (after gap_stream) = false /\
  stat_seq_gaps (after gap_stream) = 0 /\
  m_axis_tvalid (after gap_stream) = false.
Proof.
  assert (H : cycles 0 (reset blank_buf) gap_stream = Some (after gap_stream))
    by (vm_compute; reflexivity).
  split; [exact H|]. split; [vm_compute; reflexivity|].
  exact (gap_never_sets_stale_latch 0 blank_buf gap_stream (after gap_stream) H).
Defined.

(** C7: no message is forwarded, and none is counted as a duplicate.  From
    reset, for every input stream, in every cycle the stream reaches
    [m_axis_tvalid] is low, so no message is handed downstream;
    [stat_messages] and the duplicates counter are 0, no duplicate is
    flagged, [cur_seq] is 0, and [expected_seq] is 0 or the configured
    value: no message advances it.  (A stream that brings a message body
    makes the loop of SPLIT_BODY run without end: [dupe_stream_stops],
    [in_order_stream_stops].) *)
Theorem no_message_is_forwarded
    (fuel : nat) (buf0 : Z -> Z) (c : Z) (ins : list inputs) (r : regs) :
  Forall (fun i => cfg_expected_seq i = c) ins ->
  cycles fuel (reset buf0) ins = Some r ->
  m_axis_tvalid r = false /\
  (forall i, forwarded r i = false) /\
  stat_messages r = 0 /\
  seq_dupe_detected r = false /\ stat_seq_dupes r = 0 /\
  cur_seq r = 0 /\
  (expected_seq r = 0 \/ expected_seq r = c).
Proof.
  intros Hall H.
  destruct (framing_inv_cycles fuel ins (reset buf0) r
              (framing_inv_reset buf0) H)
    as (Hs & _ & _ & _ & Hd & Hc & Hm & _ & Hsd).
  assert (Hv : m_axis_tvalid r = false).
  { unfold m_axis_tvalid, msg_ready.
    destruct (state r); try reflexivity. contradiction. }
  split; [exact Hv|].
  split; [intros i; unfold forwarded; rewrite Hv; reflexivity|].
  split; [exact Hm|]. split; [exact Hd|]. split; [exact Hsd|].
  split; [exact Hc|].
  apply (expected_seq_cycles fuel c ins (reset buf0) r);
    try assumption.
  - apply framing_inv_reset.
  - left. reflexivity.
Qed.

Lemma no_message_is_forwarded_witness :
  Forall (fun i => cfg_expected_seq i = 1) dupe_stream /\
  cycles 0 (reset blank_buf) dupe_stream = Some (after dupe_stream) /\
  state (after dupe_stream) = SPLIT_BODY /\
  expected_seq (after dupe_stream) = 1 /\
  m_axis_tvalid (after dupe_stream) = false /\
  stat_messages (after dupe_stream) = 0 /\
  stat_seq_dupes (after dupe_stream) = 0.
Proof.
  assert (H1 : Forall (fun i => cfg_expected_seq i = 1) dupe_stream)
    by (repeat constructor).
  assert (H2 : cycles 0 (reset blank_buf) dupe_stream
               = Some (after dupe_stream)) by (vm_compute; reflexivity).
  split; [exact H1|]. split; [exact H2|].
  split; [vm_compute; reflexivity|]. split; [vm_compute; reflexivity|].
  pose proof (no_message_is_forwarded 0 blank_buf 1 dupe_stream
                (after dupe_stream) H1 H2) as (A & _ & B & _ & C & _).
  split; [exact A|]. split; [exact B | exact C].
Defined.

(** X29. A message body stops the splitter.  With three beats of a valid
    packet, byte 0 of the second of a known message type and two or more
    valid bytes in the third, the machine is in SPLIT_BODY on the fourth
    edge with bytes to collect, and the loop that collects them does not
    end, whatever bound is put on its passes: the edge has no next state. *)
Theorem splitter_stops_on_message_body
    (fuel : nat) (buf0 : Z -> Z) (a b c d : inputs) (rest : list inputs) :
  s_axis_tvalid a = true -> Z.testbit (s_axis_tuser a) 0 = true ->
  s_axis_tvalid b = true -> 0 < count_keep (s_axis_tkeep b) ->
  get_msg_length (bits 7 0 (s_axis_tdata b)) <> 0 ->
  s_axis_tvalid c = true -> 1 < count_keep (s_axis_tkeep c) ->
  exists r3,
    cycles fuel (reset buf0) [a; b; c] = Some r3 /\
    state r3 = SPLIT_BODY /\
    cur_msg_len r3 = get_msg_length (bits 7 0 (s_axis_tdata b)) /\
    msg_bytes_collected r3 = 1 /\
    step fuel r3 d = None /\
    cycles fuel (reset buf0) (a :: b :: c :: d :: rest) = None.
Proof.
  intros Hva Hua Hvb Hkb Hlen Hvc Hkc.
  destruct (body_entry fuel buf0 a b c Hva Hua Hvb Hkb Hlen)
    as (r3 & Hr & S3 & B3 & M3 & _ & L3 & V3 & K3 & _).
  assert (T3 : stops r3 = true).
  { unfold stops, body_cond, valid_byte_count.
    rewrite S3, V3, Hvc, B3, M3, L3, K3. cbn [state_eqb andb].
    apply andb_true_iff. split; apply Z.ltb_lt; [exact Hkc|].
    destruct (get_msg_length_range (bits 7 0 (s_axis_tdata b)));
      [contradiction | lia]. }
  assert (N3 : step fuel r3 d = None) by (rewrite step_spec, T3; reflexivity).
  exists r3. repeat split; try assumption.
  change (a :: b :: c :: d :: rest) with ([a; b; c] ++ d :: rest).
  rewrite cycles_app, Hr. cbn [cycles]. rewrite N3. reflexivity.
Qed.

Lemma splitter_stops_on_message_body_witness :
  exists r3,
    cycles 0 (reset blank_buf) in_order_stream = Some r3 /\
    state r3 = SPLIT_BODY /\
    cur_msg_len r3 = get_msg_length (bits 7 0 (sys_event_head 1)) /\
    msg_bytes_collected r3 = 1 /\
    step 0 r3 no_beat = None /\
    cycles 0 (reset blank_buf)
      (beat 0 0xFF false :: beat (sys_event_head 1) 0xFF false
         :: beat 0 0x0F true :: no_beat :: [no_beat]) = None.
Proof.
  apply (splitter_stops_on_message_body 0 blank_buf (beat 0 0xFF false)
           (beat (sys_event_head 1) 0xFF false) (beat 0 0x0F true)
           no_beat [no_beat]).
  - reflexivity.
  - reflexivity.
  - reflexivity.
  - reflexivity.
  - vm_compute. discriminate.
  - reflexivity.
  - reflexivity.
Defined.

End ItchSplitterFacts.

(** ** Decoder and book *)
Section BookTobFacts.
Import BookTob.

(** The example message is what DEC_PARSE extracts from the 'C' message
    bytes: 30 executed shares at price 1 500 000, side and symbol index left
    from the message before. *)
Lemma exec_px_msg_decoded :
  Examples.exec_px_msg
  = ItchDecoder.dec_parse (ItchDecoder.pack_bytes Examples.exec_px_bytes)
      0x43 42 0 7 Examples.bid_side_msg /\
  m_msg_type Examples.exec_px_msg = ITCH_ORDER_EXECUTED_PX /\
  m_qty Examples.exec_px_msg = 30 /\
  m_price Examples.exec_px_msg = 1500000 /\
  m_side Examples.exec_px_msg = SIDE_BID.
Proof. vm_compute. repeat split; reflexivity. Qed.

(** DEC_PARSE on a 'C' message: executed shares from bytes 19..22, execution
    price from bytes 32..35. *)
Lemma dec_parse_exec_px (msg_data msg_seq msg_flags ingress_ts : Z) (d : itch_msg_t) :
  let m := ItchDecoder.dec_parse msg_data 0x43 msg_seq msg_flags ingress_ts d in
  m_msg_type m = ITCH_ORDER_EXECUTED_PX /\
  m_qty m = ItchDecoder.get_be32 msg_data 19 /\
  m_price m = ItchDecoder.get_be32 msg_data 32 /\
  m_side m = m_side d /\ m_symbol_idx m = m_symbol_idx d.
Proof. repeat split; reflexivity. Qed.

(** C8 (counterexample): a 'C' message executing 30 shares at 1 500 000 on
    an entry whose last trade is 5 shares at 1 480 000 takes the bid
    quantity from 100 to 70 and leaves the last trade as it was. *)
Lemma exec_px_does_not_record_trade :
  let u := book_process Examples.some_entry Examples.exec_px_msg in
  m_msg_type Examples.exec_px_msg = ITCH_ORDER_EXECUTED_PX /\
  bid_qty u = 70 /\
  last_trade_px u <> m_price Examples.exec_px_msg /\
  last_trade_qty u <> m_qty Examples.exec_px_msg.
Proof. vm_compute. repeat split; try reflexivity; discriminate. Qed.

(** C8 (amended): processing an Order-Executed-with-Price ('C') message
    subtracts the executed quantity from the top-of-book quantity of the
    message's side, saturating at zero, leaves the other side and both
    prices unchanged, and leaves [last_trade_px] and [last_trade_qty]
    unchanged (only a Trade 'P' message records them). *)
Theorem exec_px_reduces_quantity_only (e : book_entry_t) (m : itch_msg_t) :
  m_msg_type m = ITCH_ORDER_EXECUTED_PX ->
  0 <= m_qty m -> 0 <= bid_qty e < 2 ^ 32 -> 0 <= ask_qty e < 2 ^ 32 ->
  let u := book_process e m in
  (m_side m = SIDE_BID ->
   bid_qty u = Z.max 0 (bid_qty e - m_qty m) /\ ask_qty u = ask_qty e) /\
  (m_side m = SIDE_ASK ->
   ask_qty u = Z.max 0 (ask_qty e - m_qty m) /\ bid_qty u = bid_qty e) /\
  bid_px u = bid_px e /\ ask_px u = ask_px e /\
  last_trade_px u = last_trade_px e /\
  last_trade_qty u = last_trade_qty e /\
  last_update_ts u = m_decode_ts m /\ valid u = true.
Proof.
  intros Ht Hq Hb Ha u. subst u. unfold book_process. rewrite Ht.
  cbn [Z.eqb ITCH_ORDER_EXECUTED_PX ITCH_ADD_ORDER ITCH_ADD_ORDER_MPID
       ITCH_ORDER_EXECUTED Pos.eqb orb].
  assert (Hred : forall cur, 0 <= cur < 2 ^ 32 ->
            reduce_qty cur (m_qty m) = Z.max 0 (cur - m_qty m)).
  { intros cur Hc. unfold reduce_qty.
    destruct (m_qty m <? cur) eqn:E.
    - apply Z.ltb_lt in E. rewrite trunc_small by lia. lia.
    - apply Z.ltb_ge in E. lia. }
  destruct (m_side m); simpl; rewrite Hred by assumption;
    repeat split; try reflexivity; intros; discriminate.
Qed.

Lemma exec_px_reduces_quantity_only_witness :
  m_msg_type Examples.exec_px_msg = ITCH_ORDER_EXECUTED_PX /\
  0 <= m_qty Examples.exec_px_msg /\
  last_trade_px (book_process Examples.some_entry Examples.exec_px_msg)
  = last_trade_px Examples.some_entry.
Proof.
  assert (H1 : m_msg_type Examples.exec_px_msg = ITCH_ORDER_EXECUTED_PX)
    by reflexivity.
  assert (H2 : 0 <= m_qty Examples.exec_px_msg) by (vm_compute; discriminate).
  split; [exact H1|]. split; [exact H2|].
  refine (proj1 (proj2 (proj2 (proj2 (proj2
    (exec_px_reduces_quantity_only Examples.some_entry Examples.exec_px_msg
       H1 H2 _ _)))))); vm_compute; split; (discriminate || reflexivity).
Defined.

End BookTobFacts.

(** ** DMA record: CRC and sequence field *)
Section DmaRecordFacts.

(** [calc_crc16] feeds nothing back from the bit it shifts out: [n] steps
    over zero data bits leave [crc * 2^n] in 16 bits. *)
Lemma crc_loop_zero_bits (data : Z) (n : nat) :
  forall i crc,
    (forall j, i <= j < i + Z.of_nat n -> Z.testbit data j = false) ->
    DmaPcieEp.crc_loop n i data crc
    = match n with O => crc | S _ => trunc 16 (crc * 2 ^ Z.of_nat n) end.
Proof.
  induction n as [|n IH]; intros i crc Hz; [reflexivity|].
  cbn [DmaPcieEp.crc_loop].
  rewrite (Hz i) by lia. rewrite Z.lxor_0_r.
  rewrite IH by (intros j Hj; apply Hz; lia).
  rewrite Z.shiftl_mul_pow2 by lia. change (2 ^ 1) with 2.
  destruct n as [|n].
  - reflexivity.
  - unfold trunc. rewrite Z.mul_mod_idemp_l by (now compute).
    f_equal. rewrite (Nat2Z.inj_succ (S n)).
    rewrite Z.pow_succ_r by lia. ring.
Qed.

Lemma crc_loop_split (data : Z) (a b : nat) :
  forall i crc,
    DmaPcieEp.crc_loop (a + b) i data crc
    = DmaPcieEp.crc_loop b (i + Z.of_nat a) data (DmaPcieEp.crc_loop a i data crc).
Proof.
  induction a as [|a IH]; intros i crc.
  - simpl. now rewrite Z.add_0_r.
  - cbn [Nat.add DmaPcieEp.crc_loop]. rewrite IH. f_equal. lia.
Qed.

(** The result of [calc_crc16] depends on the last 16 data bits only; when
    they are zero it is zero. *)
Lemma calc_crc16_zero (data : Z) :
  0 <= data < 2 ^ 432 -> DmaPcieEp.calc_crc16 data = 0.
Proof.
  intros Hd. unfold DmaPcieEp.calc_crc16.
  change 448%nat with (432 + 16)%nat.
  rewrite crc_loop_split, crc_loop_zero_bits.
  - unfold trunc. change (2 ^ Z.of_nat 16) with (2 ^ 16).
    apply Z.mod_mul. now compute.
  - intros j Hj. apply Z.bits_above_log2; [lia|].
    destruct (Z.eq_dec data 0) as [->|Hn]; [simpl; lia|].
    apply Z.log2_lt_pow2; [lia|].
    apply Z.lt_le_trans with (2 ^ 432); [lia|].
    apply Z.pow_le_mono_r; lia.
Qed.

(** The data bits that dma_pcie_ep passes to [calc_crc16] are bytes 8..63 of
    the record; [reserved_hi] is zero, so the last 16 of them are zero. *)
Lemma ep_crc_input_small (o : risk_output_t) (old : dma_record_t) :
  0 <= bits 511 64 (pack (DmaPcieEp.build_record o old)) < 2 ^ 432.
Proof.
  unfold bits, pack, DmaPcieEp.build_record.
  cbn [seq reserved_lo ts_ing ts_dec sym_idx side flags qty price ref_px
       feature0 feature1 feature2 payload_crc16 pad reserved_hi].
  change (trunc 64 0) with 0. rewrite Z.mul_0_r, Z.add_0_r.
  match goal with
  | |- 0 <= (?p / _) mod _ < _ =>
      assert (Hp : 0 <= p < 2 ^ 448); [|set (pk := p) in *; clearbody pk]
  end.
  { repeat match goal with
      | |- context [trunc ?w ?x] =>
          let H := fresh "H" in
          let t := fresh "t" in
          pose proof (trunc_range w x ltac:(lia)) as H;
          set (t := trunc w x) in *; clearbody t
      end.
    change (2 ^ 8) with 256 in *. change (2 ^ 16) with 65536 in *.
    change (2 ^ 32) with 4294967296 in *.
    change (2 ^ 64) with 18446744073709551616 in *.
    cbv beta in *.
    repeat match goal with
      | |- context [2 ^ ?n] =>
          let v := eval compute in (2 ^ n) in change (2 ^ n) with v
      end.
    lia. }
  split.
  - apply Z.mod_pos_bound. now compute.
  - assert (Hq : 0 <= pk / 2 ^ 64 < 2 ^ 384).
    { split.
      - apply Z.div_pos; [lia | now compute].
      - apply Z.div_lt_upper_bound; [now compute|].
        rewrite <- Z.pow_add_r by lia. exact (proj2 Hp). }
    rewrite Z.mod_small.
    + apply Z.lt_le_trans with (2 ^ 384); [lia|].
      apply Z.pow_le_mono_r; lia.
    + split; [lia|].
      apply Z.lt_le_trans with (2 ^ 384); [lia|].
      apply Z.pow_le_mono_r; lia.
Qed.

(** Every record that dma_pcie_ep builds gets the CRC value 0. *)
Lemma ep_crc_is_always_zero (o : risk_output_t) (old : dma_record_t) :
  DmaPcieEp.calc_crc16 (bits 511 64 (pack (DmaPcieEp.build_record o old))) = 0.
Proof. apply calc_crc16_zero, ep_crc_input_small. Qed.

(** The example state of dma_pcie_ep is reached from reset and presents
    its write. *)
Lemma ep_writing_is_reached :
  Examples.ep_writing
  = run DmaPcieEp.step DmaPcieEp.reset (repeat Examples.ep_in 5) /\
  DmaPcieEp.avm_write Examples.ep_writing = true /\
  DmaPcieEp.record_build Examples.ep_writing
  = DmaPcieEp.build_record Examples.some_decision dma_record_zero.
Proof. vm_compute. repeat split; reflexivity. Qed.

(** C2 (code evaluated at the failing input): the record that dma_pcie_ep
    writes for the example decision carries 0 in [payload_crc16], while
    CRC-16-CCITT of its bytes 0..51 is 7649;
    the record that pcie_dma builds for the same decision carries 0 as
    well, against a CRC-16-CCITT of 19617. *)
Theorem payload_crc_is_not_ccitt :
  DmaPcieEp.avm_write Examples.ep_writing = true /\
  packed_crc (DmaPcieEp.avm_writedata Examples.ep_writing) = 0 /\
  crc16_ccitt (record_bytes (DmaPcieEp.avm_writedata Examples.ep_writing) 52)
  = 7649 /\
  packed_crc (pack (PcieDma.record_buf_of Examples.some_decision)) = 0 /\
  crc16_ccitt (record_bytes (pack (PcieDma.record_buf_of Examples.some_decision)) 52)
  = 19617.
Proof. vm_compute. repeat split; reflexivity. Qed.

(** The DMA record of a message does not depend on its ITCH sequence
    number: the book event carries none. *)
Lemma record_ignores_seq_num (m : itch_msg_t) (n : Z)
    (e : BookTob.book_entry_t) (acc : bool) (reason : risk_reason_e) (dts : Z) :
  Pipeline.decision_for (Pipeline.with_seq_num m n) e acc reason dts
  = Pipeline.decision_for m e acc reason dts.
Proof. reflexivity. Qed.

(** C9 (code evaluated at the failing input): the example decision is the
    one triggered by the message with ITCH sequence number 42, ingress
    timestamp 7 and symbol index 3.  dma_pcie_ep writes 7, the low 32 bits
    of the ingress timestamp, into bytes 0..3 of its record; pcie_dma
    writes 3, the symbol index. *)
Theorem record_seq_is_not_itch_sequence :
  let r := run PcieDma.step (PcieDma.reset Examples.mem0)
             (repeat (Examples.dma_in true 0) 4) in
  m_seq_num Examples.exec_px_msg = 42 /\
  Examples.some_decision
  = Pipeline.decision_for Examples.exec_px_msg Examples.some_entry
      true RISK_ACCEPT 9 /\
  DmaPcieEp.avm_write Examples.ep_writing = true /\
  packed_seq (DmaPcieEp.avm_writedata Examples.ep_writing) = 7 /\
  PcieDma.pcie_write r = true /\
  PcieDma.fifo_data_out r = Examples.some_decision /\
  packed_seq (PcieDma.pcie_writedata r) = 3.
Proof. vm_compute. repeat split; reflexivity. Qed.

End DmaRecordFacts.

(** ** pcie_dma: the publisher ring *)
Section PcieDmaFacts.
Import PcieDma.

Lemma trunc_trunc (w x : Z) : 0 <= w -> trunc w (trunc w x) = trunc w x.
Proof.
  intros Hw. unfold trunc. apply Z.mod_mod.
  apply Z.pow_nonzero; lia.
Qed.

(** Two counts at most [N - 1] apart agree modulo [N] only when equal. *)
Lemma mod_eq_close (N a b : Z) :
  0 < N -> 0 <= a - b < N -> a mod N = b mod N -> a = b.
Proof.
  intros HN Hd He.
  pose proof (Z.div_mod a N ltac:(lia)) as Ha.
  pose proof (Z.div_mod b N ltac:(lia)) as Hb.
  rewrite He in Ha.
  assert (a - b = N * (a / N - b / N)) by lia.
  assert (a / N - b / N = 0) by nia.
  lia.
Qed.

(** Successor index and fullness, in terms of the counts. *)
Lemma succ_mod_full (N P C : Z) :
  0 < N -> 0 <= C <= P -> P - C <= N - 1 ->
  ((P + 1) mod N = C mod N <-> P - C = N - 1).
Proof.
  intros HN HC HP. split.
  - intros He.
    destruct (Z.eq_dec (P - C) (N - 1)) as [|Hne]; [assumption|].
    assert (P + 1 = C) by (apply (mod_eq_close N); [lia | lia | assumption]).
    lia.
  - intros He. replace (P + 1) with (C + 1 * N) by lia.
    now rewrite Z.mod_add by lia.
Qed.

Section FixedRing.
Variables (k N : Z).
Hypothesis Hk : 0 <= k <= 16.
Hypothesis HN : N = 2 ^ k.

Lemma ring_size_pos : 0 < N <= 2 ^ 16.
Proof.
  subst N. split.
  - apply Z.pow_pos_nonneg; lia.
  - apply Z.pow_le_mono_r; lia.
Qed.

(** [next_prod_idx] is the successor modulo the ring size. *)
Lemma next_prod_idx_mod (r : regs) (i : inputs) :
  cfg_ring_size i = trunc IDX_WIDTH N -> 0 <= prod_idx r < N ->
  next_prod_idx r i = (prod_idx r + 1) mod N.
Proof.
  intros Hc Hp. pose proof ring_size_pos as HNb.
  assert (H16 : 2 ^ 16 = 65536) by reflexivity.
  assert (H32 : 2 ^ 32 = 4294967296) by reflexivity.
  unfold next_prod_idx, IDX_WIDTH in *. rewrite Hc.
  rewrite (trunc_small 32 (prod_idx r + 1)) by lia.
  rewrite trunc_trunc by lia.
  destruct (Z.eq_dec k 16) as [->|Hk16].
  - subst N. change (trunc 16 (2 ^ 16)) with 0.
    change (trunc 32 (0 - 1)) with (Z.ones 32).
    rewrite Z.land_ones by lia. rewrite Z.mod_small by lia.
    reflexivity.
  - assert (HNlt : N < 2 ^ 16).
    { subst N. apply Z.pow_lt_mono_r; lia. }
    rewrite (trunc_small 16 N) by lia.
    rewrite (trunc_small 32 (N - 1)) by lia.
    replace (N - 1) with (Z.ones k)
      by (rewrite Z.ones_equiv; subst N; lia).
    rewrite Z.land_ones by lia. rewrite <- HN.
    apply trunc_small.
    pose proof (Z.mod_pos_bound (prod_idx r + 1) N ltac:(lia)). lia.
Qed.

(** The invariant holds after reset and is kept by every cycle. *)
Lemma ring_inv_reset (mem0 : Z -> risk_output_t) : ring_inv N (reset mem0) 0 0.
Proof.
  pose proof ring_size_pos. unfold ring_inv. simpl.
  rewrite Z.mod_0_l by lia. repeat split; try lia. discriminate.
Qed.

Lemma ring_inv_step (r : regs) (P C C' : Z) (i : inputs) :
  ring_inv N r P C ->
  cfg_ring_size i = trunc IDX_WIDTH N ->
  C <= C' <= P -> trunc IDX_WIDTH (status_cons_idx i) = C' mod N ->
  ring_inv N (step r i) (if is_update r then P + 1 else P) C'.
Proof.
  intros (Hp & Hc & HCP & Hocc & Hfl) Hsz HC' Hst.
  pose proof ring_size_pos as HNb.
  assert (Hpr : 0 <= prod_idx r < N).
  { rewrite Hp. apply Z.mod_pos_bound. lia. }
  pose proof (next_prod_idx_mod r i Hsz Hpr) as Hnext.
  assert (Hnext' : next_prod_idx r i = (P + 1) mod N).
  { rewrite Hnext, Hp. apply Z.add_mod_idemp_l. lia. }
  unfold ring_inv.
  assert (Hcons : cons_idx_sync (step r i) = C' mod N).
  { unfold step. simpl. exact Hst. }
  assert (Hprod : prod_idx (step r i) = (if is_update r then P + 1 else P) mod N).
  { unfold step. simpl. destruct (is_update r); [exact Hnext' | exact Hp]. }
  split; [exact Hprod|]. split; [exact Hcons|].
  assert (Hfull : ring_full r i = false -> P - C <= N - 2).
  { unfold ring_full. rewrite Hnext', Hc. intros Hf.
    apply Z.eqb_neq in Hf.
    pose proof (succ_mod_full N P C ltac:(lia) HCP Hocc) as [_ Hb].
    destruct (Z.eq_dec (P - C) (N - 1)) as [He|]; [|lia].
    elim Hf. now apply Hb. }
  unfold in_flight, is_update, ring_accept, is_idle in *.
  unfold step. cbn [state].
  destruct (state r) eqn:Es; cbn [negb andb] in *.
  - (* DMA_IDLE *)
    unfold ring_accept, is_idle. rewrite Es.
    destruct (fifo_empty r), (ring_full r i) eqn:Ef, (cfg_enable i);
      cbn [negb andb]; repeat split; try lia; try discriminate;
      intros _; specialize (Hfull eq_refl); lia.
  - specialize (Hfl eq_refl). repeat split; lia.
  - specialize (Hfl eq_refl).
    destruct (pcie_waitrequest i); repeat split; lia.
  - specialize (Hfl eq_refl).
    destruct (pcie_waitrequest i); repeat split; lia.
  - repeat split; try lia; try discriminate.
  - specialize (Hfl eq_refl). repeat split; try lia; try discriminate.
Qed.

Lemma ring_run_inv (mem0 : Z -> risk_output_t) (r : regs) (P C : Z) :
  ring_run N mem0 r P C -> ring_inv N r P C.
Proof.
  induction 1 as [|r P C i C' Hrun IH Hsz HC Hst].
  - apply ring_inv_reset.
  - now apply ring_inv_step with (C := C).
Qed.

End FixedRing.

(** The example states are reached from reset. *)
Lemma ring_examples_reached :
  PcieDma.state (run step (reset Examples.mem0) Examples.fill_trace) = DMA_IDLE /\
  prod_idx (run step (reset Examples.mem0) Examples.fill_trace) = 3 /\
  stat_records_dma (run step (reset Examples.mem0) Examples.fill_trace) = 3.
Proof. vm_compute. repeat split; reflexivity. Qed.

(** C1 (counterexample): pcie_dma with a ring of 4 entries and an idle
    consumer.  After three records the ring reports full although
    producer - consumer = 3, not 4: the record waiting in the input FIFO
    is not taken and the block stays in DMA_IDLE.  Once the host has
    consumed the three records and two more are published, the producer
    index has wrapped to 1 and is below the consumer index 3. *)
Lemma ring_full_before_ring_len :
  let r := run step (reset Examples.mem0) Examples.fill_trace in
  let r' := run step (reset Examples.mem0) Examples.drain_trace in
  cfg_ring_size (Examples.dma_in true 0) = 4 /\
  prod_idx r - cons_idx_sync r = 3 /\
  ring_full r (Examples.dma_in true 0) = true /\
  fifo_empty r = false /\
  PcieDma.state r = DMA_IDLE /\
  PcieDma.state (step r (Examples.dma_in true 0)) = DMA_IDLE /\
  stat_records_dma r' = 5 /\
  prod_idx r' = 1 /\ cons_idx_sync r' = 3 /\ prod_idx r' < cons_idx_sync r'.
Proof. vm_compute. repeat split; reflexivity. Qed.

(** C1 (amended): pcie_dma keeps both indices modulo RING_LEN and holds one
    slot back.  For a ring size RING_LEN = N = 2^k that stays fixed and a
    consumer that only moves forward over published records, the producer
    and consumer indices are the counts P of records published and C of
    records consumed, modulo N; always C <= P and P - C <= N - 1; the ring
    is full exactly when P - C = N - 1, that is when
    (producer + 1) mod N = consumer, and empty exactly when the indices are
    equal; and a record waiting in the input FIFO is taken into the ring
    whenever fewer than N - 1 slots are occupied. *)
Theorem ring_occupancy_invariant
    (k N : Z) (mem0 : Z -> risk_output_t) (r : regs) (P C : Z) :
  0 <= k <= 16 -> N = 2 ^ k ->
  ring_run N mem0 r P C ->
  prod_idx r = P mod N /\ cons_idx_sync r = C mod N /\
  0 <= C <= P /\ P - C <= N - 1 /\
  (ring_empty r = true <-> P = C) /\
  (forall i, cfg_ring_size i = trunc IDX_WIDTH N ->
     (ring_full r i = true <-> P - C = N - 1) /\
     (ring_full r i = true <-> (prod_idx r + 1) mod N = cons_idx_sync r) /\
     (PcieDma.state r = DMA_IDLE -> fifo_empty r = false ->
      cfg_enable i = true -> P - C < N - 1 ->
      PcieDma.state (step r i) = DMA_BUILD)).
Proof.
  intros Hk HN Hrun.
  pose proof (ring_size_pos k N Hk HN) as HNb.
  destruct (ring_run_inv k N Hk HN mem0 r P C Hrun)
    as (Hp & Hc & HCP & Hocc & _).
  split; [exact Hp|]. split; [exact Hc|]. split; [exact HCP|].
  split; [exact Hocc|]. split.
  { unfold ring_empty. rewrite Z.eqb_eq, Hp, Hc. split.
    - intros He. apply (mod_eq_close N); [lia | lia | exact He].
    - now intros ->. }
  intros i Hsz.
  assert (Hpr : 0 <= prod_idx r < N).
  { rewrite Hp. apply Z.mod_pos_bound. lia. }
  pose proof (next_prod_idx_mod k N Hk HN r i Hsz Hpr) as Hnext.
  assert (Hnext' : next_prod_idx r i = (P + 1) mod N).
  { rewrite Hnext, Hp. apply Z.add_mod_idemp_l. lia. }
  assert (Hfull : ring_full r i = true <-> P - C = N - 1).
  { unfold ring_full. rewrite Z.eqb_eq, Hnext', Hc.
    apply succ_mod_full; lia. }
  split; [exact Hfull|]. split.
  { unfold ring_full. rewrite Z.eqb_eq, Hnext. reflexivity. }
  intros Hs He Hen Hlt.
  assert (Hnf : ring_full r i = false).
  { apply not_true_is_false. intros E. apply Hfull in E. lia. }
  unfold step. cbn [PcieDma.state]. rewrite Hs.
  unfold ring_accept, is_idle. now rewrite Hs, He, Hnf, Hen.
Qed.

Lemma ring_occupancy_invariant_witness :
  0 <= 2 <= 16 /\ 4 = 2 ^ 2 /\
  ring_run 4 Examples.mem0
    (step (reset Examples.mem0) (Examples.dma_in true 0)) 0 0 /\
  prod_idx (step (reset Examples.mem0) (Examples.dma_in true 0)) = 0 mod 4.
Proof.
  assert (H1 : 0 <= 2 <= 16) by lia.
  assert (H2 : 4 = 2 ^ 2) by reflexivity.
  assert (H3 : ring_run 4 Examples.mem0
                 (step (reset Examples.mem0) (Examples.dma_in true 0)) 0 0).
  { apply (ring_run_step 4 Examples.mem0 (reset Examples.mem0) 0 0
             (Examples.dma_in true 0) 0).
    - apply ring_run_reset.
    - reflexivity.
    - lia.
    - reflexivity. }
  split; [exact H1|]. split; [exact H2|]. split; [exact H3|].
  exact (proj1 (ring_occupancy_invariant 2 4 Examples.mem0 _ 0 0 H1 H2 H3)).
Defined.

End PcieDmaFacts.

(** ** Symbol table *)
Section SymtabCamFacts.
Import SymtabCam.

Lemma addr_at_succ (h : Z) (j : nat) :
  addr_at (next_addr h) j = addr_at h (S j).
Proof. unfold addr_at. symmetry. apply Nat.iter_succ_r. Qed.

Lemma chain_succ (valid : Z -> bool) (h : Z) (j : nat) :
  valid h = true -> chain valid (next_addr h) j -> chain valid h (S j).
Proof.
  intros Hh Hc j' Hj. destruct j' as [|j'].
  - exact Hh.
  - rewrite <- addr_at_succ. apply Hc. lia.
Qed.

Lemma chain_tail (valid : Z -> bool) (h : Z) (j : nat) :
  chain valid h (S j) -> valid h = true /\ chain valid (next_addr h) j.
Proof.
  intros Hc. split.
  - apply (Hc O). lia.
  - intros j' Hj. rewrite addr_at_succ. apply Hc. lia.
Qed.

(** What the load loop finds. *)
Lemma find_slot_some (valid : Z -> bool) (n : nat) :
  forall h a, find_slot valid h n = Some a ->
    exists j, (j < n)%nat /\ a = addr_at h j /\ chain valid h j /\ valid a = false.
Proof.
  induction n as [|n IH]; intros h a H; [discriminate|].
  cbn [find_slot] in H. destruct (valid h) eqn:Ev; cbn [negb] in H.
  - destruct (IH _ _ H) as (j & Hj & Ha & Hc & Hv).
    exists (S j). repeat split; try lia.
    + now rewrite <- addr_at_succ.
    + now apply chain_succ.
    + exact Hv.
  - injection H as <-. exists O. repeat split; try lia.
    + intros j' Hj. lia.
    + exact Ev.
Qed.

Lemma find_slot_none (valid : Z -> bool) (n : nat) :
  forall h, find_slot valid h n = None <-> chain valid h n.
Proof.
  induction n as [|n IH]; intros h.
  - split; [intros _ j' Hj; lia | reflexivity].
  - cbn [find_slot]. destruct (valid h) eqn:Ev; cbn [negb].
    + rewrite IH. split.
      * now apply chain_succ.
      * intros Hc. now apply chain_tail in Hc.
    + split; [discriminate|]. intros Hc. apply chain_tail in Hc.
      destruct Hc as [Hc _]. congruence.
Qed.


(** A hit of the probing names an occupied slot holding the key. *)
Lemma probe_some (t : cam_table) (key : Z) (n : nat) :
  forall h v, fst (probe t key h n) = Some v ->
    exists a, cam_valid t a = true /\ cam_keys t a = key /\ cam_values t a = v.
Proof.
  induction n as [|n IH]; intros h v H; [discriminate|].
  cbn [probe] in H.
  destruct (cam_valid t h) eqn:Ev; cbn [andb negb] in H.
  - destruct (cam_keys t h =? key) eqn:Ek.
    + cbn in H. injection H as <-. exists h. apply Z.eqb_eq in Ek. auto.
    + destruct n as [|n']; [discriminate|].
      destruct (probe t key (next_addr h) (S n')) as [res m] eqn:Ep.
      cbn in H. apply (IH (next_addr h) v). now rewrite Ep.
  - discriminate.
Qed.

(** With the key on its probe sequence behind occupied slots, the probing
    hits, at that slot or at an earlier one holding the same key. *)
Lemma probe_hit (t : cam_table) (key : Z) (n : nat) :
  forall h j, (j < n)%nat -> chain (cam_valid t) h j ->
    cam_valid t (addr_at h j) = true -> cam_keys t (addr_at h j) = key ->
    exists v, fst (probe t key h n) = Some v.
Proof.
  induction n as [|n IH]; intros h j Hj Hc Hv Hk; [lia|].
  cbn [probe].
  destruct j as [|j].
  - cbn in Hv, Hk. rewrite Hv, Hk, Z.eqb_refl. cbn. eauto.
  - apply chain_tail in Hc. destruct Hc as [Hh Hc].
    rewrite Hh. cbn [andb negb].
    destruct (cam_keys t h =? key); [cbn; eauto|].
    destruct n as [|n']; [lia|].
    destruct (IH (next_addr h) j) as [v Hp]; try assumption; try lia.
    + now rewrite addr_at_succ.
    + now rewrite addr_at_succ.
    + destruct (probe t key (next_addr h) (S n')) as [res m].
      cbn in Hp |- *. eauto.
Qed.

Lemma probe_cycles (t : cam_table) (key : Z) (n : nat) :
  forall h, (1 <= n)%nat -> (1 <= snd (probe t key h n) <= n)%nat.
Proof.
  induction n as [|n IH]; intros h Hn; [lia|].
  cbn [probe].
  destruct (cam_valid t h && (cam_keys t h =? key)); [cbn; lia|].
  destruct (negb (cam_valid t h)); [cbn; lia|].
  destruct n as [|n']; [cbn; lia|].
  specialize (IH (next_addr h) ltac:(lia)).
  destruct (probe t key (next_addr h) (S n')) as [res m]. cbn in IH |- *. lia.
Qed.



(** Without a commit the buffer in use is the same after the edge. *)
Lemma step_active_table (r : regs) (i : inputs) :
  commit i = false ->
  active_buffer (step r i) = active_buffer r /\
  active_table (step r i) = active_table r.
Proof.
  intros Hc. unfold active_table, step. cbn. rewrite Hc.
  destruct (active_buffer r); auto.
Qed.

(** The probing of the lookup machine, from a LKP_PROBE state with [n]
    probes left, follows [probe]. *)
Lemma lookup_probe_run (n : nat) :
  forall r ins,
    lkp_state r = LKP_PROBE ->
    lkp_probe_cnt r = Z.of_nat MAX_PROBES - Z.of_nat n ->
    (1 <= n <= MAX_PROBES)%nat ->
    Forall no_commit ins -> (n <= length ins)%nat ->
    let res := probe (active_table r) (lkp_key_reg r) (lkp_probe_addr r) n in
    let r' := run step r (firstn (snd res) ins) in
    lkp_state r' = LKP_DONE /\
    lkp_found r' = hit_of (fst res) /\
    lkp_result_idx r' =
      match fst res with Some v => v | None => lkp_result_idx r end /\
    active_table r' = active_table r.
Proof.
  induction n as [|n IH]; intros r ins Hs Hcnt Hn Hnc Hlen; [lia|].
  destruct ins as [|i ins]; [cbn in Hlen; lia|].
  inversion Hnc as [|? ? Hi Hnc']; subst.
  destruct (step_active_table r i Hi) as [_ Hact].
  cbn [probe]. cbv zeta.
  destruct (cam_valid (active_table r) (lkp_probe_addr r)
            && (cam_keys (active_table r) (lkp_probe_addr r) =? lkp_key_reg r))
    eqn:Em.
  { cbn [snd fst firstn]. rewrite run_cons. cbn [run fold_left].
    repeat split; try assumption; unfold step; cbn; rewrite Hs;
      unfold probe_match; rewrite Em; reflexivity. }
  destruct (negb (cam_valid (active_table r) (lkp_probe_addr r))) eqn:Ev.
  { cbn [snd fst firstn]. rewrite run_cons. cbn [run fold_left].
    repeat split; try assumption; unfold step; cbn; rewrite Hs;
      unfold probe_match, probe_stop; rewrite ?Em, ?Ev; reflexivity. }
  destruct n as [|n'].
  { cbn [snd fst firstn]. rewrite run_cons. cbn [run fold_left].
    assert (Hstop : probe_stop r = true).
    { unfold probe_stop. rewrite Ev, Hcnt. reflexivity. }
    repeat split; try assumption; unfold step; cbn; rewrite Hs;
      unfold probe_match; rewrite ?Em, ?Hstop; reflexivity. }
  assert (Hstop : probe_stop r = false).
  { unfold probe_stop. rewrite Ev. cbn [orb]. apply Z.leb_gt.
    rewrite Hcnt. unfold MAX_PROBES in *. lia. }
  set (r1 := step r i).
  assert (H1 : lkp_state r1 = LKP_PROBE /\
               lkp_probe_cnt r1 = lkp_probe_cnt r + 1 /\
               lkp_probe_addr r1 = next_addr (lkp_probe_addr r) /\
               lkp_key_reg r1 = lkp_key_reg r /\
               lkp_found r1 = lkp_found r /\
               lkp_result_idx r1 = lkp_result_idx r).
  { unfold r1, step; cbn; rewrite Hs; unfold probe_match;
      rewrite Em, Hstop; cbn.
    repeat split. apply trunc_small. rewrite Hcnt.
    unfold MAX_PROBES in *. lia. }
  destruct H1 as (Hs1 & Hc1 & Ha1 & Hk1 & _ & Hr1).
  specialize (IH r1 ins Hs1). cbv zeta in IH. fold r1 in Hact.
  rewrite Hact, Hk1, Ha1, Hr1 in IH.
  destruct (probe (active_table r) (lkp_key_reg r)
              (next_addr (lkp_probe_addr r)) (S n')) as [res m] eqn:Ep.
  cbn [snd fst firstn]. rewrite run_cons. fold r1.
  cbn [snd fst] in IH. apply IH.
  - rewrite Hc1, Hcnt. lia.
  - lia.
  - assumption.
  - cbn in Hlen. lia.
Qed.

(** Loads keep the buffer well formed. *)
Lemma table_insert_inv (pairs : list (Z * Z)) (t : cam_table) (k v : Z) :
  table_inv pairs t -> table_inv (pairs ++ [(k, v)]) (table_insert t k v).
Proof.
  intros Hinv. unfold table_insert.
  destruct (find_slot (cam_valid t) (hash_func k) MAX_PROBES) as [addr|] eqn:Ef.
  - apply find_slot_some in Ef. destruct Ef as (j & Hj & Ha & Hc & Hv).
    intros a Hval. cbn in Hval |- *.
    destruct (a =? addr) eqn:Ea.
    + apply Z.eqb_eq in Ea. subst a. split.
      * apply in_or_app. right. now left.
      * exists j. repeat split; try assumption.
        intros j' Hj'. destruct (addr_at (hash_func k) j' =? addr); [reflexivity|].
        now apply Hc.
    + destruct (Hinv a Hval) as (Hin & j' & Hj' & Ha' & Hc').
      split; [apply in_or_app; now left|].
      exists j'. repeat split; try assumption.
      intros j'' Hj''.
      destruct (addr_at (hash_func (cam_keys t a)) j'' =? addr); [reflexivity|].
      now apply Hc'.
  - intros a Hval. destruct (Hinv a Hval) as (Hin & Hrest).
    split; [apply in_or_app; now left | exact Hrest].
Qed.

(** A load never removes or overwrites an entry. *)
Lemma table_insert_keeps (t : cam_table) (k v key : Z) :
  key_present t key -> key_present (table_insert t k v) key.
Proof.
  intros (a & Hv & Hk). unfold table_insert.
  destruct (find_slot (cam_valid t) (hash_func k) MAX_PROBES) as [addr|] eqn:Ef;
    [|exists a; auto].
  apply find_slot_some in Ef. destruct Ef as (j & _ & _ & _ & Hfree).
  exists a. cbn. destruct (a =? addr) eqn:Ea.
  - apply Z.eqb_eq in Ea. congruence.
  - auto.
Qed.

Lemma table_insert_present (t : cam_table) (k v : Z) :
  insert_found t k = true -> key_present (table_insert t k v) k.
Proof.
  unfold insert_found, table_insert.
  destruct (find_slot (cam_valid t) (hash_func k) MAX_PROBES) as [addr|];
    [intros _|discriminate].
  exists addr. cbn. rewrite Z.eqb_refl. auto.
Qed.

Lemma nodup_keys_value (pairs : list (Z * Z)) (k v v' : Z) :
  NoDup (map fst pairs) -> In (k, v) pairs -> In (k, v') pairs -> v = v'.
Proof.
  induction pairs as [|[k0 v0] ps IH]; intros Hnd H1 H2; [contradiction|].
  cbn in Hnd. inversion Hnd as [|? ? Hnot Hnd']; subst.
  destruct H1 as [H1|H1], H2 as [H2|H2].
  - congruence.
  - injection H1 as -> ->. exfalso. apply Hnot.
    change k with (fst (k, v')). now apply in_map.
  - injection H2 as -> ->. exfalso. apply Hnot.
    change k with (fst (k, v)). now apply in_map.
  - now apply IH.
Qed.

(** Probing a well-formed buffer for a key it holds returns the index the
    key was loaded with. *)
Lemma table_lookup_loaded (pairs : list (Z * Z)) (t : cam_table) (k v : Z) :
  table_inv pairs t -> NoDup (map fst pairs) -> In (k, v) pairs ->
  key_present t k ->
  fst (probe t k (hash_func k) MAX_PROBES) = Some v.
Proof.
  intros Hinv Hnd Hin (a & Hv & Hk).
  destruct (Hinv a Hv) as (_ & j & Hj & Ha & Hc). rewrite Hk in Ha, Hc.
  destruct (probe_hit t k MAX_PROBES (hash_func k) j Hj Hc) as [v' Hp].
  - now rewrite <- Ha.
  - now rewrite <- Ha.
  - rewrite Hp. f_equal.
    destruct (probe_some _ _ _ _ _ Hp) as (b & Hvb & Hkb & Hvalb).
    destruct (Hinv b Hvb) as (Hinb & _). rewrite Hkb, Hvalb in Hinb.
    exact (nodup_keys_value pairs k v' v Hnd Hinb Hin).
Qed.

(** Probing a well-formed buffer for a key that was not loaded misses. *)
Lemma table_lookup_absent (pairs : list (Z * Z)) (t : cam_table) (k : Z) :
  table_inv pairs t -> ~ In k (map fst pairs) ->
  fst (probe t k (hash_func k) MAX_PROBES) = None.
Proof.
  intros Hinv Hnot.
  destruct (fst (probe t k (hash_func k) MAX_PROBES)) as [v|] eqn:Hp;
    [|reflexivity].
  destruct (probe_some _ _ _ _ _ Hp) as (b & Hvb & Hkb & Hvalb).
  destruct (Hinv b Hvb) as (Hinb & _). exfalso. apply Hnot.
  rewrite <- Hkb. change (cam_keys t b) with (fst (cam_keys t b, cam_values t b)).
  now apply in_map.
Qed.


Lemma step_load_cycle (r : regs) (k v : Z) :
  load_count r < NUM_ENTRIES ->
  shadow_table (step r (load_cycle k v)) = table_insert (shadow_table r) k v /\
  load_count (step r (load_cycle k v)) =
    (if insert_found (shadow_table r) k
     then trunc 11 (load_count r + 1) else load_count r) /\
  active_table (step r (load_cycle k v)) = active_table r /\
  lkp_state (step r (load_cycle k v)) =
    match lkp_state r with
    | LKP_IDLE => LKP_IDLE
    | LKP_PROBE => if probe_match r || probe_stop r then LKP_DONE else LKP_PROBE
    | LKP_DONE => LKP_IDLE
    end.
Proof.
  intros Hc. apply Z.ltb_lt in Hc.
  unfold step, load_ready, shadow_table, active_table. cbn. rewrite Hc. cbn.
  destruct (active_buffer r); repeat split; destruct (lkp_state r); reflexivity.
Qed.

(** The loading phase: the shadow buffer stays well formed, the counter
    counts the loads that found a slot, and when it counts all of them
    every key is in the buffer. *)
Lemma load_all_run (pairs : list (Z * Z)) (r0 : regs) :
  table_empty (shadow_table r0) -> load_count r0 = 0 ->
  (length pairs <= 1024)%nat ->
  let r1 := run step r0 (load_all pairs) in
  table_inv pairs (shadow_table r1) /\
  0 <= load_count r1 <= Z.of_nat (length pairs) /\
  (load_count r1 = Z.of_nat (length pairs) ->
   forall k, In k (map fst pairs) -> key_present (shadow_table r1) k) /\
  active_table r1 = active_table r0 /\
  (lkp_state r0 = LKP_IDLE -> lkp_state r1 = LKP_IDLE).
Proof.
  intros Hempty Hc0. induction pairs as [|[k v] ps IH] using rev_ind; intros Hlen.
  - cbn. split; [|split; [lia|split; [|split; auto]]].
    + intros a Ha. rewrite Hempty in Ha. discriminate.
    + intros _ k []. 
  - rewrite length_app in Hlen |- *. cbn [length] in Hlen |- *.
    unfold load_all. rewrite map_app, run_app. cbn [map fst snd].
    fold (load_all ps). rewrite run_cons. cbn [run fold_left].
    destruct (IH ltac:(lia)) as (Hinv & Hcnt & Hall & Hact & Hst).
    set (r := run step r0 (load_all ps)) in *.
    destruct (step_load_cycle r k v) as (Hsh & Hlc & Hac & Hls);
      [unfold NUM_ENTRIES; lia|].
    rewrite Hsh, Hlc, Hac, Hls.
    assert (Hinc : trunc 11 (load_count r + 1) = load_count r + 1).
    { apply trunc_small. change (2 ^ 11) with 2048. lia. }
    rewrite Hinc.
    split; [now apply table_insert_inv|].
    split; [destruct (insert_found (shadow_table r) k); lia|].
    split; [|split; [exact Hact | intros H0; now rewrite (Hst H0)]].
    intros Heq key Hin.
    destruct (insert_found (shadow_table r) k) eqn:Ei; [|lia].
    rewrite map_app in Hin. apply in_app_or in Hin. destruct Hin as [Hin|Hin].
    + apply table_insert_keeps. apply Hall; [lia | exact Hin].
    + cbn in Hin. destruct Hin as [<-|[]]. now apply table_insert_present.
Qed.

(** A commit cycle: the shadow buffer becomes the buffer lookups read, and
    the buffer given up comes back empty. *)
Lemma step_commit (r : regs) (i : inputs) :
  commit i = true ->
  active_table (step r i) = shadow_table r /\
  table_empty (shadow_table (step r i)) /\
  load_count (step r i) = 0.
Proof.
  intros Hc. unfold step, load_ready, active_table, shadow_table, table_empty.
  cbn. rewrite Hc. cbn. rewrite andb_false_r.
  destruct (active_buffer r); cbn; auto.
Qed.

(** A lookup request in LKP_IDLE, then the probing. *)
Lemma lookup_run (r : regs) (key : Z) (ins : list inputs) :
  lkp_state r = LKP_IDLE ->
  Forall no_commit ins -> (MAX_PROBES <= length ins)%nat ->
  let res := probe (active_table r) key (hash_func key) MAX_PROBES in
  let r' := run step (step r (lookup_cycle key)) (firstn (snd res) ins) in
  lookup_ready r' = true /\
  lookup_hit r' = hit_of (fst res) /\
  lookup_idx r' =
    match fst res with Some v => v | None => lookup_idx r end.
Proof.
  intros Hs Hnc Hlen.
  set (r1 := step r (lookup_cycle key)).
  assert (H1 : lkp_state r1 = LKP_PROBE /\ lkp_probe_cnt r1 = 0 /\
               lkp_probe_addr r1 = hash_func key /\ lkp_key_reg r1 = key /\
               lkp_result_idx r1 = lkp_result_idx r /\
               active_table r1 = active_table r).
  { unfold r1, step, load_ready, active_table. cbn. rewrite Hs.
    destruct (active_buffer r); repeat split. }
  destruct H1 as (Hs1 & Hc1 & Ha1 & Hk1 & Hr1 & Hact).
  assert (Hc : lkp_probe_cnt r1 = Z.of_nat MAX_PROBES - Z.of_nat MAX_PROBES)
    by (rewrite Hc1; lia).
  assert (Hn : (1 <= MAX_PROBES <= MAX_PROBES)%nat) by (unfold MAX_PROBES; lia).
  pose proof (lookup_probe_run MAX_PROBES r1 ins Hs1 Hc Hn Hnc Hlen) as H.
  cbv zeta in H. rewrite Hact, Hk1, Ha1, Hr1 in H.
  destruct H as (Hd & Hf & Hi & _).
  cbv zeta. unfold lookup_ready, lookup_hit, lookup_idx.
  rewrite Hd. auto.
Qed.


(** X1. Load, commit, look up: when symbols with distinct keys are loaded
    into an empty shadow buffer and the load counter counts all of them,
    then after the commit a lookup of any of the keys is answered within
    8 probe cycles, as a hit, with the index the key was loaded with. *)
Theorem symtab_load_commit_lookup
  (r0 : regs) (pairs : list (Z * Z)) (k v : Z) (ins : list inputs) :
  table_empty (shadow_table r0) -> load_count r0 = 0 ->
  lkp_state r0 = LKP_IDLE ->
  (length pairs <= 1024)%nat -> NoDup (map fst pairs) -> In (k, v) pairs ->
  Forall no_commit ins -> (MAX_PROBES <= length ins)%nat ->
  let r1 := run step r0 (load_all pairs) in
  num_entries_loaded r1 = Z.of_nat (length pairs) ->
  let r2 := step r1 commit_cycle in
  let m := snd (probe (active_table r2) k (hash_func k) MAX_PROBES) in
  let r3 := run step (step r2 (lookup_cycle k)) (firstn m ins) in
  (1 <= m <= MAX_PROBES)%nat /\
  lookup_ready r3 = true /\ lookup_hit r3 = true /\ lookup_idx r3 = v.
Proof.
  intros Hempty Hc0 Hidle Hlen Hnd Hin Hnc Hins r1 Hcount r2 m r3.
  destruct (load_all_run pairs r0 Hempty Hc0 Hlen) as (Hinv & _ & Hall & _ & Hst).
  fold r1 in Hinv, Hall, Hst.
  destruct (step_commit r1 commit_cycle eq_refl) as (Hact & _ & _).
  fold r2 in Hact.
  assert (Hs2 : lkp_state r2 = LKP_IDLE).
  { unfold r2, step. cbn. now rewrite (Hst Hidle). }
  assert (Hp : fst (probe (active_table r2) k (hash_func k) MAX_PROBES) = Some v).
  { rewrite Hact. apply (table_lookup_loaded pairs); try assumption.
    apply Hall; [exact Hcount|]. change k with (fst (k, v)). now apply in_map. }
  destruct (lookup_run r2 k ins Hs2 Hnc Hins) as (Hr & Hh & Hi).
  fold m in Hr, Hh, Hi. fold r3 in Hr, Hh, Hi. rewrite Hp in Hh, Hi.
  split; [apply probe_cycles; unfold MAX_PROBES; lia|].
  auto.
Qed.

(** X2. A key that was not loaded misses: after the commit its lookup is
    answered within 8 probe cycles with the hit flag low, and the index
    output still shows what it showed before the lookup. *)
Theorem symtab_lookup_unloaded_misses
  (r0 : regs) (pairs : list (Z * Z)) (k : Z) (ins : list inputs) :
  table_empty (shadow_table r0) -> load_count r0 = 0 ->
  lkp_state r0 = LKP_IDLE ->
  (length pairs <= 1024)%nat -> ~ In k (map fst pairs) ->
  Forall no_commit ins -> (MAX_PROBES <= length ins)%nat ->
  let r2 := step (run step r0 (load_all pairs)) commit_cycle in
  let m := snd (probe (active_table r2) k (hash_func k) MAX_PROBES) in
  let r3 := run step (step r2 (lookup_cycle k)) (firstn m ins) in
  (1 <= m <= MAX_PROBES)%nat /\
  lookup_ready r3 = true /\ lookup_hit r3 = false /\
  lookup_idx r3 = lookup_idx r0.
Proof.
  intros Hempty Hc0 Hidle Hlen Hnot Hnc Hins r2 m r3.
  destruct (load_all_run pairs r0 Hempty Hc0 Hlen) as (Hinv & _ & _ & _ & Hst).
  set (r1 := run step r0 (load_all pairs)) in *.
  destruct (step_commit r1 commit_cycle eq_refl) as (Hact & _ & _).
  fold r2 in Hact.
  assert (Hs2 : lkp_state r2 = LKP_IDLE).
  { unfold r2, step. cbn. now rewrite (Hst Hidle). }
  assert (Hp : fst (probe (active_table r2) k (hash_func k) MAX_PROBES) = None).
  { rewrite Hact. now apply (table_lookup_absent pairs). }
  assert (Hidx : lookup_idx r2 = lookup_idx r0).
  { unfold lookup_idx, r2, step. cbn. rewrite (Hst Hidle).
    clear -Hidle. unfold r1.
    assert (G : forall ps r, lkp_state r = LKP_IDLE ->
              lkp_state (run step r (load_all ps)) = LKP_IDLE /\
              lkp_result_idx (run step r (load_all ps)) = lkp_result_idx r).
    { induction ps as [|p ps IH]; intros r Hr; [now split|].
      cbn [load_all map]. rewrite run_cons.
      destruct (IH (step r (load_cycle (fst p) (snd p)))) as [H1 H2].
      - unfold step. cbn. now rewrite Hr.
      - fold (load_all ps). split; [exact H1|]. rewrite H2.
        unfold step. cbn. now rewrite Hr. }
    apply G, Hidle. }
  destruct (lookup_run r2 k ins Hs2 Hnc Hins) as (Hr & Hh & Hi).
  fold m in Hr, Hh, Hi. fold r3 in Hr, Hh, Hi. rewrite Hp in Hh, Hi.
  split; [apply probe_cycles; unfold MAX_PROBES; lia|].
  split; [exact Hr|]. split; [exact Hh|]. now rewrite Hi.
Qed.


Lemma symtab_load_commit_lookup_witness :
  let r1 := run step (reset blank blank) (load_all clash_pairs) in
  let r2 := step r1 commit_cycle in
  let m := snd (probe (active_table r2) (clash_key 8) (hash_func (clash_key 8))
                  MAX_PROBES) in
  let r3 := run step (step r2 (lookup_cycle (clash_key 8)))
              (firstn m (repeat idle_cycle 8)) in
  (1 <= m <= MAX_PROBES)%nat /\
  lookup_ready r3 = true /\ lookup_hit r3 = true /\ lookup_idx r3 = 108.
Proof.
  apply (symtab_load_commit_lookup (reset blank blank) clash_pairs
           (clash_key 8) 108 (repeat idle_cycle 8)).
  - intros a. reflexivity.
  - reflexivity.
  - reflexivity.
  - apply Nat.leb_le. reflexivity.
  - cbn. repeat constructor; cbn; intuition discriminate.
  - cbn. intuition.
  - repeat constructor.
  - apply Nat.leb_le. reflexivity.
  - vm_compute. reflexivity.
Defined.

Lemma symtab_lookup_unloaded_misses_witness :
  let r2 := step (run step (reset blank blank) (load_all clash_pairs))
              commit_cycle in
  let m := snd (probe (active_table r2) (clash_key 9) (hash_func (clash_key 9))
                  MAX_PROBES) in
  let r3 := run step (step r2 (lookup_cycle (clash_key 9)))
              (firstn m (repeat idle_cycle 8)) in
  (1 <= m <= MAX_PROBES)%nat /\
  lookup_ready r3 = true /\ lookup_hit r3 = false /\
  lookup_idx r3 = lookup_idx (reset blank blank).
Proof.
  apply (symtab_lookup_unloaded_misses (reset blank blank) clash_pairs
           (clash_key 9) (repeat idle_cycle 8)).
  - intros a. reflexivity.
  - reflexivity.
  - reflexivity.
  - apply Nat.leb_le. reflexivity.
  - cbn. intuition discriminate.
  - repeat constructor.
  - apply Nat.leb_le. reflexivity.
Defined.

(** X3. Double buffering: whatever is loaded or looked up, without a commit
    the buffer that lookups read does not change; a commit cycle then makes
    the shadow buffer the one lookups read, hands back the other buffer
    empty and restarts the load counter at 0. *)
Theorem symtab_commit_swaps_buffers (r : regs) (ins : list inputs) (c : inputs) :
  Forall no_commit ins -> commit c = true ->
  let r1 := run step r ins in
  active_table r1 = active_table r /\
  active_table (step r1 c) = shadow_table r1 /\
  table_empty (shadow_table (step r1 c)) /\
  num_entries_loaded (step r1 c) = 0.
Proof.
  intros Hnc Hc r1. split; [|now apply step_commit].
  unfold r1. clear r1. revert r.
  induction ins as [|i ins IH]; intros r; [reflexivity|].
  inversion Hnc as [|? ? Hi Hnc']; subst.
  rewrite run_cons, (IH Hnc'). now apply step_active_table.
Qed.

Lemma symtab_commit_swaps_buffers_witness :
  let r1 := run step (reset blank blank) (load_all clash_pairs) in
  active_table r1 = active_table (reset blank blank) /\
  active_table (step r1 commit_cycle) = shadow_table r1 /\
  table_empty (shadow_table (step r1 commit_cycle)) /\
  num_entries_loaded (step r1 commit_cycle) = 0.
Proof.
  apply (symtab_commit_swaps_buffers (reset blank blank)
           (load_all clash_pairs) commit_cycle).
  - repeat constructor.
  - reflexivity.
Defined.

(** The load loop stops at the first slot without a valid bit. *)
Lemma find_slot_first_free (valid : Z -> bool) (n : nat) :
  forall h j, (j < n)%nat -> chain valid h j ->
    valid (addr_at h j) = false ->
    find_slot valid h n = Some (addr_at h j).
Proof.
  induction n as [|n IH]; intros h j Hj Hc Hf; [lia|].
  cbn [find_slot]. destruct j as [|j].
  - cbn in Hf. rewrite Hf. reflexivity.
  - assert (Hh : valid h = true) by (apply (Hc O); lia).
    rewrite Hh. cbn [negb].
    rewrite <- addr_at_succ. apply IH; [lia| |now rewrite addr_at_succ].
    intros j' Hj'. rewrite addr_at_succ. apply Hc. lia.
Qed.

(** X4. A load that is accepted (load_valid and load_ready) goes to the
    first free slot among the 8 slots from the key's hash on: that slot
    then holds the key and [load_idx] and is valid, every other slot of the
    shadow buffer is as before, and the load is counted.  When all 8 are
    occupied the load is dropped without any sign: the shadow buffer and
    the load counter are as before. *)
Theorem symtab_load_stored_or_dropped (r : regs) (i : inputs) :
  load_valid i = true -> load_ready r i = true -> 0 <= load_count r ->
  let t := shadow_table r in
  let t' := shadow_table (step r i) in
  let h := hash_func (load_key i) in
  (chain (cam_valid t) h MAX_PROBES ->
   t' = t /\ num_entries_loaded (step r i) = num_entries_loaded r) /\
  (forall j, (j < MAX_PROBES)%nat -> chain (cam_valid t) h j ->
     cam_valid t (addr_at h j) = false ->
     cam_valid t' (addr_at h j) = true /\
     cam_keys t' (addr_at h j) = load_key i /\
     cam_values t' (addr_at h j) = load_idx i /\
     (forall a, a <> addr_at h j ->
        cam_valid t' a = cam_valid t a /\
        cam_keys t' a = cam_keys t a /\
        cam_values t' a = cam_values t a) /\
     num_entries_loaded (step r i) = num_entries_loaded r + 1).
Proof.
  intros Hv Hr Hpos t t' h.
  assert (Hc : commit i = false /\ load_count r < NUM_ENTRIES).
  { unfold load_ready in Hr. apply andb_true_iff in Hr. destruct Hr as [H1 H2].
    apply negb_true_iff in H1. apply Z.ltb_lt in H2. auto. }
  destruct Hc as [Hc Hlt].
  assert (Hsh : t' = table_insert t (load_key i) (load_idx i)).
  { unfold t', t, step, shadow_table. cbn. rewrite Hv, Hr, Hc. cbn.
    destruct (active_buffer r); reflexivity. }
  assert (Hcnt : load_count (step r i) =
                 if insert_found t (load_key i)
                 then load_count r + 1 else load_count r).
  { unfold t, step. cbn. rewrite Hv, Hr, Hc. cbn.
    destruct (insert_found (shadow_table r) (load_key i)); [|reflexivity].
    apply trunc_small. unfold NUM_ENTRIES in Hlt. change (2 ^ 11) with 2048. lia. }
  unfold num_entries_loaded. rewrite Hsh, Hcnt.
  unfold table_insert, insert_found. fold h.
  split.
  - intros Hfull. apply find_slot_none in Hfull. rewrite Hfull. auto.
  - intros j Hj Hch Hfree.
    rewrite (find_slot_first_free (cam_valid t) MAX_PROBES h j Hj Hch Hfree).
    cbn [table_write cam_valid cam_keys cam_values].
    rewrite Z.eqb_refl.
    split; [reflexivity|]. split; [reflexivity|]. split; [reflexivity|].
    split; [|reflexivity].
    intros a Ha. apply Z.eqb_neq in Ha. rewrite Ha. auto.
Qed.

Lemma symtab_load_stored_or_dropped_witness :
  (shadow_table (step clash_loaded (load_cycle (clash_key 9) 109)) =
     shadow_table clash_loaded /\
   num_entries_loaded (step clash_loaded (load_cycle (clash_key 9) 109)) =
     num_entries_loaded clash_loaded) /\
  (cam_valid (shadow_table (step (reset blank blank)
                              (load_cycle (clash_key 1) 101))) 0 = true /\
   cam_keys (shadow_table (step (reset blank blank)
                             (load_cycle (clash_key 1) 101))) 0 = clash_key 1 /\
   cam_values (shadow_table (step (reset blank blank)
                               (load_cycle (clash_key 1) 101))) 0 = 101).
Proof.
  split.
  - apply (proj1 (symtab_load_stored_or_dropped clash_loaded
                    (load_cycle (clash_key 9) 109) eq_refl eq_refl
                    ltac:(vm_compute; discriminate))).
    intros j Hj.
    do 8 (destruct j as [|j]; [reflexivity|]).
    unfold MAX_PROBES in Hj. lia.
  - pose proof (proj2 (symtab_load_stored_or_dropped (reset blank blank)
                         (load_cycle (clash_key 1) 101) eq_refl eq_refl
                         ltac:(vm_compute; discriminate))
                  O ltac:(unfold MAX_PROBES; lia)
                  ltac:(intros j' Hj'; lia) eq_refl)
      as (A & B & C & _).
    split; [exact A|]. split; [exact B | exact C].
Defined.

End SymtabCamFacts.

(** ** ITCH decoder *)
Section ItchDecoderParseFacts.
Import ItchDecoder T2tPkgLengths.

(** X8. The decoder reads no byte beyond the message: two message buffers
    that agree on the first [get_msg_length] bytes of the type (the length
    the splitter frames it with) are decoded alike. *)
Theorem dec_parse_reads_inside_message
  (data data' ty sq fl ts : Z) (d : itch_msg_t) :
  (forall i, 0 <= i < ItchSplitter.get_msg_length ty ->
             get_byte data i = get_byte data' i) ->
  dec_parse data ty sq fl ts d = dec_parse data' ty sq fl ts d.
Proof.
  intros H. unfold dec_parse.
  destruct (ty =? 0x41) eqn:E41.
  { apply Z.eqb_eq in E41. subst ty. cbn [orb].
    change (ItchSplitter.get_msg_length 65) with 36 in H.
    unfold get_be64, get_be32. rewrite !H by lia. reflexivity. }
  destruct (ty =? 0x46) eqn:E46.
  { apply Z.eqb_eq in E46. subst ty. cbn [orb].
    change (ItchSplitter.get_msg_length 70) with 40 in H.
    unfold get_be64, get_be32. rewrite !H by lia. reflexivity. }
  destruct (ty =? 0x50) eqn:E50.
  { apply Z.eqb_eq in E50. subst ty. cbn [orb].
    change (ItchSplitter.get_msg_length 80) with 44 in H.
    unfold get_be64, get_be32. rewrite !H by lia. reflexivity. }
  cbn [orb].
  destruct (ty =? 0x45) eqn:E45.
  { apply Z.eqb_eq in E45. subst ty.
    change (ItchSplitter.get_msg_length 69) with 31 in H.
    unfold get_be64, get_be32. rewrite !H by lia. reflexivity. }
  destruct (ty =? 0x43) eqn:E43.
  { apply Z.eqb_eq in E43. subst ty.
    change (ItchSplitter.get_msg_length 67) with 36 in H.
    unfold get_be64, get_be32. rewrite !H by lia. reflexivity. }
  destruct (ty =? 0x58) eqn:E58.
  { apply Z.eqb_eq in E58. subst ty.
    change (ItchSplitter.get_msg_length 88) with 23 in H.
    unfold get_be64, get_be32. rewrite !H by lia. reflexivity. }
  destruct (ty =? 0x44) eqn:E44.
  { apply Z.eqb_eq in E44. subst ty.
    change (ItchSplitter.get_msg_length 68) with 19 in H.
    unfold get_be64, get_be32. rewrite !H by lia. reflexivity. }
  destruct (ty =? 0x55) eqn:E55.
  { apply Z.eqb_eq in E55. subst ty.
    change (ItchSplitter.get_msg_length 85) with 35 in H.
    unfold get_be64, get_be32. rewrite !H by lia. reflexivity. }
  destruct (ty =? 0x53) eqn:E53; [reflexivity|].
  destruct (ty =? 0x52) eqn:E52; [|reflexivity].
  apply Z.eqb_eq in E52. subst ty.
  change (ItchSplitter.get_msg_length 82) with 39 in H.
  unfold get_be64, get_be32. rewrite !H by lia. reflexivity.
Qed.

Lemma get_byte_agree_upto (n : nat) (data data' : Z) :
  forallb (fun k => get_byte data (Z.of_nat k) =? get_byte data' (Z.of_nat k))
    (List.seq 0 n) = true ->
  forall i, 0 <= i < Z.of_nat n -> get_byte data i = get_byte data' i.
Proof.
  intros H i Hi. rewrite forallb_forall in H.
  specialize (H (Z.to_nat i)). rewrite Z2Nat.id in H by lia.
  apply Z.eqb_eq, H, in_seq. lia.
Qed.

Lemma dec_parse_reads_inside_message_witness :
  dec_parse (pack_bytes ItchDecoderFsm.add_order_bytes) 0x41 5 0 1000
    itch_msg_zero =
  dec_parse ItchDecoderFsm.add_order_dirty 0x41 5 0 1000 itch_msg_zero.
Proof.
  apply dec_parse_reads_inside_message.
  apply (get_byte_agree_upto 36). vm_compute. reflexivity.
Defined.

(** X9. The decoder's book-update flag and the package agree: a parsed
    message is marked as a book update exactly for the types
    [is_book_affecting] lists, and each of these has the same non-zero
    length in the package's table and in the splitter's. *)
Theorem book_update_types_agree (data ty sq fl ts : Z) (d : itch_msg_t) :
  m_is_book_update (dec_parse data ty sq fl ts d) = is_book_affecting ty /\
  (is_book_affecting ty = true ->
   0 < itch_msg_length ty /\
   itch_msg_length ty = ItchSplitter.get_msg_length ty) /\
  (itch_msg_length ty <> 0 ->
   itch_msg_length ty = ItchSplitter.get_msg_length ty).
Proof.
  unfold dec_parse, is_book_affecting, itch_msg_length,
    ItchSplitter.get_msg_length, ITCH_ADD_ORDER, ITCH_ADD_ORDER_MPID,
    ITCH_ORDER_EXECUTED, ITCH_ORDER_EXECUTED_PX, ITCH_ORDER_CANCEL,
    ITCH_ORDER_DELETE, ITCH_ORDER_REPLACE, ITCH_TRADE, ITCH_SYSTEM_EVENT,
    ITCH_STOCK_DIRECTORY, ITCH_CROSS_TRADE, ITCH_NOII.
  repeat match goal with
         | |- context [?x =? ?c] =>
             let E := fresh "E" in
             destruct (x =? c) eqn:E;
             [apply Z.eqb_eq in E; subst; cbn; repeat split; try lia;
              try discriminate; try reflexivity | ]
         end.
  cbn. repeat split; try discriminate; try lia.
Qed.

End ItchDecoderParseFacts.

Section ItchDecoderFsmFacts.
Import ItchDecoder ItchDecoderFsm.

(** While the consumer is ready in every cycle, [decode_valid] is low
    whenever the decoder is outside DEC_IDLE. *)
Lemma decoder_ready_inv (r : regs) (i : inputs) :
  decoded_ready i = true ->
  (state r <> DEC_IDLE -> decode_valid r = false) ->
  (state (step r i) <> DEC_IDLE -> decode_valid (step r i) = false) /\
  stat_total (step r i) = stat_total r.
Proof.
  intros Hr Hinv.
  assert (Hf : decoded_fire r i = false).
  { unfold decoded_fire, decoded_valid, is_state.
    destruct (state r) eqn:Es; try (rewrite Hinv by discriminate); cbn;
      try reflexivity; now rewrite andb_false_r. }
  split.
  - unfold step. cbn. rewrite Hr.
    destruct (state r) eqn:Es; cbn.
    + intros _. reflexivity.
    + intros _. apply Hinv. discriminate.
    + intros _. apply Hinv. discriminate.
    + intros H. now contradiction H.
  - unfold stat_total, step. cbn. rewrite Hf. reflexivity.
Qed.

(** X5. A consumer that holds [decoded_ready] high in every cycle is never
    offered a message: from reset, whatever arrives from the splitter and
    the symbol table, [decoded_valid] stays low and none of the seven
    message counters moves. *)
Theorem decoder_ready_consumer_gets_nothing (ins : list inputs) :
  Forall (fun i => decoded_ready i = true) ins ->
  decoded_valid (run step reset ins) = false /\
  stat_total (run step reset ins) = 0.
Proof.
  intros Hall.
  assert (G : forall r,
            (state r <> DEC_IDLE -> decode_valid r = false) ->
            (state (run step r ins) <> DEC_IDLE ->
             decode_valid (run step r ins) = false) /\
            stat_total (run step r ins) = stat_total r).
  { induction Hall as [|i ins Hi Hall IH]; intros r Hinv; [now split|].
    rewrite run_cons.
    destruct (decoder_ready_inv r i Hi Hinv) as [H1 H2].
    destruct (IH _ H1) as [H3 H4]. split; [exact H3 | congruence]. }
  destruct (G reset) as [H1 H2]; [intros _; reflexivity|].
  split; [|exact H2].
  unfold decoded_valid, is_state.
  destruct (state (run step reset ins)) eqn:Es;
    try (rewrite H1 by discriminate); try reflexivity.
  now rewrite andb_false_r.
Qed.

Lemma decoder_ready_consumer_gets_nothing_witness :
  let ins := [from_splitter (pack_bytes [0x53]) 12 7 0x53 12 false false false 0
                true; quiet true; quiet true; quiet true] in
  decoded_valid (run step reset ins) = false /\
  stat_total (run step reset ins) = 0.
Proof.
  apply decoder_ready_consumer_gets_nothing.
  repeat constructor.
Defined.


Lemma step_idle_capture (r : regs) (i : inputs) :
  state r = DEC_IDLE -> s_axis_tvalid i = true ->
  let r' := step r i in
  state r' = DEC_PARSE /\ decode_valid r' = false /\
  msg_data r' = s_axis_tdata i /\
  msg_type r' = bits 63 56 (s_axis_tuser i) /\
  msg_seq r' = bits 95 64 (s_axis_tuser i) /\
  msg_flags r' = bits 55 48 (s_axis_tuser i) /\
  ingress_ts r' = bits 47 0 (s_axis_tuser i) /\
  decoded_reg r' = decoded_reg r.
Proof.
  intros Hs Hv. unfold step, s_axis_tready, is_state. cbn.
  rewrite Hs, Hv. cbn. repeat split.
Qed.

Lemma step_parse (r : regs) (i : inputs) :
  state r = DEC_PARSE ->
  let r' := step r i in
  state r' = (if needs_lookup (msg_type r) then DEC_LOOKUP else DEC_EMIT) /\
  decode_valid r' = decode_valid r /\
  decoded_reg r' =
    dec_parse (msg_data r) (msg_type r) (msg_seq r) (msg_flags r)
      (ingress_ts r) (decoded_reg r).
Proof.
  intros Hs. unfold step. cbn. rewrite Hs. repeat split.
Qed.

Lemma run_lookup_wait (waits : list inputs) :
  forall r, state r = DEC_LOOKUP ->
    Forall (fun i => sym_lookup_ready i = false) waits ->
    let r' := run step r waits in
    state r' = DEC_LOOKUP /\ decode_valid r' = decode_valid r /\
    decoded_reg r' = decoded_reg r.
Proof.
  induction waits as [|i ws IH]; intros r Hs Hall; [now repeat split|].
  inversion Hall as [|? ? Hi Hall']; subst.
  rewrite run_cons.
  assert (H1 : state (step r i) = DEC_LOOKUP /\
               decode_valid (step r i) = decode_valid r /\
               decoded_reg (step r i) = decoded_reg r).
  { unfold step. cbn. rewrite Hs, Hi. repeat split. }
  destruct H1 as (Ha & Hb & Hc).
  destruct (IH _ Ha Hall') as (Hd & He & Hf).
  cbv zeta. rewrite Hd, He, Hf. auto.
Qed.

Lemma step_lookup_done (r : regs) (i : inputs) :
  state r = DEC_LOOKUP -> sym_lookup_ready i = true ->
  let r' := step r i in
  state r' = DEC_EMIT /\ decode_valid r' = decode_valid r /\
  decoded_reg r' =
    with_symbol (decoded_reg r) (sym_lookup_idx i) (sym_lookup_hit i).
Proof.
  intros Hs Hr. unfold step. cbn. rewrite Hs, Hr. repeat split.
Qed.

Lemma step_emit_wait (r : regs) (i : inputs) :
  state r = DEC_EMIT -> decoded_ready i = false ->
  let r' := step r i in
  state r' = DEC_EMIT /\ decode_valid r' = true /\
  decoded_reg r' = decoded_reg r.
Proof.
  intros Hs Hr. unfold step. cbn. rewrite Hs, Hr. cbn.
  destruct (decode_valid r); repeat split.
Qed.

Lemma dec_parse_decode_ts (data ty sq fl ts : Z) (d : itch_msg_t) :
  m_decode_ts (dec_parse data ty sq fl ts d) = 0.
Proof.
  unfold dec_parse.
  repeat match goal with |- context [if ?b then _ else _] => destruct b end;
    reflexivity.
Qed.

(** X6. A message is offered once the consumer has made it wait: taken in
    DEC_IDLE, parsed, sent through the symbol lookup when its type needs
    one, it is presented with [decoded_valid] high after an emit cycle in
    which [decoded_ready] was low.  The message shown is what [dec_parse]
    makes of the captured fields and of the message decoded before, with
    the symbol index and hit flag the lookup answered; its decode
    timestamp is 0. *)
Theorem decoder_message_flow
  (r : regs) (i0 i1 il ie : inputs) (waits : list inputs) :
  state r = DEC_IDLE -> s_axis_tvalid i0 = true ->
  Forall (fun i => sym_lookup_ready i = false) waits ->
  sym_lookup_ready il = true -> decoded_ready ie = false ->
  let ty := bits 63 56 (s_axis_tuser i0) in
  let parsed :=
    dec_parse (s_axis_tdata i0) ty (bits 95 64 (s_axis_tuser i0))
      (bits 55 48 (s_axis_tuser i0)) (bits 47 0 (s_axis_tuser i0))
      (decoded_reg r) in
  let trace :=
    if needs_lookup ty then [i0; i1] ++ waits ++ [il; ie] else [i0; i1; ie] in
  let r' := run step r trace in
  decoded_valid r' = true /\
  decoded_msg r' =
    (if needs_lookup ty
     then with_symbol parsed (sym_lookup_idx il) (sym_lookup_hit il)
     else parsed) /\
  m_decode_ts (decoded_msg r') = 0.
Proof.
  intros Hs Hv Hw Hl He ty parsed trace r'.
  destruct (step_idle_capture r i0 Hs Hv)
    as (S1 & V1 & D1 & T1 & Q1 & F1 & I1 & R1).
  destruct (step_parse (step r i0) i1 S1) as (S2 & V2 & R2).
  rewrite D1, T1, Q1, F1, I1, R1 in R2. rewrite T1 in S2.
  fold ty in S2, R2. fold parsed in R2. rewrite V1 in V2.
  unfold r', trace, decoded_valid, decoded_msg, is_state.
  destruct (needs_lookup ty) eqn:En.
  - cbn [app]. rewrite !run_cons, run_app, !run_cons. cbn [run fold_left].
    set (r2 := step (step r i0) i1) in *.
    destruct (run_lookup_wait waits r2 S2 Hw) as (S3 & V3 & R3).
    set (r3 := run step r2 waits) in *.
    destruct (step_lookup_done r3 il S3 Hl) as (S4 & V4 & R4).
    destruct (step_emit_wait (step r3 il) ie S4 He) as (S5 & V5 & R5).
    rewrite S5, V5, R5, R4, R3, R2. repeat split.
    cbn. apply dec_parse_decode_ts.
  - rewrite !run_cons. cbn [run fold_left].
    set (r2 := step (step r i0) i1) in *.
    destruct (step_emit_wait r2 ie S2 He) as (S5 & V5 & R5).
    rewrite S5, V5, R5, R2. repeat split.
    apply dec_parse_decode_ts.
Qed.


Lemma decoder_message_flow_witness :
  let r' := run step reset
              [add_order_in; quiet false; quiet false; lookup_answer 3 true;
               quiet false] in
  decoded_valid r' = true /\
  decoded_msg r' =
    with_symbol
      (dec_parse (pack_bytes add_order_bytes) 0x41 5 0 1000 itch_msg_zero)
      3 true /\
  m_decode_ts (decoded_msg r') = 0.
Proof.
  apply (decoder_message_flow reset add_order_in (quiet false)
           (lookup_answer 3 true) (quiet false) [quiet false]).
  - reflexivity.
  - reflexivity.
  - repeat constructor.
  - reflexivity.
  - reflexivity.
Defined.

(** The low 96 bits of the splitter's concatenation. *)
Lemma m_axis_tuser_low (sq ty len : Z) (stale gap dupe : bool) (ts : Z) :
  0 <= sq -> 0 <= ty < 2 ^ 8 -> 0 <= len < 2 ^ 8 -> 0 <= ts < 2 ^ 64 ->
  m_axis_tuser sq ty len stale gap dupe ts =
    ts + 2 ^ 64 * (tuser_flags stale gap dupe + 2 ^ 8 * len + 2 ^ 16 * ty
                   + 2 ^ 24 * (sq mod 2 ^ 8)).
Proof.
  intros Hsq Hty Hlen Hts. unfold m_axis_tuser, trunc.
  assert (Hfl : 0 <= tuser_flags stale gap dupe < 2 ^ 8).
  { unfold tuser_flags. destruct stale, gap, dupe; cbn; lia. }
  pose proof (Z.div_mod sq (2 ^ 8) ltac:(lia)) as Hdm.
  pose proof (Z.mod_pos_bound sq (2 ^ 8) ltac:(lia)) as Hm.
  set (m := sq mod 2 ^ 8) in *. set (q := sq / 2 ^ 8) in *.
  set (fl := tuser_flags stale gap dupe) in *.
  symmetry. apply (Z.mod_unique _ _ q).
  - left. change (2 ^ 8) with 256 in *. change (2 ^ 64) with 18446744073709551616 in *.
    change (2 ^ 16) with 65536. change (2 ^ 24) with 16777216.
    change (2 ^ 96) with 79228162514264337593543950336. lia.
  - rewrite Hdm.
    change (2 ^ 88) with (2 ^ 64 * 2 ^ 24). change (2 ^ 80) with (2 ^ 64 * 2 ^ 16).
    change (2 ^ 72) with (2 ^ 64 * 2 ^ 8). change (2 ^ 96) with (2 ^ 64 * 2 ^ 24 * 2 ^ 8).
    ring.
Qed.

(** Part selects below bit 64 of a word see only its low 64 bits. *)
Lemma bits_below_64 (hi lo ts k : Z) :
  0 <= lo -> lo <= hi -> hi < 64 ->
  bits hi lo (ts + 2 ^ 64 * k) = bits hi lo ts.
Proof.
  intros Hlo Hhi H64. unfold bits.
  replace (2 ^ 64) with (2 ^ (64 - lo) * 2 ^ lo)
    by (rewrite <- Z.pow_add_r by lia; f_equal; lia).
  replace (ts + 2 ^ (64 - lo) * 2 ^ lo * k) with (ts + (2 ^ (64 - lo) * k) * 2 ^ lo)
    by ring.
  rewrite Z.div_add by (apply Z.pow_nonzero; lia).
  replace (2 ^ (64 - lo)) with (2 ^ (63 - hi) * 2 ^ (hi - lo + 1))
    by (rewrite <- Z.pow_add_r by lia; f_equal; lia).
  replace (ts / 2 ^ lo + 2 ^ (63 - hi) * 2 ^ (hi - lo + 1) * k)
    with (ts / 2 ^ lo + (2 ^ (63 - hi) * k) * 2 ^ (hi - lo + 1)) by ring.
  apply Z.mod_add. apply Z.pow_nonzero; lia.
Qed.

Lemma bits_95_64 (ts k : Z) :
  0 <= ts < 2 ^ 64 -> 0 <= k < 2 ^ 32 -> bits 95 64 (ts + 2 ^ 64 * k) = k.
Proof.
  intros Hts Hk. unfold bits.
  replace (ts + 2 ^ 64 * k) with (ts + k * 2 ^ 64) by ring.
  rewrite Z.div_add by (apply Z.pow_nonzero; lia).
  rewrite Z.div_small by lia. cbn [Z.add].
  apply Z.mod_small. change (95 - 64 + 1) with 32. lia.
Qed.


(** X7. The decoder behind the splitter: of the splitter's 120-bit
    [m_axis_tuser] concatenation the 96-bit port keeps the low bits, so the
    decoder's message type is byte 7 of the ingress timestamp, its flags
    byte 6, and its sequence number is made of the low sequence byte, the
    type, the length and the flags.  With an ingress timestamp below 2^56
    every message, whatever its bytes, is decoded as an unknown type: no
    book update, error flags 0xF, straight to DEC_EMIT. *)
Theorem decoder_type_is_timestamp_byte
  (r : regs) (tdata tkeep sq ty len : Z) (stale gap dupe : bool) (ts : Z)
  (ready : bool) :
  state r = DEC_IDLE ->
  0 <= sq < 2 ^ 32 -> 0 <= ty < 2 ^ 8 -> 0 <= len < 2 ^ 8 ->
  0 <= ts < 2 ^ 64 ->
  let r1 := step r (from_splitter tdata tkeep sq ty len stale gap dupe ts
                      ready) in
  msg_type r1 = bits 63 56 ts /\
  msg_flags r1 = bits 55 48 ts /\
  ingress_ts r1 = bits 47 0 ts /\
  msg_seq r1 =
    tuser_flags stale gap dupe + 2 ^ 8 * len + 2 ^ 16 * ty
    + 2 ^ 24 * (sq mod 2 ^ 8) /\
  (ts < 2 ^ 56 ->
   forall i1, let r2 := step r1 i1 in
     state r2 = DEC_EMIT /\
     m_msg_type (decoded_reg r2) = 0 /\
     m_is_book_update (decoded_reg r2) = false /\
     m_error_flags (decoded_reg r2) = 0xF).
Proof.
  intros Hs Hsq Hty Hlen Hts r1.
  destruct (step_idle_capture r
              (from_splitter tdata tkeep sq ty len stale gap dupe ts ready)
              Hs eq_refl) as (S1 & V1 & D1 & T1 & Q1 & F1 & I1 & R1).
  fold r1 in S1, V1, D1, T1, Q1, F1, I1, R1.
  cbn [s_axis_tuser from_splitter] in T1, Q1, F1, I1.
  rewrite m_axis_tuser_low in T1, Q1, F1, I1 by lia.
  rewrite bits_below_64 in T1, F1, I1 by lia.
  assert (Hfl : 0 <= tuser_flags stale gap dupe < 2 ^ 8).
  { unfold tuser_flags. destruct stale, gap, dupe; cbn; lia. }
  pose proof (Z.mod_pos_bound sq (2 ^ 8) ltac:(lia)) as Hm.
  rewrite bits_95_64 in Q1.
  2: lia.
  2: { change (2 ^ 8) with 256 in *. change (2 ^ 16) with 65536.
       change (2 ^ 24) with 16777216. change (2 ^ 32) with 4294967296. lia. }
  split; [exact T1|]. split; [exact F1|]. split; [exact I1|].
  split; [exact Q1|].
  intros Hsmall i1 r2.
  assert (T0 : msg_type r1 = 0).
  { rewrite T1. unfold bits. rewrite Z.div_small by lia. reflexivity. }
  destruct (step_parse r1 i1 S1) as (S2 & _ & R2). fold r2 in S2, R2.
  rewrite T0 in S2, R2. rewrite S2, R2. repeat split.
Qed.

Lemma decoder_type_is_timestamp_byte_witness :
  let r1 := step reset
              (from_splitter (pack_bytes add_order_bytes) 36 5 0x41 36
                 false false false 1000 false) in
  msg_type r1 = bits 63 56 1000 /\
  msg_flags r1 = bits 55 48 1000 /\
  ingress_ts r1 = bits 47 0 1000 /\
  msg_seq r1 =
    tuser_flags false false false + 2 ^ 8 * 36 + 2 ^ 16 * 0x41
    + 2 ^ 24 * (5 mod 2 ^ 8) /\
  (1000 < 2 ^ 56 ->
   forall i1, let r2 := step r1 i1 in
     state r2 = DEC_EMIT /\
     m_msg_type (decoded_reg r2) = 0 /\
     m_is_book_update (decoded_reg r2) = false /\
     m_error_flags (decoded_reg r2) = 0xF).
Proof.
  apply (decoder_type_is_timestamp_byte reset (pack_bytes add_order_bytes) 36
           5 0x41 36 false false false 1000 false).
  - reflexivity.
  - lia.
  - lia.
  - lia.
  - lia.
Defined.

End ItchDecoderFsmFacts.

(** ** Book builder *)
Section BookProcessFacts.
Import BookTob.

(** X15. What a book update never touches: whatever the message type, the
    update marks the entry valid and stamps it with the message's decode
    timestamp; a bid-side message leaves the ask price and quantity alone
    and an ask-side message the bid; only a Trade changes the last trade,
    and a Trade changes neither side. *)
Theorem book_process_frame (e : book_entry_t) (m : itch_msg_t) :
  let u := book_process e m in
  valid u = true /\ last_update_ts u = m_decode_ts m /\
  (m_side m = SIDE_BID -> ask_px u = ask_px e /\ ask_qty u = ask_qty e) /\
  (m_side m = SIDE_ASK -> bid_px u = bid_px e /\ bid_qty u = bid_qty e) /\
  (m_msg_type m <> ITCH_TRADE ->
   last_trade_px u = last_trade_px e /\ last_trade_qty u = last_trade_qty e) /\
  (m_msg_type m = ITCH_TRADE ->
   bid_px u = bid_px e /\ bid_qty u = bid_qty e /\
   ask_px u = ask_px e /\ ask_qty u = ask_qty e /\
   last_trade_px u = m_price m /\ last_trade_qty u = m_qty m).
Proof.
  unfold book_process.
  destruct (m_msg_type m =? ITCH_TRADE) eqn:Et.
  - apply Z.eqb_eq in Et. rewrite Et. cbn.
    repeat split; intros; try reflexivity; congruence.
  - assert (Hne : m_msg_type m <> ITCH_TRADE) by now apply Z.eqb_neq.
    repeat match goal with
           | |- context [if ?b then _ else _] => destruct b
           | |- context [match m_side m with _ => _ end] => destruct (m_side m)
           end; cbn; repeat split; intros; try reflexivity; try discriminate;
      try contradiction.
Qed.

(** X16. An Add Order keeps the best price of its side and never adds up
    quantities: on a valid entry with a non-empty side the bid becomes the
    higher of the old bid and the order's price (the ask the lower), and
    the quantity is the order's only when its price is strictly better,
    otherwise the entry's side is left as it was, also at an equal price;
    on an invalid entry or an empty side the order is taken as it is. *)
Theorem add_order_keeps_best_price (e : book_entry_t) (m : itch_msg_t) :
  m_msg_type m = ITCH_ADD_ORDER \/ m_msg_type m = ITCH_ADD_ORDER_MPID ->
  let u := book_process e m in
  (m_side m = SIDE_BID ->
   (valid e = true -> bid_qty e <> 0 ->
    bid_px u = Z.max (bid_px e) (m_price m) /\
    bid_qty u = (if bid_px e <? m_price m then m_qty m else bid_qty e)) /\
   (valid e = false \/ bid_qty e = 0 ->
    bid_px u = m_price m /\ bid_qty u = m_qty m)) /\
  (m_side m = SIDE_ASK ->
   (valid e = true -> ask_qty e <> 0 ->
    ask_px u = Z.min (ask_px e) (m_price m) /\
    ask_qty u = (if m_price m <? ask_px e then m_qty m else ask_qty e)) /\
   (valid e = false \/ ask_qty e = 0 ->
    ask_px u = m_price m /\ ask_qty u = m_qty m)).
Proof.
  intros Hty u.
  assert (Hadd : (m_msg_type m =? ITCH_ADD_ORDER)
                 || (m_msg_type m =? ITCH_ADD_ORDER_MPID) = true).
  { destruct Hty as [-> | ->]; reflexivity. }
  unfold u, book_process. rewrite Hadd. clear u.
  split; intros Hside; rewrite Hside; split.
  - intros Hv Hq. rewrite Hv. apply Z.eqb_neq in Hq. rewrite Hq. cbn [negb orb].
    rewrite orb_false_r.
    destruct (bid_px e <? m_price m) eqn:E; cbn.
    + apply Z.ltb_lt in E. split; [lia | reflexivity].
    + apply Z.ltb_ge in E. split; [lia | reflexivity].
  - intros [Hv | Hq].
    + rewrite Hv. cbn. auto.
    + rewrite Hq. cbn [Z.eqb]. rewrite !orb_true_r. cbn. auto.
  - intros Hv Hq. rewrite Hv. apply Z.eqb_neq in Hq. rewrite Hq. cbn [negb orb].
    rewrite orb_false_r.
    destruct (m_price m <? ask_px e) eqn:E; cbn.
    + apply Z.ltb_lt in E. split; [lia | reflexivity].
    + apply Z.ltb_ge in E. split; [lia | reflexivity].
  - intros [Hv | Hq].
    + rewrite Hv. cbn. auto.
    + rewrite Hq. cbn [Z.eqb]. rewrite !orb_true_r. cbn. auto.
Qed.

Lemma add_order_keeps_best_price_witness :
  let e := book_process book_entry_zero (BookTobFsm.add_bid 100 10) in
  let u := book_process e (BookTobFsm.add_bid 100 25) in
  bid_px u = Z.max (bid_px e) 100 /\
  bid_qty u = (if bid_px e <? 100 then 25 else bid_qty e).
Proof.
  refine (proj1 (proj1 (add_order_keeps_best_price
            (book_process book_entry_zero (BookTobFsm.add_bid 100 10))
            (BookTobFsm.add_bid 100 25) (or_introl eq_refl)) eq_refl)
          eq_refl _).
  vm_compute. discriminate.
Defined.

End BookProcessFacts.

Section BookTobFsmFacts.
Import BookTob BookTobFsm.

(** With the BRAM ports disabled an edge leaves memory and read registers
    alone. *)
Lemma step_bram_off (r : regs) (i : inputs) :
  (forall b, bram_en r b = false) ->
  (forall b, bram_rd_data (step r i) b = bram_rd_data r b) /\
  (forall b a, bram_mem (step r i) b a = bram_mem r b a).
Proof.
  intros Hen. split; intros; unfold step; cbn; now rewrite Hen.
Qed.

(** [conflict_fifo_push] is low after every edge: the BOOK_READ test asks
    for a state other than BOOK_READ. *)
Lemma step_never_pushes (r : regs) (i : inputs) :
  conflict_fifo_push (step r i) = false.
Proof.
  unfold step, read_conflict. cbn.
  destruct (state r); try reflexivity. cbn. apply andb_false_r.
Qed.

Lemma step_fifo_quiet (r : regs) (i : inputs) :
  conflict_fifo_push r = false -> conflict_fifo_empty r = true ->
  conflict_fifo_empty (step r i) = true /\
  stat_bank_conflicts (step r i) = stat_bank_conflicts r.
Proof.
  intros Hp He. unfold conflict_fifo_empty, step in *. cbn.
  rewrite Hp. cbn. unfold conflict_fifo_empty. rewrite He.
  rewrite andb_false_r. auto.
Qed.

(** BOOK_IDLE taking a message. *)
Lemma step_idle_accept (r : regs) (i : inputs) :
  state r = BOOK_IDLE -> msg_pending r = false ->
  cfg_enable i = true -> msg_valid i = true ->
  let r' := step r i in
  state r' =
    (if m_symbol_valid (msg_in i) && m_is_book_update (msg_in i)
     then BOOK_READ else BOOK_EMIT) /\
  msg_reg r' = msg_in i /\ event_pending r' = false /\
  current_entry r' = current_entry r /\
  updated_entry r' = updated_entry r /\
  (forall b, bram_en r' b = false).
Proof.
  intros Hs Hp Hc Hv. unfold step, idle_accept. cbn.
  rewrite Hs, Hp, Hc, Hv. cbn. repeat split.
Qed.

Lemma step_read (r : regs) (i : inputs) :
  state r = BOOK_READ ->
  let r' := step r i in
  state r' = BOOK_PROCESS /\ msg_reg r' = msg_reg r /\
  event_pending r' = event_pending r /\
  current_entry r' = current_entry r /\
  updated_entry r' = updated_entry r /\
  last_bank r' = current_bank r /\
  bram_en r' = upd (fun _ => false) (current_bank r) true /\
  bram_we r' = (fun _ => false) /\
  bram_addr r' = upd (bram_addr r) (current_bank r) (current_addr r).
Proof.
  intros Hs. unfold step, read_conflict. cbn. rewrite Hs. cbn.
  rewrite andb_false_r. repeat split.
Qed.

Lemma step_process (r : regs) (i : inputs) :
  state r = BOOK_PROCESS ->
  let r' := step r i in
  state r' = BOOK_WRITE /\ msg_reg r' = msg_reg r /\
  event_pending r' = event_pending r /\
  last_bank r' = last_bank r /\
  current_entry r' = bram_rd_data r (last_bank r) /\
  updated_entry r' = book_process (current_entry r) (msg_reg r) /\
  (forall b, bram_en r' b = false).
Proof.
  intros Hs. unfold step. cbn. rewrite Hs. repeat split.
Qed.

Lemma step_write (r : regs) (i : inputs) :
  state r = BOOK_WRITE ->
  let r' := step r i in
  state r' = BOOK_EMIT /\ msg_reg r' = msg_reg r /\
  event_pending r' = event_pending r /\
  last_bank r' = last_bank r /\
  current_entry r' = current_entry r /\
  updated_entry r' = updated_entry r /\
  bram_en r' = upd (fun _ => false) (last_bank r) true /\
  bram_we r' = upd (fun _ => false) (last_bank r) true /\
  bram_addr r' = upd (bram_addr r) (last_bank r) (current_addr r) /\
  bram_wr_data r' = upd (bram_wr_data r) (last_bank r) (updated_entry r).
Proof.
  intros Hs. unfold step. cbn. rewrite Hs. repeat split.
Qed.

Lemma step_emit (r : regs) (i : inputs) :
  state r = BOOK_EMIT -> event_pending r = false ->
  let r' := step r i in
  state r' = BOOK_IDLE /\ msg_pending r' = false /\
  event_pending r' = true /\
  event_reg r' = book_emit (msg_reg r) (updated_entry r) /\
  current_entry r' = current_entry r /\
  updated_entry r' = updated_entry r /\
  (forall b, bram_en r' b = false).
Proof.
  intros Hs Hp. unfold step. cbn. rewrite Hs, Hp. cbn.
  rewrite orb_true_r. repeat split.
Qed.


(** The BRAM at an edge: a read into the bank's read register whenever the
    port is enabled, a write of the bank's write data when it is enabled
    for writing. *)
Lemma step_bram (r : regs) (i : inputs) :
  (forall b, bram_rd_data (step r i) b =
     if bram_en r b then bram_mem r b (bram_addr r b) else bram_rd_data r b) /\
  (forall b a, bram_mem (step r i) b a =
     if bram_en r b && bram_we r b && (a =? bram_addr r b)
     then bram_wr_data r b else bram_mem r b a).
Proof. split; reflexivity. Qed.

Lemma idle_clean_fifo (r : regs) (i : inputs) :
  conflict_fifo_push r = false /\ conflict_fifo_empty r = true ->
  conflict_fifo_push (step r i) = false /\
  conflict_fifo_empty (step r i) = true.
Proof.
  intros [Hp He]. split; [apply step_never_pushes|].
  now apply step_fifo_quiet.
Qed.

(** The five cycles of one book-affecting message, from IDLE through
    READ, PROCESS, WRITE and EMIT, register by register. *)
Lemma book_five_cycles (r : regs) (i0 i1 i2 i3 i4 : inputs) (m : itch_msg_t) :
  idle_clean r ->
  cfg_enable i0 = true -> msg_valid i0 = true -> msg_in i0 = m ->
  m_symbol_valid m = true -> m_is_book_update m = true ->
  idle_clean (run step r [i0; i1; i2; i3; i4]) /\
  event_valid (run step r [i0; i1; i2; i3; i4]) = true /\
  event_out (run step r [i0; i1; i2; i3; i4])
    = book_emit m (book_process (current_entry r) m) /\
  updated_entry (run step r [i0; i1; i2; i3; i4])
    = book_process (current_entry r) m /\
  book_entry (run step r [i0; i1; i2; i3; i4]) m
    = book_process (current_entry r) m /\
  (forall b a, b <> bank_of m \/ a <> addr_of m ->
               bram_mem (run step r [i0; i1; i2; i3; i4]) b a
               = bram_mem r b a) /\
  current_entry (run step r [i0; i1; i2; i3; i4])
    = bram_rd_data r (bank_of m) /\
  bram_rd_data (run step r [i0; i1; i2; i3; i4]) (bank_of m)
    = book_entry r m.
Proof.
  intros (Hs & Hp & Hen & Hfe & Hfp) Hc Hv Hmi Hsv Hbu. subst m.
  set (m := msg_in i0).
  set (e := book_process (current_entry r) m).
  rewrite !run_cons. cbn [run fold_left].
  set (r1 := step r i0).
  destruct (step_idle_accept r i0 Hs Hp Hc Hv) as (S1 & M1 & P1 & C1 & U1 & E1).
  fold r1 in S1, M1, P1, C1, U1, E1. rewrite Hsv, Hbu in S1. cbn in S1.
  destruct (step_bram_off r i0 Hen) as (D1 & B1). fold r1 in D1, B1.
  destruct (idle_clean_fifo r i0 (conj Hfp Hfe)) as (Q1 & F1). fold r1 in Q1, F1.
  set (r2 := step r1 i1).
  destruct (step_read r1 i1 S1) as (S2 & M2 & P2 & C2 & U2 & L2 & E2 & W2 & A2).
  fold r2 in S2, M2, P2, C2, U2, L2, E2, W2, A2.
  destruct (step_bram_off r1 i1 E1) as (D2 & B2). fold r2 in D2, B2.
  destruct (idle_clean_fifo r1 i1 (conj Q1 F1)) as (Q2 & F2). fold r2 in Q2, F2.
  unfold current_bank, current_addr in L2, E2, A2. rewrite M1 in L2, E2, A2.
  fold m in L2, E2, A2.
  set (r3 := step r2 i2).
  destruct (step_process r2 i2 S2) as (S3 & M3 & P3 & L3 & C3 & U3 & E3).
  fold r3 in S3, M3, P3, L3, C3, U3, E3.
  destruct (step_bram r2 i2) as (D3 & B3). fold r3 in D3, B3.
  destruct (idle_clean_fifo r2 i2 (conj Q2 F2)) as (Q3 & F3). fold r3 in Q3, F3.
  set (r4 := step r3 i3).
  destruct (step_write r3 i3 S3)
    as (S4 & M4 & P4 & L4 & C4 & U4 & E4 & W4 & A4 & X4).
  fold r4 in S4, M4, P4, L4, C4, U4, E4, W4, A4, X4.
  destruct (step_bram_off r3 i3 E3) as (D4 & B4). fold r4 in D4, B4.
  destruct (idle_clean_fifo r3 i3 (conj Q3 F3)) as (Q4 & F4). fold r4 in Q4, F4.
  destruct (step_emit r4 i4 S4) as (S5 & G5 & P5 & V5 & C5 & U5 & E5).
  { now rewrite P4, P3, P2. }
  destruct (step_bram r4 i4) as (D5 & B5).
  destruct (idle_clean_fifo r4 i4 (conj Q4 F4)) as (Q5 & F5).
  set (r5' := step r4 i4) in *.
  assert (Hm : msg_reg r4 = m) by now rewrite M4, M3, M2.
  assert (Hl : last_bank r3 = bank_of m) by now rewrite L3.
  assert (He : updated_entry r4 = e).
  { rewrite U4, U3, M2, M1, C2, C1. reflexivity. }
  unfold current_addr in A4. rewrite M3, M2, M1 in A4. fold m in A4.
  rewrite Hl in E4, W4, A4, X4.
  split; [unfold idle_clean; auto|].
  split; [unfold event_valid; rewrite P5, S5; reflexivity|].
  split; [unfold event_out; rewrite V5, Hm, He; reflexivity|].
  split; [now rewrite U5|].
  assert (Hmem3 : forall b a, bram_mem r3 b a = bram_mem r b a).
  { intros b a. rewrite B3, W2. cbv beta. rewrite andb_false_r. cbn [andb].
    now rewrite B2, B1. }
  split.
  { unfold book_entry. rewrite B5, E4, W4, A4, X4. unfold upd.
    rewrite !Z.eqb_refl. cbn [andb]. rewrite U3, M2, M1, C2, C1. reflexivity. }
  split.
  { intros b a Hne. rewrite B5, E4, W4, A4. unfold upd.
    destruct (b =? bank_of m) eqn:Eb; cbn [andb]; [|now rewrite B4].
    destruct (a =? addr_of m) eqn:Ea; [|now rewrite B4].
    apply Z.eqb_eq in Eb, Ea. destruct Hne; contradiction. }
  split.
  { rewrite C5, C4, C3, L2, D2, D1. reflexivity. }
  rewrite D5, E4, A4. unfold upd. rewrite !Z.eqb_refl.
  rewrite B4. unfold book_entry. apply Hmem3.
Qed.

(** X10. One book-affecting message through the builder.  Taken by an
    idle builder, it yields its event five edges later, valid and back in
    BOOK_IDLE.  The event and the entry written to the symbol's BRAM word
    are [book_process] of the message and of the [current_entry] register
    as the builder held it before the message; the word read from the BRAM
    for this message is not used for it.  After the message
    [current_entry] holds what the bank's read register held before, and
    the read register holds the symbol's word as it was before the write. *)
Theorem book_message_pipeline (r : regs) (i0 i1 i2 i3 i4 : inputs) :
  idle_clean r ->
  cfg_enable i0 = true -> msg_valid i0 = true ->
  m_symbol_valid (msg_in i0) = true -> m_is_book_update (msg_in i0) = true ->
  let m := msg_in i0 in
  let e := book_process (current_entry r) m in
  let r5 := run step r [i0; i1; i2; i3; i4] in
  idle_clean r5 /\
  event_valid r5 = true /\ event_out r5 = book_emit m e /\
  updated_entry r5 = e /\
  book_entry r5 m = e /\
  (forall b a, b <> bank_of m \/ a <> addr_of m ->
               bram_mem r5 b a = bram_mem r b a) /\
  current_entry r5 = bram_rd_data r (bank_of m) /\
  bram_rd_data r5 (bank_of m) = book_entry r m.
Proof.
  intros Hi Hc Hv Hsv Hbu. cbv zeta.
  exact (book_five_cycles r i0 i1 i2 i3 i4 (msg_in i0)
           Hi Hc Hv eq_refl Hsv Hbu).
Qed.


Lemma reset_idle_clean (u : regs) :
  conflict_fifo_push u = false -> idle_clean (reset u).
Proof. intros Hp. unfold idle_clean, reset. cbn. auto. Qed.

Lemma book_message_pipeline_witness :
  let m := msg_in (offer (add_bid 100 10) true) in
  let e := book_process (current_entry (reset power_up)) m in
  let r5 := run step (reset power_up)
              [offer (add_bid 100 10) true; hold true; hold true; hold true;
               hold true] in
  idle_clean r5 /\
  event_valid r5 = true /\ event_out r5 = book_emit m e /\
  updated_entry r5 = e /\
  book_entry r5 m = e /\
  (forall b a, b <> bank_of m \/ a <> addr_of m ->
               bram_mem r5 b a = bram_mem (reset power_up) b a) /\
  current_entry r5 = bram_rd_data (reset power_up) (bank_of m) /\
  bram_rd_data r5 (bank_of m) = book_entry (reset power_up) m.
Proof.
  apply (book_message_pipeline (reset power_up) (offer (add_bid 100 10) true)
           (hold true) (hold true) (hold true) (hold true)).
  - apply reset_idle_clean. reflexivity.
  - reflexivity.
  - reflexivity.
  - reflexivity.
  - reflexivity.
Defined.

(** The pipeline on the cycles of [book_cycles]. *)
Lemma book_cycles_run (r : regs) (s : Z) (m : itch_msg_t) :
  idle_clean r -> book_msg_for s m ->
  msg_effect r (run step r (book_cycles m)) m.
Proof.
  intros Hc (Hv & Hb & _).
  pose proof (book_five_cycles r (offer m true) (hold true) (hold true)
                (hold true) (hold true) m Hc eq_refl eq_refl eq_refl Hv Hb)
    as H.
  unfold book_cycles, msg_effect.
  destruct H as (H1 & H2 & H3 & _ & H4 & _ & H5 & H6).
  split; [exact H1|]. split; [exact H2|]. split; [exact H3|].
  split; [exact H4|]. split; [exact H5 | exact H6].
Qed.

(** Four messages for one symbol, state by state. *)
Lemma msg_effect_chain (s : Z) (m1 m2 m3 m4 : itch_msg_t)
    (r r1 r2 r3 r4 : regs) :
  m_symbol_idx m1 = s -> m_symbol_idx m2 = s -> m_symbol_idx m3 = s ->
  msg_effect r r1 m1 -> msg_effect r1 r2 m2 ->
  msg_effect r2 r3 m3 -> msg_effect r3 r4 m4 ->
  event_valid r4 = true /\
  event_out r4 =
    book_emit m4 (book_process (book_process (current_entry r) m1) m4).
Proof.
  intros S1 S2 S3 (_ & _ & _ & E1 & _ & _) (_ & _ & _ & _ & _ & D2)
    (_ & _ & _ & _ & U3 & _) (_ & V4 & O4 & _).
  split; [exact V4|]. rewrite O4, U3. do 2 f_equal.
  unfold book_entry, bank_of, addr_of in *.
  rewrite S3, <- S2, D2, S2, <- S1. exact E1.
Qed.

(** X11. The book of a symbol runs three messages behind.  Of four
    book-affecting messages in a row for one symbol, the event of the
    fourth is built from the first and the fourth alone: the second and
    the third leave no trace in it. *)
Theorem book_event_lags_three_messages
  (r : regs) (s : Z) (m1 m2 m3 m4 : itch_msg_t) :
  idle_clean r ->
  book_msg_for s m1 -> book_msg_for s m2 ->
  book_msg_for s m3 -> book_msg_for s m4 ->
  let r' := run step r (book_cycles m1 ++ book_cycles m2
                        ++ book_cycles m3 ++ book_cycles m4) in
  event_valid r' = true /\
  event_out r' =
    book_emit m4 (book_process (book_process (current_entry r) m1) m4).
Proof.
  intros Hc H1 H2 H3 H4 r'. unfold r'. rewrite !run_app.
  pose proof (book_cycles_run r s m1 Hc H1) as P1.
  pose proof (book_cycles_run _ s m2 (proj1 P1) H2) as P2.
  pose proof (book_cycles_run _ s m3 (proj1 P2) H3) as P3.
  pose proof (book_cycles_run _ s m4 (proj1 P3) H4) as P4.
  exact (msg_effect_chain s m1 m2 m3 m4 _ _ _ _ _
           (proj2 (proj2 H1)) (proj2 (proj2 H2)) (proj2 (proj2 H3))
           P1 P2 P3 P4).
Qed.

Lemma book_event_lags_three_messages_witness :
  let r' := run step (reset power_up)
              (book_cycles (add_bid 100 10) ++ book_cycles (add_bid 101 20)
               ++ book_cycles (add_bid 102 30) ++ book_cycles (add_bid 99 40)) in
  event_valid r' = true /\
  event_out r' =
    book_emit (add_bid 99 40)
      (book_process
         (book_process (current_entry (reset power_up)) (add_bid 100 10))
         (add_bid 99 40)).
Proof.
  apply (book_event_lags_three_messages (reset power_up) 5).
  - apply reset_idle_clean. reflexivity.
  - repeat split.
  - repeat split.
  - repeat split.
  - repeat split.
Defined.


(** Outside BOOK_IDLE no event is pending. *)
Lemma step_pending_inv (r : regs) (i : inputs) :
  (state r <> BOOK_IDLE -> event_pending r = false) ->
  state (step r i) <> BOOK_IDLE -> event_pending (step r i) = false.
Proof.
  intros Hinv. unfold step, read_conflict. cbn.
  destruct (state r) eqn:Es; cbn.
  - reflexivity.
  - intros _. apply Hinv. discriminate.
  - intros _. apply Hinv. discriminate.
  - intros _. apply Hinv. discriminate.
  - rewrite Hinv by discriminate. rewrite orb_true_r.
    intros H. now contradiction H.
Qed.

Lemma run_pending_inv (ins : list inputs) :
  forall r, (state r <> BOOK_IDLE -> event_pending r = false) ->
    state (run step r ins) <> BOOK_IDLE ->
    event_pending (run step r ins) = false.
Proof.
  induction ins as [|i ins IH]; intros r Hinv; [exact Hinv|].
  rewrite run_cons. apply IH. now apply step_pending_inv.
Qed.

(** X12. An event is valid for one cycle only and [event_ready] is not
    waited for: in every state reached from reset in which [event_valid]
    is high the builder is in BOOK_IDLE, one edge later [event_valid] is
    low, and [stat_updates] has counted the event only if [event_ready]
    was high in that one cycle. *)
Theorem book_event_valid_one_cycle (u : regs) (ins : list inputs) (i : inputs) :
  let r := run step (reset u) ins in
  event_valid r = true ->
  state r = BOOK_IDLE /\
  event_valid (step r i) = false /\
  stat_updates (step r i) =
    (if event_ready i then trunc 32 (stat_updates r + 1) else stat_updates r).
Proof.
  intros r Hv.
  assert (Hinv : state r <> BOOK_IDLE -> event_pending r = false).
  { apply run_pending_inv. intros H. now contradiction H. }
  unfold event_valid in Hv. apply andb_true_iff in Hv. destruct Hv as [Hp Hst].
  assert (Hs : state r = BOOK_IDLE).
  { destruct (state r) eqn:Es; try reflexivity;
      rewrite Hinv in Hp by discriminate; discriminate. }
  split; [exact Hs|].
  remember r as r0 eqn:Er. clear Er Hinv.
  split.
  - unfold event_valid, step. cbn. rewrite Hs. reflexivity.
  - unfold step, event_valid. cbn. rewrite Hp, Hs. cbn. reflexivity.
Qed.

Lemma book_event_valid_one_cycle_witness :
  let r := run step (reset power_up) (book_cycles (add_bid 100 10)) in
  state r = BOOK_IDLE /\
  event_valid (step r (hold false)) = false /\
  stat_updates (step r (hold false)) =
    (if event_ready (hold false) then trunc 32 (stat_updates r + 1)
     else stat_updates r).
Proof.
  apply (book_event_valid_one_cycle power_up (book_cycles (add_bid 100 10))
           (hold false)).
  vm_compute. reflexivity.
Defined.

(** X13. The bank-conflict path is dead: the BOOK_READ test needs a state
    other than BOOK_READ, so from reset (with the unreset push flag low at
    power-up) no message is ever pushed to the conflict FIFO, the FIFO
    stays empty and [stat_bank_conflicts] stays 0, whatever banks
    consecutive messages go to. *)
Theorem book_never_detects_bank_conflict (u : regs) (ins : list inputs) :
  conflict_fifo_push u = false ->
  let r := run step (reset u) ins in
  conflict_fifo_push r = false /\ conflict_fifo_empty r = true /\
  stat_bank_conflicts r = 0.
Proof.
  intros Hp.
  assert (G : forall r0,
            conflict_fifo_push r0 = false -> conflict_fifo_empty r0 = true ->
            conflict_fifo_push (run step r0 ins) = false /\
            conflict_fifo_empty (run step r0 ins) = true /\
            stat_bank_conflicts (run step r0 ins) = stat_bank_conflicts r0).
  { induction ins as [|i ins IH]; intros r0 H1 H2; [auto|].
    rewrite run_cons.
    destruct (step_fifo_quiet r0 i H1 H2) as [H3 H4].
    destruct (IH (step r0 i) (step_never_pushes r0 i) H3) as (H5 & H6 & H7).
    rewrite H4 in H7. auto. }
  apply (G (reset u)); [exact Hp | reflexivity].
Qed.

Lemma book_never_detects_bank_conflict_witness :
  let r := run step (reset power_up)
             (book_cycles (add_bid 100 10) ++ book_cycles (add_bid 101 20)) in
  conflict_fifo_push r = false /\ conflict_fifo_empty r = true /\
  stat_bank_conflicts r = 0.
Proof.
  apply (book_never_detects_bank_conflict power_up). reflexivity.
Defined.

(** X14. A message that is no book update, or whose symbol is unknown,
    still raises an event: two edges after an idle builder takes it the
    event is valid, carries the message's own symbol index and type, and
    shows the top of book that the last processed message left in
    [updated_entry]; the BRAM and [current_entry] are untouched. *)
Theorem book_event_for_non_book_message (r : regs) (i0 i1 : inputs) :
  idle_clean r ->
  cfg_enable i0 = true -> msg_valid i0 = true ->
  m_symbol_valid (msg_in i0) && m_is_book_update (msg_in i0) = false ->
  let r2 := run step r [i0; i1] in
  idle_clean r2 /\
  event_valid r2 = true /\
  event_out r2 = book_emit (msg_in i0) (updated_entry r) /\
  current_entry r2 = current_entry r /\
  (forall b a, bram_mem r2 b a = bram_mem r b a).
Proof.
  intros (Hs & Hp & Hen & Hfe & Hfp) Hc Hv Hnb r2.
  unfold r2. rewrite !run_cons. cbn [run fold_left].
  pose proof (step_idle_accept r i0 Hs Hp Hc Hv) as H1. cbv zeta in H1.
  rewrite Hnb in H1. destruct H1 as (S1 & M1 & P1 & C1 & U1 & E1).
  destruct (step_bram_off r i0 Hen) as (_ & B1).
  destruct (idle_clean_fifo r i0 (conj Hfp Hfe)) as (Q1 & F1).
  remember (step r i0) as r1 eqn:R1. clear R1.
  pose proof (step_emit r1 i1 S1 P1) as H2. cbv zeta in H2.
  destruct H2 as (S2 & G2 & P2 & V2 & C2 & U2 & E2).
  destruct (step_bram_off r1 i1 E1) as (_ & B2).
  destruct (idle_clean_fifo r1 i1 (conj Q1 F1)) as (Q2 & F2).
  remember (step r1 i1) as r2' eqn:R2. clear R2.
  split; [unfold idle_clean; auto|].
  split; [unfold event_valid; rewrite P2, S2; reflexivity|].
  split; [unfold event_out; rewrite V2, M1, U1; reflexivity|].
  split; [now rewrite C2, C1|].
  intros b a. now rewrite B2, B1.
Qed.

Lemma book_event_for_non_book_message_witness :
  let r2 := run step (reset power_up) [offer system_event true; hold true] in
  idle_clean r2 /\
  event_valid r2 = true /\
  event_out r2 =
    book_emit (msg_in (offer system_event true))
      (updated_entry (reset power_up)) /\
  current_entry r2 = current_entry (reset power_up) /\
  (forall b a, bram_mem r2 b a = bram_mem (reset power_up) b a).
Proof.
  apply (book_event_for_non_book_message (reset power_up)
           (offer system_event true) (hold true)).
  - apply reset_idle_clean. reflexivity.
  - reflexivity.
  - reflexivity.
  - reflexivity.
Defined.

End BookTobFsmFacts.

(** ** Risk gate: verdicts, published decisions and the GPIO pulse *)
Section RiskGateVerdictFacts.
Import RiskGate.

(** X17. The reject reason names the first failing check.  In RISK_DECIDE
    the verdict is an accept exactly when the reason is RISK_ACCEPT and
    all six checks pass; otherwise the reason is that of the first check
    that fails in the order kill switch, stale data, sequence gap, price
    band, token bucket, position limit, and all checks before it pass.
    Stale data and sequence gap both need the event's stale flag and
    differ by its age only.  No other reason is ever given. *)
Theorem verdict_reason_is_first_failing_check (r : regs) (i : inputs) :
  state r = RISK_DECIDE ->
  let r' := step r i in
  (accept r' = true <-> reject_reason r' = RISK_ACCEPT) /\
  match reject_reason r' with
  | RISK_ACCEPT =>
      cfg_kill i = false /\ ev_stale (event_reg r) = false /\
      check_price_band_ok r i = true /\ 0 < token_bucket r /\
      check_position_ok r i = true
  | RISK_KILL_SWITCH => cfg_kill i = true
  | RISK_STALE_DATA =>
      cfg_kill i = false /\ ev_stale (event_reg r) = true /\
      stale_threshold_cycles i < data_age_cycles r i
  | RISK_SEQ_GAP =>
      cfg_kill i = false /\ ev_stale (event_reg r) = true /\
      data_age_cycles r i <= stale_threshold_cycles i
  | RISK_PRICE_BAND =>
      cfg_kill i = false /\ ev_stale (event_reg r) = false /\
      check_price_band_ok r i = false
  | RISK_TOKEN_BUCKET =>
      cfg_kill i = false /\ ev_stale (event_reg r) = false /\
      check_price_band_ok r i = true /\ token_bucket r <= 0
  | RISK_POSITION_LIMIT =>
      cfg_kill i = false /\ ev_stale (event_reg r) = false /\
      check_price_band_ok r i = true /\ 0 < token_bucket r /\
      check_position_ok r i = false
  | _ => False
  end.
Proof.
  intros Hs r'. unfold r'.
  rewrite (decide_accept r i Hs), (decide_reject_reason r i Hs).
  unfold decide_reason, all_checks_ok, check_not_killed, check_not_stale,
    check_no_seq_gap, check_token_ok.
  destruct (cfg_kill i); cbn [negb andb orb].
  { split; [split; discriminate | reflexivity]. }
  destruct (ev_stale (event_reg r)); cbn [negb andb orb].
  { rewrite orb_false_r, andb_false_r. cbn [andb negb].
    destruct (data_age_cycles r i <=? stale_threshold_cycles i) eqn:Ea;
      cbn [negb andb].
    - apply Z.leb_le in Ea. split; [split; discriminate | auto].
    - apply Z.leb_gt in Ea. split; [split; discriminate | auto]. }
  rewrite orb_true_r. cbn [negb andb].
  destruct (check_price_band_ok r i); cbn [negb andb].
  2: { split; [split; discriminate | auto]. }
  destruct (0 <? token_bucket r) eqn:Et; cbn [negb andb].
  2: { apply Z.ltb_ge in Et. split; [split; discriminate | auto]. }
  apply Z.ltb_lt in Et.
  destruct (check_position_ok r i); cbn [negb andb].
  - split; [split; reflexivity | auto].
  - split; [split; discriminate | auto].
Qed.

Lemma verdict_reason_is_first_failing_check_witness :
  let r' := step RiskExamples.deciding_stale Examples.quiet in
  (accept r' = true <-> reject_reason r' = RISK_ACCEPT) /\
  cfg_kill Examples.quiet = false /\
  ev_stale (event_reg RiskExamples.deciding_stale) = true /\
  data_age_cycles RiskExamples.deciding_stale Examples.quiet
    <= stale_threshold_cycles Examples.quiet.
Proof.
  exact (verdict_reason_is_first_failing_check RiskExamples.deciding_stale
           Examples.quiet eq_refl).
Defined.

(** X18. The position check compares against bits 30:0 of the signed
    32-bit limit: a limit and the same limit with its sign bit cleared give
    the same answer (so -1 admits every quantity below 2^31), and no
    quantity of 2^31 or more passes under any limit. *)
Theorem position_check_ignores_sign_bit (r : regs) (i : inputs) :
  0 <= cfg_position_limit i < 2 ^ 32 ->
  let q := Z.max (tob_bid_qty (ev_tob (event_reg r)))
             (tob_ask_qty (ev_tob (event_reg r))) in
  check_position_ok r i = (q <=? cfg_position_limit i mod 2 ^ 31) /\
  (2 ^ 31 <= q -> check_position_ok r i = false).
Proof.
  intros Hl q.
  assert (Hb : bits 30 0 (cfg_position_limit i) = cfg_position_limit i mod 2 ^ 31).
  { unfold bits. change (2 ^ 0) with 1. rewrite Z.div_1_r. reflexivity. }
  pose proof (Z.mod_pos_bound (cfg_position_limit i) (2 ^ 31) ltac:(lia)) as Hm.
  assert (Heq : check_position_ok r i = (q <=? cfg_position_limit i mod 2 ^ 31)).
  { unfold check_position_ok. rewrite Hb. unfold q.
    destruct (Z.max_spec (tob_bid_qty (ev_tob (event_reg r)))
                (tob_ask_qty (ev_tob (event_reg r)))) as [[H1 ->] | [H1 ->]].
    - destruct (tob_ask_qty (ev_tob (event_reg r))
                <=? cfg_position_limit i mod 2 ^ 31) eqn:E.
      + apply Z.leb_le in E. rewrite andb_true_r. apply Z.leb_le. lia.
      + apply andb_false_r.
    - destruct (tob_bid_qty (ev_tob (event_reg r))
                <=? cfg_position_limit i mod 2 ^ 31) eqn:E; cbn [andb];
        [|reflexivity].
      apply Z.leb_le in E. apply Z.leb_le. lia. }
  split; [exact Heq|].
  intros Hq. rewrite Heq. apply Z.leb_gt. lia.
Qed.

Lemma position_check_ignores_sign_bit_witness :
  check_position_ok RiskExamples.deciding_stale RiskExamples.limit_minus_one =
    (Z.max (tob_bid_qty (ev_tob (event_reg RiskExamples.deciding_stale)))
       (tob_ask_qty (ev_tob (event_reg RiskExamples.deciding_stale)))
     <=? cfg_position_limit RiskExamples.limit_minus_one mod 2 ^ 31).
Proof.
  refine (proj1 (position_check_ignores_sign_bit RiskExamples.deciding_stale
                   RiskExamples.limit_minus_one _)).
  vm_compute. split; [discriminate | reflexivity].
Defined.

(** One event through the gate, from RISK_IDLE back to RISK_IDLE. *)
Lemma gate_event_run (r : regs) (i0 i1 i2 : inputs) :
  state r = RISK_IDLE -> event_valid i0 = true -> cfg_enable i0 = true ->
  let r2 := run step r [i0; i1] in
  let r3 := step r2 i2 in
  state r2 = RISK_DECIDE /\ event_reg r2 = event_in i0 /\
  state r3 = RISK_IDLE /\ decision_pending r3 = true /\
  decision_reg r3 =
    {| ro_accept := accept r;  ro_reason := reject_reason r;
       ro_decision_ts := timestamp_cnt i0;  ro_book_event := event_in i0 |} /\
  accept r3 = all_checks_ok r2 i2 /\
  reject_reason r3 = decide_reason r2 i2.
Proof.
  intros Hs Hv He. rewrite !run_cons. cbn [run fold_left].
  assert (H1 : state (step r i0) = RISK_CHECK /\
               event_reg (step r i0) = event_in i0 /\
               decision_ts (step r i0) = timestamp_cnt i0 /\
               decision_pending (step r i0) = false /\
               accept (step r i0) = accept r /\
               reject_reason (step r i0) = reject_reason r).
  { unfold step, event_ready, is_idle. cbn. rewrite Hs, Hv, He. cbn.
    repeat split. }
  destruct H1 as (S1 & E1 & T1 & P1 & A1 & R1).
  remember (step r i0) as r1 eqn:Er1. clear Er1.
  assert (H2 : state (step r1 i1) = RISK_DECIDE /\
               event_reg (step r1 i1) = event_reg r1 /\
               decision_ts (step r1 i1) = decision_ts r1 /\
               decision_pending (step r1 i1) = decision_pending r1 /\
               accept (step r1 i1) = accept r1 /\
               reject_reason (step r1 i1) = reject_reason r1).
  { unfold step. cbn. rewrite S1. repeat split. }
  destruct H2 as (S2 & E2 & T2 & P2 & A2 & R2).
  remember (step r1 i1) as r2 eqn:Er2. clear Er2.
  cbv zeta.
  split; [exact S2|]. split; [now rewrite E2|].
  unfold step. cbn. rewrite S2, P2, P1, orb_true_r, A2, A1, R2, R1, T2, T1, E2, E1.
  repeat split.
Qed.

(** X19. The decision published for an event carries the verdict of the
    event before it.  An event taken in RISK_IDLE is decided three edges
    later and its decision is valid for the one cycle that follows,
    whether or not [decision_ready] is high; the decision holds the event
    and the time it was taken, but its accept flag and reason are the
    [accept] and [reject_reason] registers as they stood before this
    event was checked.  The verdict on this event is published with the
    next event's decision. *)
Theorem published_verdict_lags_one_event
  (r : regs) (i0 i1 i2 i3 i4 i5 i6 : inputs) :
  state r = RISK_IDLE ->
  event_valid i0 = true -> cfg_enable i0 = true ->
  event_valid i3 = true -> cfg_enable i3 = true ->
  let r2 := run step r [i0; i1] in
  let r3 := step r2 i2 in
  let r6 := run step r3 [i3; i4; i5] in
  decision_valid r3 = true /\
  ro_book_event (decision_out r3) = event_in i0 /\
  ro_decision_ts (decision_out r3) = timestamp_cnt i0 /\
  ro_accept (decision_out r3) = accept r /\
  ro_reason (decision_out r3) = reject_reason r /\
  decision_valid r6 = true /\
  ro_book_event (decision_out r6) = event_in i3 /\
  event_reg r2 = event_in i0 /\
  ro_accept (decision_out r6) = all_checks_ok r2 i2 /\
  ro_reason (decision_out r6) = decide_reason r2 i2 /\
  decision_valid (step r6 i6) = false.
Proof.
  intros Hs Hv0 He0 Hv3 He3.
  pose proof (gate_event_run r i0 i1 i2 Hs Hv0 He0) as H. cbv zeta in H.
  cbv zeta. remember (run step r [i0; i1]) as r2 eqn:Er2. clear Er2.
  destruct H as (S2 & E2 & S3 & P3 & D3 & A3 & R3).
  remember (step r2 i2) as r3 eqn:Er3. clear Er3.
  pose proof (gate_event_run r3 i3 i4 i5 S3 Hv3 He3) as H. cbv zeta in H.
  destruct H as (_ & _ & S6 & P6 & D6 & _ & _).
  change (run step r3 [i3; i4; i5]) with (step (run step r3 [i3; i4]) i5).
  remember (step (run step r3 [i3; i4]) i5) as r6 eqn:Er6. clear Er6.
  unfold decision_valid, decision_out, is_decide, is_idle.
  rewrite S3, P3, D3, S6, P6, D6, A3, R3. cbn.
  repeat split; try assumption.
  unfold step. cbn. rewrite S6. reflexivity.
Qed.

Lemma published_verdict_lags_one_event_witness :
  let r2 := run step Examples.warm [RiskExamples.offer_stale; Examples.quiet] in
  let r3 := step r2 Examples.quiet in
  let r6 := run step r3 [Examples.offer; Examples.quiet; Examples.quiet] in
  decision_valid r3 = true /\
  ro_book_event (decision_out r3) = event_in RiskExamples.offer_stale /\
  ro_decision_ts (decision_out r3) = timestamp_cnt RiskExamples.offer_stale /\
  ro_accept (decision_out r3) = accept Examples.warm /\
  ro_reason (decision_out r3) = reject_reason Examples.warm /\
  decision_valid r6 = true /\
  ro_book_event (decision_out r6) = event_in Examples.offer /\
  event_reg r2 = event_in RiskExamples.offer_stale /\
  ro_accept (decision_out r6) = all_checks_ok r2 Examples.quiet /\
  ro_reason (decision_out r6) = decide_reason r2 Examples.quiet /\
  decision_valid (step r6 Examples.quiet) = false.
Proof.
  exact (published_verdict_lags_one_event Examples.warm
           RiskExamples.offer_stale Examples.quiet Examples.quiet
           Examples.offer Examples.quiet Examples.quiet Examples.quiet
           eq_refl eq_refl eq_refl eq_refl eq_refl).
Defined.

End RiskGateVerdictFacts.

Section RiskGatePulseFacts.
Import RiskGatePulse.

Lemma pulse_countdown (k : nat) :
  forall c, 0 <= c <= GPIO_PULSE_WIDTH ->
    run step {| gpio_pulse_cnt := c;  gpio_pulse := 0 <? c |} (repeat false k)
    = {| gpio_pulse_cnt := Z.max 0 (c - Z.of_nat k);
         gpio_pulse := 0 <? c - Z.of_nat k |}.
Proof.
  unfold GPIO_PULSE_WIDTH.
  induction k as [|k IH]; intros c Hc.
  - cbn [repeat run fold_left]. f_equal; [lia | f_equal; lia].
  - cbn [repeat]. rewrite run_cons. unfold step at 2. cbn [gpio_pulse_cnt gpio_pulse].
    destruct (0 <? c) eqn:E.
    + apply Z.ltb_lt in E.
      replace (trunc 4 (c - 1)) with (c - 1)
        by (symmetry; apply trunc_small; change (2 ^ 4) with 16; lia).
      replace (if c =? 1 then false else true) with (0 <? c - 1).
      2: { destruct (c =? 1) eqn:E1.
           - apply Z.eqb_eq in E1. subst. reflexivity.
           - apply Z.eqb_neq in E1. apply Z.ltb_lt. lia. }
      rewrite IH by lia. f_equal; [lia | f_equal; lia].
    + apply Z.ltb_ge in E. assert (c = 0) by lia. subst c.
      change {| gpio_pulse_cnt := 0;  gpio_pulse := false |}
        with {| gpio_pulse_cnt := 0;  gpio_pulse := 0 <? 0 |}.
      rewrite IH by lia.
      assert (H1 : (0 <? 0 - Z.of_nat k) = false) by (apply Z.ltb_ge; lia).
      assert (H2 : (0 <? 0 - Z.of_nat (S k)) = false) by (apply Z.ltb_ge; lia).
      rewrite H1, H2. f_equal. lia.
Qed.

(** X20. The GPIO pulse is 10 cycles wide: whatever the generator was
    doing, a trigger raises [gpio_pulse], and with no further trigger the
    pulse is still high after [k] more edges exactly when [k < 10]. *)
Theorem gpio_pulse_is_ten_cycles (g : regs) (k : nat) :
  gpio_pulse (run step (step g true) (repeat false k))
    = (Z.of_nat k <? GPIO_PULSE_WIDTH).
Proof.
  unfold step at 2. cbn [gpio_pulse_cnt].
  change (trunc 4 GPIO_PULSE_WIDTH) with 10.
  change true with (0 <? 10) at 1.
  rewrite pulse_countdown by (unfold GPIO_PULSE_WIDTH; lia).
  cbn [gpio_pulse]. unfold GPIO_PULSE_WIDTH.
  destruct (Z.of_nat k <? 10) eqn:E.
  - apply Z.ltb_lt in E. apply Z.ltb_lt. lia.
  - apply Z.ltb_ge in E. apply Z.ltb_ge. lia.
Qed.

End RiskGatePulseFacts.

(** ** DMA engines: what reaches the bridge *)
Section DmaPcieEpFlowFacts.
Import DmaRecord DmaPcieEp DmaPcieEpFlow.

(** With both indices equal the ring counts no free slot. *)
Lemma ep_equal_indices_full (r : regs) (i : inputs) :
  prod_idx_reg r = cons_idx_sync r -> record_ready r i = false.
Proof.
  intros H. unfold record_ready, ring_full, free_slots.
  rewrite H, Z.leb_refl, Z.sub_diag. cbn. apply andb_false_r.
Qed.

(** X21. [dma_pcie_ep] takes an empty ring for a full one: equal producer
    and consumer indices give no free slot.  From reset, as long as the
    host's consumer index reads 0, no record is ever accepted or written:
    the engine stays in DMA_IDLE with producer index 0 and no write, and
    every offered record is counted as a ring overflow. *)
Theorem ep_empty_ring_is_never_ready (ins : list inputs) :
  Forall (fun i => trunc IDX_WIDTH (cons_idx_shadow i) = 0) ins ->
  Z.of_nat (length ins) < 2 ^ 32 ->
  let r := run step reset ins in
  state r = DMA_IDLE /\ prod_idx_reg r = 0 /\ avm_write r = false /\
  stat_dma_writes r = 0 /\
  stat_ring_overflows r = offered ins /\
  (forall i, record_ready r i = false).
Proof.
  intros Hall Hlen.
  assert (G : forall r0 n,
            state r0 = DMA_IDLE -> prod_idx_reg r0 = 0 ->
            cons_idx_sync1 r0 = 0 -> cons_idx_sync2 r0 = 0 ->
            cons_idx_sync r0 = 0 -> stat_dma_writes r0 = 0 ->
            stat_ring_overflows r0 = n -> 0 <= n ->
            n + Z.of_nat (length ins) < 2 ^ 32 ->
            let r := run step r0 ins in
            state r = DMA_IDLE /\ prod_idx_reg r = 0 /\
            cons_idx_sync r = 0 /\ stat_dma_writes r = 0 /\
            stat_ring_overflows r = n + offered ins).
  { clear Hlen. induction Hall as [|i ins Hi Hall IH];
      intros r0 n Hs Hp H1 H2 H3 Hw Ho Hn Hlen.
    - cbn. unfold offered. cbn. repeat split; try assumption. lia.
    - rewrite run_cons.
      assert (Hrdy : record_ready r0 i = false)
        by (apply ep_equal_indices_full; congruence).
      cbn [length] in Hlen.
      specialize (IH (step r0 i)
                     (if record_valid i then n + 1 else n)).
      cbv zeta in IH.
      destruct IH as (A & B & C & D & E).
      + unfold step. cbn. rewrite Hs, Hrdy, andb_false_r. reflexivity.
      + unfold step, is_write. cbn. rewrite Hs. cbn. exact Hp.
      + unfold step. cbn. exact Hi.
      + unfold step. cbn. exact H1.
      + unfold step. cbn. exact H2.
      + unfold step, is_write. cbn. rewrite Hs. cbn. exact Hw.
      + unfold step. cbn. rewrite Hrdy, Ho. cbn [negb]. rewrite andb_true_r.
        destruct (record_valid i); [|reflexivity].
        apply trunc_small. lia.
      + destruct (record_valid i); lia.
      + destruct (record_valid i); lia.
      + cbv zeta. repeat split; try assumption.
        rewrite E. unfold offered. cbn [filter].
        destruct (record_valid i); cbn [length]; lia. }
  destruct (G reset 0) as (A & B & C & D & E); try reflexivity; try lia.
  cbv zeta. repeat split; try assumption.
  - unfold avm_write, is_write. now rewrite A.
  - intros i. apply ep_equal_indices_full. congruence.
Qed.

Lemma ep_empty_ring_is_never_ready_witness :
  let ins := [ep_cycle PcieDmaFlow.some_output true 1024 0 false;
              ep_cycle PcieDmaFlow.some_output true 1024 0 false;
              ep_cycle PcieDmaFlow.some_output false 1024 0 false] in
  let r := run step reset ins in
  state r = DMA_IDLE /\ prod_idx_reg r = 0 /\ avm_write r = false /\
  stat_dma_writes r = 0 /\
  stat_ring_overflows r = offered ins /\
  (forall i, record_ready r i = false).
Proof.
  apply ep_empty_ring_is_never_ready.
  - repeat constructor.
  - cbn. lia.
Defined.


(** While the bridge stalls, DMA_WRITE holds. *)
Lemma ep_write_stalled (waits : list inputs) :
  forall r, state r = DMA_WRITE ->
    Forall (fun i => avm_waitrequest i = true) waits ->
    let r' := run step r waits in
    state r' = DMA_WRITE /\ record_build r' = record_build r /\
    prod_idx_reg r' = prod_idx_reg r /\
    stat_dma_writes r' = stat_dma_writes r.
Proof.
  induction waits as [|i ws IH]; intros r Hs Hall; [now repeat split|].
  inversion Hall as [|? ? Hi Hall']; subst.
  rewrite run_cons.
  assert (H1 : state (step r i) = DMA_WRITE /\
               record_build (step r i) = record_build r /\
               prod_idx_reg (step r i) = prod_idx_reg r /\
               stat_dma_writes (step r i) = stat_dma_writes r).
  { unfold step, is_write. cbn -[calc_crc16]. rewrite Hs, Hi. cbn -[calc_crc16].
    repeat split. }
  destruct H1 as (A & B & C & D).
  pose proof (IH (step r i) A Hall') as H. cbv zeta in H.
  destruct H as (A' & B' & C' & D').
  cbv zeta. rewrite A', B', C', D'. auto.
Qed.

Lemma ep_step_take (r : regs) (i : inputs) :
  state r = DMA_IDLE -> record_valid i = true -> record_ready r i = true ->
  state (step r i) = DMA_BUILD /\
  record_build (step r i) = build_record (record_in i) (record_build r) /\
  prod_idx_reg (step r i) = prod_idx_reg r /\
  stat_dma_writes (step r i) = stat_dma_writes r.
Proof.
  intros Hs Hv Hr.
  unfold step, is_write. cbn -[calc_crc16 build_record]. rewrite Hs, Hv, Hr.
  cbn -[calc_crc16 build_record]. repeat split.
Qed.

Lemma ep_step_build (r : regs) (i : inputs) :
  state r = DMA_BUILD ->
  state (step r i) = DMA_WRITE /\
  record_build (step r i) =
    with_crc (record_build r)
      (calc_crc16 (bits 511 64 (pack (record_build r)))) /\
  prod_idx_reg (step r i) = prod_idx_reg r /\
  stat_dma_writes (step r i) = stat_dma_writes r.
Proof.
  intros Hs.
  unfold step, is_write, record_packed. cbn -[calc_crc16 with_crc pack bits].
  rewrite Hs. cbn -[calc_crc16 with_crc pack bits]. repeat split.
Qed.

Lemma ep_step_write (r : regs) (i : inputs) :
  state r = DMA_WRITE -> avm_waitrequest i = false ->
  state (step r i) = DMA_WAIT /\
  prod_idx_reg (step r i) = next_prod_idx r i /\
  stat_dma_writes (step r i) = trunc 32 (stat_dma_writes r + 1).
Proof.
  intros Hs Hw.
  unfold step, is_write, next_prod_idx. cbn -[calc_crc16 with_crc].
  rewrite Hs, Hw. cbn -[calc_crc16 with_crc]. repeat split.
Qed.

(** X22. One record through [dma_pcie_ep].  A record taken in DMA_IDLE is
    on the bus two edges later: [avm_write] is high, the address is the
    ring base plus 64 times the producer index, and the data is the packed
    record with its CRC field.  While the bridge holds [avm_waitrequest]
    high the write, its address and its data stay as they are; the edge
    at which the bridge takes the write advances the producer index by
    one, or to 0 from [ring_length - 1] on, and counts the write. *)
Theorem ep_record_write_flow
  (r : regs) (i0 i1 i2 : inputs) (waits : list inputs) (base : Z) :
  state r = DMA_IDLE -> record_valid i0 = true -> record_ready r i0 = true ->
  Forall (fun i => avm_waitrequest i = true) waits ->
  avm_waitrequest i2 = false ->
  let built := build_record (record_in i0) (record_build r) in
  let sent := with_crc built (calc_crc16 (bits 511 64 (pack built))) in
  let r2 := step (step r i0) i1 in
  let r3 := run step r2 waits in
  let r4 := step r3 i2 in
  avm_write r2 = true /\ avm_writedata r2 = pack sent /\
  avm_write r3 = true /\ avm_writedata r3 = pack sent /\
  avm_address r3 base = avm_address r base /\
  state r4 = DMA_WAIT /\ avm_write r4 = false /\
  prod_idx_reg r4 = (if trunc 32 (trunc IDX_WIDTH (ring_length i2) - 1)
                        <=? prod_idx_reg r
                     then 0 else trunc IDX_WIDTH (prod_idx_reg r + 1)) /\
  stat_dma_writes r4 = trunc 32 (stat_dma_writes r + 1).
Proof.
  intros Hs Hv Hr Hw Hi2. cbv zeta.
  destruct (ep_step_take r i0 Hs Hv Hr) as (S1 & B1 & P1 & W1).
  remember (step r i0) as r1 eqn:E1. clear E1.
  destruct (ep_step_build r1 i1 S1) as (S2 & B2 & P2 & W2).
  rewrite B1 in B2.
  remember (step r1 i1) as r2 eqn:E2. clear E2.
  pose proof (ep_write_stalled waits r2 S2 Hw) as H3. cbv zeta in H3.
  destruct H3 as (S3 & B3 & P3 & W3).
  remember (run step r2 waits) as r3 eqn:E3. clear E3.
  destruct (ep_step_write r3 i2 S3 Hi2) as (S4 & P4 & W4).
  unfold next_prod_idx in P4.
  remember (step r3 i2) as r4 eqn:E4. clear E4.
  unfold avm_write, avm_writedata, avm_address, record_packed, is_write.
  rewrite S2, S3, S4, B3, B2, P4, W4, P3, P2, P1, W3, W2, W1.
  repeat split.
Qed.

Lemma ep_record_write_flow_witness :
  let r := step (step (step (step reset
                   (ep_cycle PcieDmaFlow.some_output false 1024 100 false))
                   (ep_cycle PcieDmaFlow.some_output false 1024 100 false))
                   (ep_cycle PcieDmaFlow.some_output false 1024 100 false))
                   (ep_cycle PcieDmaFlow.some_output false 1024 100 false) in
  let i := ep_cycle PcieDmaFlow.some_output true 1024 100 false in
  let w := ep_cycle PcieDmaFlow.some_output false 1024 100 true in
  let r3 := run step (step (step r i) i) [w; w] in
  avm_write r3 = true /\ avm_address r3 4096 = avm_address r 4096 /\
  state (step r3 i) = DMA_WAIT /\ prod_idx_reg (step r3 i) = 1.
Proof.
  cbv zeta.
  pose proof (ep_record_write_flow
    (step (step (step (step reset
       (ep_cycle PcieDmaFlow.some_output false 1024 100 false))
       (ep_cycle PcieDmaFlow.some_output false 1024 100 false))
       (ep_cycle PcieDmaFlow.some_output false 1024 100 false))
       (ep_cycle PcieDmaFlow.some_output false 1024 100 false))
    (ep_cycle PcieDmaFlow.some_output true 1024 100 false)
    (ep_cycle PcieDmaFlow.some_output true 1024 100 false)
    (ep_cycle PcieDmaFlow.some_output true 1024 100 false)
    [ep_cycle PcieDmaFlow.some_output false 1024 100 true;
     ep_cycle PcieDmaFlow.some_output false 1024 100 true]
    4096 eq_refl eq_refl eq_refl
    (Forall_cons _ (eq_refl : avm_waitrequest
        (ep_cycle PcieDmaFlow.some_output false 1024 100 true) = true)
       (Forall_cons _ (eq_refl : avm_waitrequest
        (ep_cycle PcieDmaFlow.some_output false 1024 100 true) = true)
          (Forall_nil _))) eq_refl) as H.
  cbv zeta in H.
  destruct H as (_ & _ & H3 & _ & H5 & H6 & _ & H8 & _).
  split; [exact H3|]. split; [exact H5|]. split; [exact H6|]. exact H8.
Defined.

End DmaPcieEpFlowFacts.

Section PcieDmaFlowFacts.
Import DmaRecord PcieDma PcieDmaFlow.

(** A cycle without a new record leaves the FIFO memory and its write
    pointer alone; the read pointer moves only by a pop. *)
Lemma dma_step_no_push (r : regs) (i : inputs) :
  record_valid i = false ->
  input_fifo (step r i) = input_fifo r /\
  fifo_wr_ptr (step r i) = fifo_wr_ptr r /\
  fifo_rd_ptr (step r i) =
    (if fifo_pop r && negb (fifo_empty r)
     then trunc 5 (fifo_rd_ptr r + 1) else fifo_rd_ptr r).
Proof.
  intros Hv. unfold step, fifo_push. cbn. rewrite Hv. cbn. repeat split.
Qed.

Lemma dma_step_idle (r : regs) (i : inputs) :
  record_waiting r i ->
  state (step r i) = DMA_BUILD /\ pcie_write (step r i) = false /\
  fifo_pop (step r i) = false /\ prod_idx (step r i) = prod_idx r /\
  stat_records_dma (step r i) = stat_records_dma r.
Proof.
  intros (Hs & _ & _ & He & Hf & Hc).
  unfold step, ring_accept, is_idle, is_update. cbn.
  rewrite Hs, He, Hf, Hc. cbn. repeat split.
Qed.

Lemma dma_step_build (r : regs) (i : inputs) :
  state r = DMA_BUILD ->
  state (step r i) = DMA_WRITE_0 /\ pcie_write (step r i) = false /\
  fifo_pop (step r i) = false /\ prod_idx (step r i) = prod_idx r /\
  stat_records_dma (step r i) = stat_records_dma r.
Proof.
  intros Hs. unfold step, is_update. cbn. rewrite Hs. repeat split.
Qed.

Lemma dma_step_write_0 (r : regs) (i : inputs) :
  state r = DMA_WRITE_0 ->
  state (step r i) =
    (if pcie_waitrequest i then DMA_WRITE_0 else DMA_WRITE_1) /\
  pcie_write (step r i) = true /\
  pcie_address (step r i) = dma_addr r i /\
  pcie_writedata (step r i) = half_lo r /\
  fifo_pop (step r i) = false /\ prod_idx (step r i) = prod_idx r /\
  stat_records_dma (step r i) = stat_records_dma r.
Proof.
  intros Hs. unfold step, is_update, half_lo. cbn -[pack bits].
  rewrite Hs. repeat split.
Qed.

Lemma dma_step_write_1 (r : regs) (i : inputs) :
  state r = DMA_WRITE_1 ->
  state (step r i) =
    (if pcie_waitrequest i then DMA_WRITE_1 else DMA_UPDATE_IDX) /\
  pcie_write (step r i) = true /\
  pcie_address (step r i) = trunc 64 (dma_addr r i + 32) /\
  pcie_writedata (step r i) = half_hi r /\
  fifo_pop (step r i) = negb (pcie_waitrequest i) /\
  prod_idx (step r i) = prod_idx r /\
  stat_records_dma (step r i) = stat_records_dma r.
Proof.
  intros Hs. unfold step, is_update, half_hi. cbn -[pack bits].
  rewrite Hs. repeat split.
Qed.

Lemma dma_step_update (r : regs) (i : inputs) :
  state r = DMA_UPDATE_IDX ->
  state (step r i) = DMA_IDLE /\ pcie_write (step r i) = false /\
  fifo_pop (step r i) = false /\
  prod_idx (step r i) = next_prod_idx r i /\
  stat_records_dma (step r i) = trunc 32 (stat_records_dma r + 1).
Proof.
  intros Hs. unfold step, is_update. cbn. rewrite Hs. repeat split.
Qed.

(** The record at the FIFO head and the ring address stay put while
    nothing is pushed or popped. *)
Lemma dma_head_stays (r : regs) (i : inputs) :
  record_valid i = false -> fifo_pop r = false ->
  prod_idx (step r i) = prod_idx r ->
  half_lo (step r i) = half_lo r /\ half_hi (step r i) = half_hi r /\
  fifo_rd_ptr (step r i) = fifo_rd_ptr r /\
  fifo_empty (step r i) = fifo_empty r /\
  (forall j, dma_addr (step r i) j = dma_addr r j) /\
  (forall j, next_prod_idx (step r i) j = next_prod_idx r j).
Proof.
  intros Hv Hp Hx.
  destruct (dma_step_no_push r i Hv) as (Hm & Hw & Hr).
  rewrite Hp in Hr. cbn [andb] in Hr.
  unfold half_lo, half_hi, record_packed, record_buf, fifo_data_out,
    fifo_empty, dma_addr, next_prod_idx.
  rewrite Hm, Hw, Hr, Hx. repeat split.
Qed.


(** From a waiting record to DMA_WRITE_1 with the first half on the bus,
    the bridge not stalling DMA_WRITE_0. *)
Lemma dma_to_write_1 (r : regs) (base size c0 c1 c2 : Z) (w0 w1 : bool) :
  record_waiting r (cycle base size c0 w0) ->
  let ins := [cycle base size c0 w0; cycle base size c1 w1;
              cycle base size c2 false] in
  let r3 := run step r ins in
  transfers r ins = [] /\
  state r3 = DMA_WRITE_1 /\ pcie_write r3 = true /\
  pcie_address r3 = trunc 64 (base + prod_idx r * RECORD_BYTES) /\
  pcie_writedata r3 = half_lo r /\
  fifo_pop r3 = false /\ prod_idx r3 = prod_idx r /\
  stat_records_dma r3 = stat_records_dma r /\
  half_hi r3 = half_hi r /\ fifo_rd_ptr r3 = fifo_rd_ptr r /\
  fifo_empty r3 = false /\
  (forall j, dma_addr r3 j = dma_addr r j) /\
  (forall j, next_prod_idx r3 j = next_prod_idx r j).
Proof.
  intros Hw. cbv zeta. rewrite !run_cons. cbn [run fold_left transfers].
  pose proof Hw as (Hs & Hpw & Hpop & Hne & _ & _).
  destruct (dma_step_idle r _ Hw) as (S1 & W1 & Q1 & P1 & T1).
  destruct (dma_head_stays r (cycle base size c0 w0) eq_refl Hpop P1)
    as (L1 & H1 & R1 & E1 & A1 & N1).
  remember (step r (cycle base size c0 w0)) as r1 eqn:X1. clear X1.
  destruct (dma_step_build r1 (cycle base size c1 w1) S1)
    as (S2 & W2 & Q2 & P2 & T2).
  destruct (dma_head_stays r1 (cycle base size c1 w1) eq_refl Q1 P2)
    as (L2 & H2 & R2 & E2 & A2 & N2).
  remember (step r1 (cycle base size c1 w1)) as r2 eqn:X2. clear X2.
  destruct (dma_step_write_0 r2 (cycle base size c2 false) S2)
    as (S3 & W3 & D3 & V3 & Q3 & P3 & T3).
  destruct (dma_head_stays r2 (cycle base size c2 false) eq_refl Q2 P3)
    as (L3 & H3 & R3 & E3 & A3 & N3).
  remember (step r2 (cycle base size c2 false)) as r3 eqn:X3. clear X3.
  rewrite Hpw, W1, W2. cbn [andb app].
  split; [reflexivity|]. split; [exact S3|]. split; [exact W3|].
  split; [rewrite D3, A2, A1; reflexivity|].
  split; [now rewrite V3, L2, L1|].
  split; [exact Q3|]. split; [now rewrite P3, P2, P1|].
  split; [now rewrite T3, T2, T1|].
  split; [now rewrite H3, H2, H1|].
  split; [now rewrite R3, R2, R1|].
  split; [now rewrite E3, E2, E1|].
  split; intros j; [now rewrite A3, A2, A1 | now rewrite N3, N2, N1].
Qed.

(** From DMA_WRITE_1, the bridge not stalling, to DMA_IDLE. *)
Lemma dma_finish (r3 : regs) (base size c3 c4 : Z) :
  state r3 = DMA_WRITE_1 -> pcie_write r3 = true -> fifo_pop r3 = false ->
  fifo_empty r3 = false ->
  let ins := [cycle base size c3 false; cycle base size c4 false] in
  let r5 := run step r3 ins in
  transfers r3 ins =
    [(pcie_address r3, pcie_writedata r3);
     (trunc 64 (dma_addr r3 (cycle base size c3 false) + 32), half_hi r3)] /\
  state r5 = DMA_IDLE /\ pcie_write r5 = false /\
  prod_idx r5 = next_prod_idx r3 (cycle base size c4 false) /\
  fifo_rd_ptr r5 = trunc 5 (fifo_rd_ptr r3 + 1) /\
  stat_records_dma r5 = trunc 32 (stat_records_dma r3 + 1).
Proof.
  intros S3 W3 Q3 E3. cbv zeta. rewrite !run_cons.
  cbn [run fold_left transfers].
  destruct (dma_step_write_1 r3 (cycle base size c3 false) S3)
    as (S4 & W4 & D4 & V4 & Q4 & P4 & T4).
  destruct (dma_head_stays r3 (cycle base size c3 false) eq_refl Q3 P4)
    as (_ & _ & R4 & E4 & _ & N4).
  cbn [pcie_waitrequest cycle negb] in S4, Q4.
  remember (step r3 (cycle base size c3 false)) as r4 eqn:X4. clear X4.
  destruct (dma_step_update r4 (cycle base size c4 false) S4)
    as (S5 & W5 & Q5 & P5 & T5).
  destruct (dma_step_no_push r4 (cycle base size c4 false) eq_refl)
    as (_ & _ & R5).
  rewrite Q4, E4, E3 in R5. cbn [andb negb] in R5.
  remember (step r4 (cycle base size c4 false)) as r5 eqn:X5. clear X5.
  rewrite W3, W4, D4, V4. cbn [pcie_waitrequest cycle negb andb app].
  split; [reflexivity|]. split; [exact S5|]. split; [exact W5|].
  split; [now rewrite P5, N4|].
  split; [now rewrite R5, R4|].
  now rewrite T5, T4.
Qed.


Lemma transfers_app (xs ys : list inputs) :
  forall r, transfers r (xs ++ ys)
            = transfers r xs ++ transfers (run step r xs) ys.
Proof.
  induction xs as [|x xs IH]; intros r; [reflexivity|].
  cbn [app transfers]. rewrite IH, run_cons. now rewrite app_assoc.
Qed.

(** X23. One record through [pcie_dma] when the bridge does not stall.
    A record waiting at the FIFO head of an idle engine reaches the bridge
    as exactly two writes, bytes 0..31 at ring base + 64 * producer index
    and bytes 32..63 at that address + 32; five edges later the engine is
    idle again, the producer index has advanced within the ring size, the
    record has left the FIFO and been counted. *)
Theorem pcie_dma_record_transfer
  (r : regs) (base size c0 c1 c2 c3 c4 : Z) (w0 w1 : bool) :
  record_waiting r (cycle base size c0 w0) ->
  let ins := [cycle base size c0 w0; cycle base size c1 w1;
              cycle base size c2 false]
             ++ [cycle base size c3 false; cycle base size c4 false] in
  let a := trunc 64 (base + prod_idx r * RECORD_BYTES) in
  let r5 := run step r ins in
  transfers r ins = [(a, half_lo r); (trunc 64 (a + 32), half_hi r)] /\
  state r5 = DMA_IDLE /\ pcie_write r5 = false /\
  prod_idx r5 = next_prod_idx r (cycle base size c4 false) /\
  fifo_rd_ptr r5 = trunc 5 (fifo_rd_ptr r + 1) /\
  stat_records_dma r5 = trunc 32 (stat_records_dma r + 1).
Proof.
  intros Hw. cbv zeta. rewrite transfers_app, run_app.
  pose proof (dma_to_write_1 r base size c0 c1 c2 w0 w1 Hw) as H.
  cbv zeta in H.
  destruct H as (T3 & S3 & W3 & A3 & D3 & Q3 & P3 & C3 & H3 & R3 & E3 & G3 & N3).
  remember (run step r [cycle base size c0 w0; cycle base size c1 w1;
                        cycle base size c2 false]) as r3 eqn:X3. clear X3.
  pose proof (dma_finish r3 base size c3 c4 S3 W3 Q3 E3) as H.
  cbv zeta in H. destruct H as (T5 & S5 & W5 & P5 & R5 & C5).
  remember (run step r3 [cycle base size c3 false; cycle base size c4 false])
    as r5 eqn:X5. clear X5.
  rewrite T3, T5, A3, D3, G3, H3. cbn [app].
  split; [reflexivity|]. split; [exact S5|]. split; [exact W5|].
  split; [now rewrite P5, N3|]. split; [now rewrite R5, R3|].
  now rewrite C5, C3.
Qed.

(** X24. [pcie_dma] does not hold a write for a stalling bridge.  If the
    bridge raises [pcie_waitrequest] in the cycle in which bytes 0..31 are
    on the bus, the engine replaces them with bytes 32..63 all the same:
    the bridge never takes the first half, takes the second half (twice),
    and the record is published and counted as if it had been written. *)
Theorem pcie_dma_stall_loses_first_half
  (r : regs) (base size c0 c1 c2 c3 c4 c5 : Z) (w0 w1 : bool) :
  record_waiting r (cycle base size c0 w0) ->
  let ins := [cycle base size c0 w0; cycle base size c1 w1;
              cycle base size c2 false]
             ++ [cycle base size c3 true]
             ++ [cycle base size c4 false; cycle base size c5 false] in
  let a := trunc 64 (base + prod_idx r * RECORD_BYTES) in
  let r6 := run step r ins in
  transfers r ins =
    [(trunc 64 (a + 32), half_hi r); (trunc 64 (a + 32), half_hi r)] /\
  state r6 = DMA_IDLE /\
  prod_idx r6 = next_prod_idx r (cycle base size c5 false) /\
  fifo_rd_ptr r6 = trunc 5 (fifo_rd_ptr r + 1) /\
  stat_records_dma r6 = trunc 32 (stat_records_dma r + 1).
Proof.
  intros Hw. cbv zeta. rewrite !transfers_app, !run_app.
  pose proof (dma_to_write_1 r base size c0 c1 c2 w0 w1 Hw) as H.
  cbv zeta in H.
  destruct H as (T3 & S3 & W3 & A3 & D3 & Q3 & P3 & C3 & H3 & R3 & E3 & G3 & N3).
  remember (run step r [cycle base size c0 w0; cycle base size c1 w1;
                        cycle base size c2 false]) as r3 eqn:X3. clear X3.
  rewrite T3.
  remember [cycle base size c4 false; cycle base size c5 false] as tl eqn:Etl.
  cbn [run fold_left transfers]. subst tl.
  destruct (dma_step_write_1 r3 (cycle base size c3 true) S3)
    as (S4 & W4 & D4 & V4 & Q4 & P4 & T4).
  destruct (dma_head_stays r3 (cycle base size c3 true) eq_refl Q3 P4)
    as (_ & H4 & R4 & E4 & G4 & N4).
  cbn [pcie_waitrequest cycle negb] in S4, Q4.
  remember (step r3 (cycle base size c3 true)) as r4 eqn:X4. clear X4.
  rewrite E3 in E4.
  pose proof (dma_finish r4 base size c4 c5 S4 W4 Q4 E4) as H.
  cbv zeta in H. destruct H as (T6 & S6 & W6 & P6 & R6 & C6).
  remember (run step r4 [cycle base size c4 false; cycle base size c5 false])
    as r6 eqn:X6. clear X6.
  rewrite T6, W3, D4, V4, !G4, !G3, H4, H3.
  cbn [pcie_waitrequest cycle negb andb app].
  split; [reflexivity|]. split; [exact S6|].
  split; [now rewrite P6, N4, N3|].
  split; [now rewrite R6, R4, R3|].
  now rewrite C6, T4, C3.
Qed.


Lemma queued_is_waiting : record_waiting queued (cycle 4096 1024 0 false).
Proof. unfold record_waiting. repeat split. Qed.

Lemma pcie_dma_record_transfer_witness :
  let ins := [cycle 4096 1024 0 false; cycle 4096 1024 0 false;
              cycle 4096 1024 0 false]
             ++ [cycle 4096 1024 0 false; cycle 4096 1024 0 false] in
  let a := trunc 64 (4096 + prod_idx queued * RECORD_BYTES) in
  let r5 := run step queued ins in
  transfers queued ins
    = [(a, half_lo queued); (trunc 64 (a + 32), half_hi queued)] /\
  state r5 = DMA_IDLE /\ pcie_write r5 = false /\
  prod_idx r5 = next_prod_idx queued (cycle 4096 1024 0 false) /\
  fifo_rd_ptr r5 = trunc 5 (fifo_rd_ptr queued + 1) /\
  stat_records_dma r5 = trunc 32 (stat_records_dma queued + 1).
Proof.
  exact (pcie_dma_record_transfer queued 4096 1024 0 0 0 0 0 false false
           queued_is_waiting).
Defined.

Lemma pcie_dma_stall_loses_first_half_witness :
  let ins := [cycle 4096 1024 0 false; cycle 4096 1024 0 false;
              cycle 4096 1024 0 false]
             ++ [cycle 4096 1024 0 true]
             ++ [cycle 4096 1024 0 false; cycle 4096 1024 0 false] in
  let a := trunc 64 (4096 + prod_idx queued * RECORD_BYTES) in
  let r6 := run step queued ins in
  transfers queued ins =
    [(trunc 64 (a + 32), half_hi queued); (trunc 64 (a + 32), half_hi queued)] /\
  state r6 = DMA_IDLE /\
  prod_idx r6 = next_prod_idx queued (cycle 4096 1024 0 false) /\
  fifo_rd_ptr r6 = trunc 5 (fifo_rd_ptr queued + 1) /\
  stat_records_dma r6 = trunc 32 (stat_records_dma queued + 1).
Proof.
  exact (pcie_dma_stall_loses_first_half queued 4096 1024 0 0 0 0 0 0
           false false queued_is_waiting).
Defined.

(** X25. The input FIFO of [pcie_dma] overruns at the pointer wrap:
    [fifo_full] compares [fifo_wr_ptr + 1] with [fifo_rd_ptr] without
    cutting the sum to 5 bits, so with the read pointer at 0 the FIFO
    never reports full.  With 31 records queued a 32nd is accepted
    ([record_ready] is high) and the write pointer wraps onto the read
    pointer: the FIFO reports empty with 32 records in it. *)
Theorem input_fifo_overruns_at_wrap (r : regs) (i : inputs) :
  fifo_rd_ptr r = 0 -> 0 <= fifo_wr_ptr r < 32 ->
  fifo_full r = false /\
  (fifo_wr_ptr r = 31 -> fifo_pop r = false ->
   record_valid i = true -> cfg_enable i = true ->
   record_ready r i = true /\
   input_fifo (step r i) 31 = record_in i /\
   fifo_wr_ptr (step r i) = 0 /\ fifo_rd_ptr (step r i) = 0 /\
   fifo_empty (step r i) = true).
Proof.
  intros Hrd Hwr.
  assert (Hfull : fifo_full r = false).
  { unfold fifo_full. rewrite Hrd. apply Z.eqb_neq.
    rewrite trunc_small by (change (2 ^ 32) with 4294967296; lia). lia. }
  split; [exact Hfull|].
  intros H31 Hpop Hv Hc.
  unfold record_ready, fifo_empty, step, fifo_push. cbn.
  rewrite Hfull, Hv, Hc, Hpop, H31, Hrd. cbn. repeat split.
Qed.

Lemma input_fifo_overruns_at_wrap_witness :
  record_ready stalled (offer some_output 4096 1024 0 true) = true /\
  fifo_empty (step stalled (offer some_output 4096 1024 0 true)) = true.
Proof.
  pose proof (input_fifo_overruns_at_wrap stalled
                (offer some_output 4096 1024 0 true) eq_refl
                ltac:(vm_compute; split; [discriminate | reflexivity])) as H.
  destruct H as [_ H].
  specialize (H eq_refl eq_refl eq_refl eq_refl).
  destruct H as (H1 & _ & _ & _ & H5).
  split; [exact H1 | exact H5].
Defined.

End PcieDmaFlowFacts.

(** ** Host record layout *)
Section T2TRecordHostFacts.
Import DmaRecord T2TRecordHost.

Lemma pack_nested_eq (r : dma_record_t) : pack r = pack_nested r.
Proof. unfold pack, pack_nested. ring. Qed.

(** The low [w] bits of [a + 2^w * x]. *)
Lemma bits_low_part (w a x : Z) :
  0 < w -> 0 <= a < 2 ^ w -> bits (w - 1) 0 (a + 2 ^ w * x) = a.
Proof.
  intros Hw Ha. unfold bits. change (2 ^ 0) with 1. rewrite Z.div_1_r.
  replace (w - 1 - 0 + 1) with w by lia.
  rewrite Z.mul_comm, Z.mod_add by (apply Z.pow_nonzero; lia).
  now apply Z.mod_small.
Qed.

(** A part select above the low [n] bits of [a + 2^n * x]. *)
Lemma bits_skip (hi lo n a x : Z) :
  0 <= n -> n <= lo -> 0 <= a < 2 ^ n ->
  bits hi lo (a + 2 ^ n * x) = bits (hi - n) (lo - n) x.
Proof.
  intros Hn Hlo Ha. unfold bits.
  replace (hi - n - (lo - n) + 1) with (hi - lo + 1) by lia.
  f_equal.
  replace (2 ^ lo) with (2 ^ n * 2 ^ (lo - n))
    by (rewrite <- Z.pow_add_r by lia; f_equal; lia).
  rewrite <- Z.div_div by (try apply Z.pow_nonzero; try apply Z.pow_pos_nonneg; lia).
  f_equal. rewrite Z.mul_comm, Z.div_add by (apply Z.pow_nonzero; lia).
  rewrite Z.div_small by lia. reflexivity.
Qed.


Ltac skip_field :=
  rewrite bits_skip by (try lia; first [apply trunc_range; lia | assumption]);
  match goal with
  | |- context [bits (?a - ?n) (?b - ?n) _] =>
      let a' := eval vm_compute in (a - n) in
      let b' := eval vm_compute in (b - n) in
      change (a - n) with a'; change (b - n) with b'
  end.

Ltac low_field w :=
  apply (bits_low_part w); [lia | apply trunc_range; lia].

(** The host's flags byte is the hardware's flags byte. *)
Lemma host_flags_byte (r : dma_record_t) :
  T2TRecordHost.flags (read_record (pack r)) = trunc 8 (T2tPkg.flags r).
Proof.
  unfold read_record. cbn [T2TRecordHost.flags].
  rewrite pack_nested_eq. unfold pack_nested.
  do 6 skip_field. low_field 8.
Qed.

(** X26. The host struct does not match the record the engines write.
    Both agree up to byte 27 (sequence, timestamps, symbol index, side,
    flags).  From byte 28 on the host expects a reserved word the hardware
    does not send, so every later field is read four bytes early: the
    host's [quantity] is the hardware's price, its [price] the reference
    price, its [ref_price] feature 0, its [feature0] and [feature1]
    features 1 and 2, its [feature2] the CRC and pad, and its
    [payload_crc] the low 16 bits of the hardware's reserved tail. *)
Theorem host_reads_fields_four_bytes_early (r : dma_record_t) :
  let h := read_record (pack r) in
  T2TRecordHost.seq h = trunc 32 (T2tPkg.seq r) /\
  ts_ingress h = trunc 64 (ts_ing r) /\
  ts_decode h = trunc 64 (ts_dec r) /\
  symbol_idx h = trunc 16 (sym_idx r) /\
  T2TRecordHost.side h = trunc 8 (T2tPkg.side r) /\
  T2TRecordHost.flags h = trunc 8 (T2tPkg.flags r) /\
  reserved1 h = trunc 32 (qty r) /\
  quantity h = trunc 32 (T2tPkg.price r) /\
  T2TRecordHost.price h = trunc 32 (ref_px r) /\
  ref_price h = trunc 32 (T2tPkg.feature0 r) /\
  T2TRecordHost.feature0 h = trunc 32 (T2tPkg.feature1 r) /\
  T2TRecordHost.feature1 h = trunc 32 (T2tPkg.feature2 r) /\
  T2TRecordHost.feature2 h
    = trunc 16 (payload_crc16 r) + 2 ^ 16 * trunc 16 (pad r) /\
  payload_crc h = trunc 16 (reserved_hi r).
Proof.
  cbv zeta. unfold read_record. cbn [T2TRecordHost.seq ts_ingress ts_decode
    symbol_idx T2TRecordHost.side T2TRecordHost.flags reserved1 quantity
    T2TRecordHost.price ref_price T2TRecordHost.feature0
    T2TRecordHost.feature1 T2TRecordHost.feature2 payload_crc].
  rewrite pack_nested_eq. unfold pack_nested.
  split; [low_field 32|].
  split; [do 2 skip_field; low_field 64|].
  split; [do 3 skip_field; low_field 64|].
  split; [do 4 skip_field; low_field 16|].
  split; [do 5 skip_field; low_field 8|].
  split; [do 6 skip_field; low_field 8|].
  split; [do 7 skip_field; low_field 32|].
  split; [do 8 skip_field; low_field 32|].
  split; [do 9 skip_field; low_field 32|].
  split; [do 10 skip_field; low_field 32|].
  split; [do 11 skip_field; low_field 32|].
  split; [do 12 skip_field; low_field 32|].
  pose proof (trunc_range 16 (payload_crc16 r) ltac:(lia)) as Hc.
  pose proof (trunc_range 16 (pad r) ltac:(lia)) as Hp.
  assert (Hcp : 0 <= trunc 16 (payload_crc16 r) + 2 ^ 16 * trunc 16 (pad r)
                < 2 ^ 32).
  { change (2 ^ 16) with 65536 in *. change (2 ^ 32) with 4294967296. lia. }
  split.
  - do 13 skip_field. apply (bits_low_part 32); [lia | exact Hcp].
  - do 14 skip_field.
    unfold bits, trunc. change (2 ^ 0) with 1. rewrite Z.div_1_r.
    change (15 - 0 + 1) with 16.
    apply Z.mod_mod_divide. exists (2 ^ 48). reflexivity.
Qed.


Lemma flags_of_range (o : risk_output_t) : 0 <= flags_of o < 2 ^ 8.
Proof.
  unfold flags_of, b2z.
  destruct (ro_accept o), (ev_stale (ro_book_event o)), (ro_reason o);
    cbn; lia.
Qed.

(** X27. The host reads the two low flag bits the wrong way round.  The
    engines put the accept bit in bit 0 and the stale bit in bit 1; the
    host's [is_stale] tests bit 0 and [is_accepted] bit 1.  So the host
    skips every accepted record as stale, and what [process_record]
    reports as a signal is a record the risk gate rejected with its stale
    flag set.  Its [risk_reason] is right for price band and token bucket,
    reads a position-limit reject as KILL_SWITCH and a kill-switch reject
    as NONE. *)
Theorem host_swaps_accept_and_stale (r : dma_record_t) (o : risk_output_t) :
  T2tPkg.flags r = flags_of o ->
  let h := read_record (pack r) in
  is_stale h = ro_accept o /\
  is_accepted h = ev_stale (ro_book_event o) /\
  risk_reason h =
    match ro_reason o with
    | RISK_PRICE_BAND => PRICE_BAND
    | RISK_TOKEN_BUCKET => RATE_LIMIT
    | RISK_POSITION_LIMIT => KILL_SWITCH
    | _ => NONE
    end /\
  (is_signal h = true ->
   ro_accept o = false /\ ev_stale (ro_book_event o) = true).
Proof.
  intros Hf h.
  assert (Hh : T2TRecordHost.flags h = flags_of o).
  { unfold h. rewrite host_flags_byte, Hf.
    apply trunc_small, flags_of_range. }
  assert (H1 : is_stale h = ro_accept o).
  { unfold is_stale. rewrite Hh. unfold flags_of, b2z.
    destruct (ro_accept o), (ev_stale (ro_book_event o)), (ro_reason o);
      reflexivity. }
  assert (H2 : is_accepted h = ev_stale (ro_book_event o)).
  { unfold is_accepted. rewrite Hh. unfold flags_of, b2z.
    destruct (ro_accept o), (ev_stale (ro_book_event o)), (ro_reason o);
      reflexivity. }
  split; [exact H1|]. split; [exact H2|]. split.
  - unfold risk_reason. rewrite Hh. unfold flags_of, b2z.
    destruct (ro_accept o), (ev_stale (ro_book_event o)), (ro_reason o);
      reflexivity.
  - unfold is_signal. rewrite H1, H2. intros Hs.
    apply andb_true_iff in Hs. destruct Hs as [Ha Hb].
    apply negb_true_iff in Ha.
    apply andb_true_iff in Hb. destruct Hb as [Hb _].
    apply andb_true_iff in Hb. destruct Hb as [Hb _]. auto.
Qed.

Lemma host_swaps_accept_and_stale_witness :
  let h := read_record (pack (PcieDma.record_buf_of stale_reject)) in
  is_stale h = ro_accept stale_reject /\
  is_accepted h = ev_stale (ro_book_event stale_reject) /\
  risk_reason h = NONE /\
  (is_signal h = true ->
   ro_accept stale_reject = false /\
   ev_stale (ro_book_event stale_reject) = true).
Proof.
  exact (host_swaps_accept_and_stale (PcieDma.record_buf_of stale_reject)
           stale_reject eq_refl).
Defined.

End T2TRecordHostFacts.

(** ** Top level: decoder and book *)
Section TopDecodeBookFacts.
Import TopDecodeBook.

Lemma never_met_step (r : regs) (i : inputs) :
  never_met r -> never_met (step r i).
Proof.
  intros (Hs & Hp & He & Hw & Hr & Hpush & Hu & Hd & Ht).
  assert (Hready : decoded_ready r i = true).
  { unfold decoded_ready, BookTobFsm.msg_ready, BookTobFsm.conflict_fifo_full.
    rewrite Hs, Hp, Hw, Hr. reflexivity. }
  assert (Hvalid : ItchDecoderFsm.decoded_valid (u_decoder r) = false).
  { unfold ItchDecoderFsm.decoded_valid, ItchDecoderFsm.is_state.
    destruct (ItchDecoderFsm.state (u_decoder r)) eqn:Es;
      try (rewrite Hd by discriminate); try reflexivity.
    apply andb_false_r. }
  destruct (decoder_ready_inv (u_decoder r) (decoder_inputs r i) Hready Hd)
    as (Hd' & Ht').
  unfold never_met, step. cbn [u_decoder u_book].
  split.
  { unfold BookTobFsm.step, BookTobFsm.idle_refill, BookTobFsm.idle_accept,
      BookTobFsm.conflict_fifo_empty. cbn. rewrite Hs, Hvalid, Hw, Hr.
    reflexivity. }
  split.
  { unfold BookTobFsm.step, BookTobFsm.idle_refill, BookTobFsm.idle_accept,
      BookTobFsm.conflict_fifo_empty. cbn. rewrite Hs, Hvalid, Hw, Hr. cbn.
    exact Hp. }
  split.
  { unfold BookTobFsm.step. cbn. rewrite Hs. reflexivity. }
  split.
  { unfold BookTobFsm.step. cbn. rewrite Hpush. cbn. exact Hw. }
  split.
  { unfold BookTobFsm.step, BookTobFsm.conflict_fifo_empty. cbn.
    rewrite Hw, Hr. cbn. rewrite andb_false_r. reflexivity. }
  split; [apply step_never_pushes|].
  split.
  { unfold BookTobFsm.step, BookTobFsm.event_valid. cbn. rewrite He. cbn.
    exact Hu. }
  split; [exact Hd' | now rewrite Ht'].
Qed.

(** X28. As the top level wires them, the decoder never hands a message
    to the book.  The book is enabled for good and ready whenever it is
    idle; the decoder gives a message up in its first emit cycle when the
    consumer is ready.  From reset (the book's unreset push flag low),
    whatever the splitter and the symbol table deliver, the book stays in
    BOOK_IDLE, no book event is ever valid, and the decoder's and the
    book's message counters stay at 0. *)
Theorem top_decoder_never_reaches_book (u : BookTobFsm.regs) (ins : list inputs) :
  BookTobFsm.conflict_fifo_push u = false ->
  let r := run step (reset u) ins in
  BookTobFsm.state (u_book r) = BookTobFsm.BOOK_IDLE /\
  book_event_valid r = false /\
  ItchDecoderFsm.decoded_valid (u_decoder r) = false /\
  BookTobFsm.stat_updates (u_book r) = 0 /\
  ItchDecoderFsm.stat_total (u_decoder r) = 0.
Proof.
  intros Hp.
  assert (G : forall r0, never_met r0 -> never_met (run step r0 ins)).
  { induction ins as [|i ins' IH]; intros r0 H0; [exact H0|].
    rewrite run_cons. apply IH. now apply never_met_step. }
  assert (H0 : never_met (reset u)).
  { unfold never_met, reset. cbn. repeat split; assumption. }
  destruct (G _ H0) as (Hs & _ & He & _ & _ & _ & Hu & Hd & Ht).
  cbv zeta. remember (run step (reset u) ins) as r eqn:Er. clear Er.
  split; [exact Hs|].
  split; [unfold book_event_valid, BookTobFsm.event_valid; now rewrite He|].
  split; [|split; assumption].
  unfold ItchDecoderFsm.decoded_valid, ItchDecoderFsm.is_state.
  destruct (ItchDecoderFsm.state (u_decoder r)) eqn:Es;
    try (rewrite Hd by discriminate); try reflexivity.
  apply andb_false_r.
Qed.

Lemma top_decoder_never_reaches_book_witness :
  let r := run step (reset BookTobFsm.power_up)
             (repeat add_order_cycle 12) in
  BookTobFsm.state (u_book r) = BookTobFsm.BOOK_IDLE /\
  book_event_valid r = false /\
  ItchDecoderFsm.decoded_valid (u_decoder r) = false /\
  BookTobFsm.stat_updates (u_book r) = 0 /\
  ItchDecoderFsm.stat_total (u_decoder r) = 0.
Proof.
  exact (top_decoder_never_reaches_book BookTobFsm.power_up
           (repeat add_order_cycle 12) eq_refl).
Defined.

End TopDecodeBookFacts.

(** ** Risk gate: token refill *)

Section RiskGateQuietFacts.
Import RiskGate RiskGateQuiet.

Lemma quiet_step (rate max : Z) (r : regs) (i : inputs) (t : Z) :
  0 <= rate < 2 ^ 16 -> 0 <= max < 2 ^ 16 -> 0 <= t ->
  quiet_cycle rate max i ->
  state r = RISK_IDLE -> decision_pending r = false ->
  token_replenish_cnt r = t mod TOKEN_REPLENISH_CYCLES ->
  token_bucket r = Z.min max (rate * (t / TOKEN_REPLENISH_CYCLES)) ->
  state (step r i) = RISK_IDLE /\ decision_pending (step r i) = false /\
  token_replenish_cnt (step r i) = (t + 1) mod TOKEN_REPLENISH_CYCLES /\
  token_bucket (step r i)
    = Z.min max (rate * ((t + 1) / TOKEN_REPLENISH_CYCLES)).
Proof.
  intros Hr Hm Ht (Hv & Hrate & Hmax) Hs Hp Hc Hb.
  assert (Hcons : token_consume r i = false).
  { unfold token_consume, decision_valid. now rewrite Hp. }
  unfold TOKEN_REPLENISH_CYCLES in *.
  change (2 ^ 16) with 65536 in *.
  split; [unfold step, event_ready; cbn; rewrite Hs, Hv; reflexivity|].
  split; [unfold step; cbn; rewrite Hs; reflexivity|].
  unfold step. cbn [token_replenish_cnt token_bucket].
  unfold next_token_replenish_cnt, next_token_bucket, replenish_tick,
    TOKEN_REPLENISH_CYCLES.
  rewrite Hcons, Hc, Hb, Hrate, Hmax. cbn [andb].
  set (q := t / 300000) in *. set (m := t mod 300000) in *.
  assert (Hq : t = 300000 * q + m /\ 0 <= m < 300000 /\ 0 <= q).
  { unfold q, m. pose proof (Z.div_mod t 300000 ltac:(lia)).
    pose proof (Z.mod_pos_bound t 300000 ltac:(lia)).
    pose proof (Z.div_pos t 300000 Ht ltac:(lia)). lia. }
  destruct Hq as (Hq & Hmr & Hq0).
  destruct (300000 - 1 <=? m) eqn:Etick.
  - apply Z.leb_le in Etick. assert (m = 299999) by lia.
    assert (H1 : (t + 1) mod 300000 = 0).
    { symmetry. apply (Z.mod_unique _ _ (q + 1)); lia. }
    assert (H2 : (t + 1) / 300000 = q + 1).
    { symmetry. apply (Z.div_unique _ _ _ 0); lia. }
    rewrite H1, H2. split; [reflexivity|]. cbn [andb].
    assert (Hmul : rate * (q + 1) = rate * q + rate) by ring.
    destruct (Z.min max (rate * q) <? max) eqn:El.
    + apply Z.ltb_lt in El.
      assert (Hb' : Z.min max (rate * q) = rate * q) by lia.
      rewrite Hb' in *.
      assert (0 <= rate * q) by (apply Z.mul_nonneg_nonneg; lia).
      rewrite trunc_small by (change (2 ^ 32) with 4294967296; lia).
      destruct (max <? rate * q + rate) eqn:Eo.
      * apply Z.ltb_lt in Eo. lia.
      * apply Z.ltb_ge in Eo. lia.
    + apply Z.ltb_ge in El.
      assert (0 <= rate * q) by (apply Z.mul_nonneg_nonneg; lia). lia.
  - apply Z.leb_gt in Etick.
    assert (H1 : (t + 1) mod 300000 = m + 1).
    { symmetry. apply (Z.mod_unique _ _ q); lia. }
    assert (H2 : (t + 1) / 300000 = q).
    { symmetry. apply (Z.div_unique _ _ _ (m + 1)); lia. }
    rewrite H1, H2. cbn [andb]. split; [|reflexivity].
    apply trunc_small. change (2 ^ 32) with 4294967296. lia.
Qed.

(** X30. The token bucket fills at [cfg_token_rate] tokens per 300 000
    cycles.  From reset, while no event arrives and the rate and maximum
    stay as configured, after [t] cycles the bucket holds the smaller of
    the maximum and the rate times the number of full 300 000-cycle
    intervals elapsed, and the replenish counter is [t] modulo 300 000. *)
Theorem token_bucket_fills_at_rate
    (rate max : Z) (accept0 : bool) (reason0 : risk_reason_e)
    (ins : list inputs) :
  0 <= rate < 2 ^ 16 -> 0 <= max < 2 ^ 16 ->
  Forall (quiet_cycle rate max) ins ->
  let t := Z.of_nat (length ins) in
  let r := run step (reset accept0 reason0) ins in
  token_bucket r = Z.min max (rate * (t / TOKEN_REPLENISH_CYCLES)) /\
  token_replenish_cnt r = t mod TOKEN_REPLENISH_CYCLES.
Proof.
  intros Hr Hm Hall. cbv zeta.
  assert (G : state (run step (reset accept0 reason0) ins) = RISK_IDLE /\
              decision_pending (run step (reset accept0 reason0) ins) = false /\
              token_replenish_cnt (run step (reset accept0 reason0) ins)
                = Z.of_nat (length ins) mod TOKEN_REPLENISH_CYCLES /\
              token_bucket (run step (reset accept0 reason0) ins)
                = Z.min max (rate * (Z.of_nat (length ins)
                                     / TOKEN_REPLENISH_CYCLES))).
  { induction ins as [|i ins IH] using rev_ind.
    - cbn. change (2 ^ 16) with 65536 in *. repeat split. lia.
    - apply Forall_app in Hall. destruct Hall as [Hall Hi].
      inversion Hi as [|? ? Hq _]; subst.
      destruct (IH Hall) as (A & B & C & D).
      rewrite run_app, length_app. cbn [length run fold_left].
      replace (Z.of_nat (length ins + 1)) with (Z.of_nat (length ins) + 1)
        by lia.
      apply (quiet_step rate max); try assumption. lia. }
  destruct G as (_ & _ & C & D). split; assumption.
Qed.

Lemma token_bucket_fills_at_rate_witness :
  let t := Z.of_nat (length Examples.warm_trace) in
  let r := run step (reset false RISK_ACCEPT) Examples.warm_trace in
  token_bucket r = Z.min 1 (1 * (t / TOKEN_REPLENISH_CYCLES)) /\
  token_replenish_cnt r = t mod TOKEN_REPLENISH_CYCLES.
Proof.
  apply (token_bucket_fills_at_rate 1 1 false RISK_ACCEPT Examples.warm_trace).
  - change (2 ^ 16) with 65536. lia.
  - change (2 ^ 16) with 65536. lia.
  - apply Forall_forall. intros x Hx. unfold Examples.warm_trace in Hx.
    apply repeat_spec in Hx. subst x. unfold quiet_cycle. cbn. auto.
Defined.

End RiskGateQuietFacts.
